(** * jsonpath_ng/parser.py: the JSONPath grammar and its LALR(1) parser

    The source declares the grammar as PLY productions (the docstrings of the
    [p_*] methods), a precedence table and one semantic action per method; the
    parser itself is built from them by [ply.yacc.yacc].  This development
    embeds the three layers:

    - the Python values the actions build ([pyval], with the JSONPath node
      classes as constructors) and the exceptions they raise;
    - the grammar, the precedence table and the semantic actions, method by
      method;
    - PLY's LALR(1) table construction (with its precedence rules for
      shift/reduce conflicts) and its table-driven parse loop, run over a
      token source pulled through [IteratorToTokenStream]. *)

From Stdlib Require Import String Ascii List ZArith Lia Bool Arith.
From Stdlib Require Import DecimalString.
Import ListNotations.
Open Scope string_scope.

(** ** Python values *)

(** Modelled from the spec: the node classes ([jsonpath_ng/jsonpath.py],
    imported by the parser with [from jsonpath_ng.jsonpath import *]) are not
    among the sources; section 3 of the spec lists the eleven variants and
    the fields of each.  They are the last eleven constructors of [pyval],
    the objects that flow through the semantic actions; the first four are
    [None], ints, strs and lists.  A node constructor takes whatever objects
    it is called with, as a Python constructor does: the parser checks
    nothing. *)
#[local] Set Warnings "-register-all".

Inductive pyval : Type :=
| VNone
| VInt (n : Z)
| VStr (s : string)
| VList (l : list pyval)
| Root
| This
| Parent
| Fields (fields : list pyval)
| Index (index : pyval)
| Slice (start end_ step : pyval)
| Child (left right : pyval)
| Descendants (left right : pyval)
| Where (left right : pyval)
| Union (left right : pyval)
| Intersect (left right : pyval).

(** Exceptions that can leave the parser.  The source raises
    [JsonPathParserError] with one argument, a formatted message, at each of
    its three [raise] statements.  [LexerError] stands for whatever the
    tokenizer raises on a text it cannot scan. *)
Inductive exn : Type :=
| JsonPathParserError (message : string)
| LexerError
| TypeError
| IndexError
| KeyError.

(** The class of an exception object and the arguments it was built with. *)
Definition exc_class (e : exn) : string :=
  match e with
  | JsonPathParserError _ => "JsonPathParserError"
  | LexerError => "LexerError"
  | TypeError => "TypeError"
  | IndexError => "IndexError"
  | KeyError => "KeyError"
  end.

Definition exc_args (e : exn) : list pyval :=
  match e with
  | JsonPathParserError m => [VStr m]
  | LexerError => []
  | TypeError => []
  | IndexError => []
  | KeyError => []
  end.

Inductive result (A : Type) : Type :=
| Return (a : A)
| Raise (e : exn).
Arguments Return {A} a.
Arguments Raise {A} e.

Definition bind {A B : Type} (m : result A) (k : A -> result B) : result B :=
  match m with
  | Return a => k a
  | Raise e => Raise e
  end.

Notation "x <- m ;; k" := (bind m (fun x => k))
  (at level 61, m at next level, right associativity).

(** [str(n)] for an int. *)
Definition str_of_Z (n : Z) : string := NilZero.string_of_int (Z.to_int n).

(** [v == s] for a str literal [s]: only a str equal to [s] compares equal. *)
Definition py_eq_str (v : pyval) (s : string) : bool :=
  match v with
  | VStr s' => String.eqb s' s
  | _ => false
  end.

Fixpoint chars (s : string) : list pyval :=
  match s with
  | EmptyString => []
  | String c s' => VStr (String c EmptyString) :: chars s'
  end.

(** The argument list that [f( *v )] passes: the elements of an iterable. *)
Definition unpack (v : pyval) : result (list pyval) :=
  match v with
  | VList l => Return l
  | VStr s => Return (chars s)
  | _ => Raise TypeError
  end.

(** [a + b]. *)
Definition py_add (a b : pyval) : result pyval :=
  match a, b with
  | VList l1, VList l2 => Return (VList (l1 ++ l2))
  | VStr s1, VStr s2 => Return (VStr (s1 ++ s2))
  | VInt n1, VInt n2 => Return (VInt (n1 + n2))
  | _, _ => Raise TypeError
  end.

(** Modelled from the spec: the constructor of [Slice] is not among the
    sources; by section 3 it has an optional start, end and step, each absent
    ([None]) unless given.  This is the call [Slice( *args )] with positional
    arguments. *)
Definition Slice_call (args : list pyval) : result pyval :=
  match args with
  | [] => Return (Slice VNone VNone VNone)
  | [a] => Return (Slice a VNone VNone)
  | [a; b] => Return (Slice a b VNone)
  | [a; b; c] => Return (Slice a b c)
  | _ => Raise TypeError
  end.

(** ** Tokens and grammar symbols *)

(** What a lexer token carries as its value: a str, or an int for NUMBER. *)
Inductive tokval : Type :=
| TStr (s : string)
| TInt (n : Z).

Definition pyval_of (v : tokval) : pyval :=
  match v with
  | TStr s => VStr s
  | TInt n => VInt n
  end.

Definition str_of_tokval (v : tokval) : string :=
  match v with
  | TStr s => s
  | TInt n => str_of_Z n
  end.

Record LexToken : Type := mkTok {
  type : string;
  value : tokval;
  lineno : Z;
  lexpos : Z
}.

(** An entry of the parser's symbol stack: a shifted token, or a nonterminal
    with the value its action computed.  Nonterminals carry no position, and
    [p.lineno(n)], [p.lexpos(n)] default to 0 for them. *)
Record YaccSymbol : Type := mkSym {
  sym_type : string;
  sym_value : pyval;
  sym_lineno : Z;
  sym_lexpos : Z
}.

Definition sym_of_token (t : LexToken) : YaccSymbol :=
  mkSym (type t) (pyval_of (value t)) (lineno t) (lexpos t).

(** The object [p] handed to a semantic action: [p[0]] is the slot of the
    result, [p[1]], [p[2]], ... are the symbols of the right-hand side. *)
Definition YaccProduction : Type := list YaccSymbol.

Definition p_item (p : YaccProduction) (n : nat) : result pyval :=
  match nth_error p n with
  | Some s => Return (sym_value s)
  | None => Raise IndexError
  end.

Definition p_lineno (p : YaccProduction) (n : nat) : result Z :=
  match nth_error p n with
  | Some s => Return (sym_lineno s)
  | None => Raise IndexError
  end.

Definition p_lexpos (p : YaccProduction) (n : nat) : result Z :=
  match nth_error p n with
  | Some s => Return (sym_lexpos s)
  | None => Raise IndexError
  end.

(** [p[1::2]]: the values at the odd positions. *)
Fixpoint odd_items (p : list YaccSymbol) : list pyval :=
  match p with
  | _ :: s :: rest => sym_value s :: odd_items rest
  | _ => []
  end.

(** ** The semantic actions of [JsonPathParser] *)

Definition unexpected_end_message : string :=
  "Parse error near the end of string!".

Definition unexpected_token_message (t : LexToken) : string :=
  "Parse error at " ++ str_of_Z (lineno t) ++ ":" ++ str_of_Z (lexpos t)
  ++ " near token " ++ str_of_tokval (value t) ++ " (" ++ type t ++ ")".

Definition unknown_operator_message (name : string) (line pos : Z) : string :=
  "Unknown named operator `" ++ name ++ "` at "
  ++ str_of_Z line ++ ":" ++ str_of_Z pos.

(** [p_error] never returns: both branches raise.  Its value here is the
    exception it raises. *)
Definition p_error (t : option LexToken) : exn :=
  match t with
  | None => JsonPathParserError unexpected_end_message
  | Some t => JsonPathParserError (unexpected_token_message t)
  end.

(** Each action returns the value it leaves in [p[0]]; an action that assigns
    nothing leaves [None] there. *)
Definition p_jsonpath_binop (p : YaccProduction) : result pyval :=
  op <- p_item p 2 ;;
  if py_eq_str op "." then
    l <- p_item p 1 ;; r <- p_item p 3 ;; Return (Child l r)
  else if py_eq_str op ".." then
    l <- p_item p 1 ;; r <- p_item p 3 ;; Return (Descendants l r)
  else if py_eq_str op "where" then
    l <- p_item p 1 ;; r <- p_item p 3 ;; Return (Where l r)
  else if py_eq_str op "|" then
    l <- p_item p 1 ;; r <- p_item p 3 ;; Return (Union l r)
  else if py_eq_str op "&" then
    l <- p_item p 1 ;; r <- p_item p 3 ;; Return (Intersect l r)
  else Return VNone.

Definition p_jsonpath_fields (p : YaccProduction) : result pyval :=
  f <- p_item p 1 ;; names <- unpack f ;; Return (Fields names).

(** [p[1]] is formatted with [%s]: it is the value of the NAMED_OPERATOR
    token, a str (or an int, shown in decimal). *)
Definition str_of_pyval (v : pyval) : string :=
  match v with
  | VStr s => s
  | VInt n => str_of_Z n
  | _ => "None"
  end.

Definition p_jsonpath_named_operator (p : YaccProduction) : result pyval :=
  name <- p_item p 1 ;;
  if py_eq_str name "this" then Return This
  else if py_eq_str name "parent" then Return Parent
  else
    line <- p_lineno p 1 ;; pos <- p_lexpos p 1 ;;
    Raise (JsonPathParserError
             (unknown_operator_message (str_of_pyval name) line pos)).

Definition p_jsonpath_root (p : YaccProduction) : result pyval :=
  Return Root.

Definition p_jsonpath_idx (p : YaccProduction) : result pyval :=
  p_item p 2.

Definition p_jsonpath_slice (p : YaccProduction) : result pyval :=
  p_item p 2.

Definition p_jsonpath_fieldbrackets (p : YaccProduction) : result pyval :=
  f <- p_item p 2 ;; names <- unpack f ;; Return (Fields names).

Definition p_jsonpath_child_fieldbrackets (p : YaccProduction) : result pyval :=
  l <- p_item p 1 ;; f <- p_item p 3 ;; names <- unpack f ;;
  Return (Child l (Fields names)).

Definition p_jsonpath_child_idxbrackets (p : YaccProduction) : result pyval :=
  l <- p_item p 1 ;; r <- p_item p 3 ;; Return (Child l r).

Definition p_jsonpath_child_slicebrackets (p : YaccProduction) : result pyval :=
  l <- p_item p 1 ;; r <- p_item p 3 ;; Return (Child l r).

Definition p_jsonpath_parens (p : YaccProduction) : result pyval :=
  p_item p 2.

Definition p_fields_or_any (p : YaccProduction) : result pyval :=
  v <- p_item p 1 ;;
  if py_eq_str v "*" then Return (VList [VStr "*"]) else Return v.

Definition p_fields_id (p : YaccProduction) : result pyval :=
  v <- p_item p 1 ;; Return (VList [v]).

Definition p_fields_comma (p : YaccProduction) : result pyval :=
  a <- p_item p 1 ;; b <- p_item p 3 ;; py_add a b.

Definition p_idx (p : YaccProduction) : result pyval :=
  v <- p_item p 1 ;; Return (Index v).

Definition p_slice_any (p : YaccProduction) : result pyval :=
  Slice_call [].

Definition p_slice (p : YaccProduction) : result pyval :=
  Slice_call (odd_items p).

Definition p_maybe_int (p : YaccProduction) : result pyval :=
  p_item p 1.

Definition p_empty (p : YaccProduction) : result pyval :=
  Return VNone.

(** ** The grammar as [JsonPathParser] declares it *)

Inductive assoc : Type := assoc_left | assoc_right | assoc_nonassoc.

(** [JsonPathParser.precedence]: one entry per level, lowest level first. *)
Definition precedence : list (assoc * list string) :=
  [ (assoc_left, [","]);
    (assoc_left, ["DOUBLEDOT"]);
    (assoc_left, ["."]);
    (assoc_left, ["|"]);
    (assoc_left, ["&"]);
    (assoc_left, ["WHERE"]) ].

(** A [p_*] method: the alternatives of its docstring and its body. *)
Record Rule : Type := mkRule {
  rule_name : string;
  rule_lhs : string;
  rule_alts : list (list string);
  rule_func : YaccProduction -> result pyval
}.

Definition start_symbol : string := "jsonpath".

(** The methods in source order, which is the order in which PLY numbers
    their productions. *)
Definition rules : list Rule :=
  [ mkRule "p_jsonpath_binop" "jsonpath"
      [ ["jsonpath"; "."; "jsonpath"];
        ["jsonpath"; "DOUBLEDOT"; "jsonpath"];
        ["jsonpath"; "WHERE"; "jsonpath"];
        ["jsonpath"; "|"; "jsonpath"];
        ["jsonpath"; "&"; "jsonpath"] ]
      p_jsonpath_binop;
    mkRule "p_jsonpath_fields" "jsonpath"
      [ ["fields_or_any"] ] p_jsonpath_fields;
    mkRule "p_jsonpath_named_operator" "jsonpath"
      [ ["NAMED_OPERATOR"] ] p_jsonpath_named_operator;
    mkRule "p_jsonpath_root" "jsonpath"
      [ ["$"] ] p_jsonpath_root;
    mkRule "p_jsonpath_idx" "jsonpath"
      [ ["["; "idx"; "]"] ] p_jsonpath_idx;
    mkRule "p_jsonpath_slice" "jsonpath"
      [ ["["; "slice"; "]"] ] p_jsonpath_slice;
    mkRule "p_jsonpath_fieldbrackets" "jsonpath"
      [ ["["; "fields"; "]"] ] p_jsonpath_fieldbrackets;
    mkRule "p_jsonpath_child_fieldbrackets" "jsonpath"
      [ ["jsonpath"; "["; "fields"; "]"] ] p_jsonpath_child_fieldbrackets;
    mkRule "p_jsonpath_child_idxbrackets" "jsonpath"
      [ ["jsonpath"; "["; "idx"; "]"] ] p_jsonpath_child_idxbrackets;
    mkRule "p_jsonpath_child_slicebrackets" "jsonpath"
      [ ["jsonpath"; "["; "slice"; "]"] ] p_jsonpath_child_slicebrackets;
    mkRule "p_jsonpath_parens" "jsonpath"
      [ ["("; "jsonpath"; ")"] ] p_jsonpath_parens;
    mkRule "p_fields_or_any" "fields_or_any"
      [ ["fields"]; ["*"] ] p_fields_or_any;
    mkRule "p_fields_id" "fields"
      [ ["ID"] ] p_fields_id;
    mkRule "p_fields_comma" "fields"
      [ ["fields"; ","; "fields"] ] p_fields_comma;
    mkRule "p_idx" "idx"
      [ ["NUMBER"] ] p_idx;
    mkRule "p_slice_any" "slice"
      [ ["*"] ] p_slice_any;
    mkRule "p_slice" "slice"
      [ ["maybe_int"; ":"; "maybe_int"];
        ["maybe_int"; ":"; "maybe_int"; ":"; "maybe_int"] ]
      p_slice;
    mkRule "p_maybe_int" "maybe_int"
      [ ["NUMBER"]; ["empty"] ] p_maybe_int;
    mkRule "p_empty" "empty"
      [ [] ] p_empty ].

(** ** PLY's grammar object

    [ply.yacc] numbers the productions in source order after the augmented
    production [S' -> start], and gives each production the precedence of the
    rightmost terminal of its right-hand side, [('right', 0)] when that
    terminal has none. *)

Record Production : Type := mkProd {
  name : string;
  prod : list string;
  prec : assoc * nat;
  func : YaccProduction -> result pyval
}.

Definition is_nonterminal (s : string) : bool :=
  existsb (fun r => String.eqb (rule_lhs r) s) rules.

(** The [Precedence] dict: terminal to (associativity, level), levels from 1. *)
Fixpoint Precedence_from (level : nat) (tbl : list (assoc * list string))
  : list (string * (assoc * nat)) :=
  match tbl with
  | [] => []
  | (a, terms) :: tbl' =>
      map (fun t => (t, (a, level))) terms ++ Precedence_from (S level) tbl'
  end.

Definition Precedence : list (string * (assoc * nat)) :=
  Precedence_from 1 precedence.

Fixpoint lookup {A : Type} (k : string) (d : list (string * A)) : option A :=
  match d with
  | [] => None
  | (k', v) :: d' => if String.eqb k' k then Some v else lookup k d'
  end.

Definition Precedence_get (t : string) : assoc * nat :=
  match lookup t Precedence with
  | Some p => p
  | None => (assoc_right, 0)
  end.

Definition rightmost_terminal (syms : list string) : option string :=
  find (fun s => negb (is_nonterminal s)) (rev syms).

Definition production_prec (syms : list string) : assoc * nat :=
  match rightmost_terminal syms with
  | Some t => Precedence_get t
  | None => (assoc_right, 0)
  end.

Definition productions_of (r : Rule) : list Production :=
  map (fun alt => mkProd (rule_lhs r) alt (production_prec alt) (rule_func r))
      (rule_alts r).

Definition Productions : list Production :=
  mkProd "S'" [start_symbol] (assoc_right, 0) (fun p => p_item p 1)
  :: flat_map productions_of rules.

(** ** LR(0) items and the LR(0) automaton *)

(** An item is a production number and the position of the dot. *)
Definition Item : Type := (nat * nat)%type.

Definition item_eqb (a b : Item) : bool :=
  Nat.eqb (fst a) (fst b) && Nat.eqb (snd a) (snd b).

Definition rhs (n : nat) : list string :=
  match nth_error Productions n with
  | Some p => prod p
  | None => []
  end.

Definition lhs (n : nat) : string :=
  match nth_error Productions n with
  | Some p => name p
  | None => ""
  end.

(** The symbol right after the dot, if the dot is not at the end. *)
Definition after_dot (it : Item) : option string :=
  nth_error (rhs (fst it)) (snd it).

Definition numbers_of (B : string) : list nat :=
  filter (fun n => String.eqb (lhs n) B) (seq 0 (length Productions)).

Definition mem_item (it : Item) (l : list Item) : bool :=
  existsb (item_eqb it) l.

Fixpoint add_items (new : list Item) (seen : list Item) : list Item :=
  match new with
  | [] => []
  | it :: new' =>
      if mem_item it seen then add_items new' seen
      else it :: add_items new' (it :: seen)
  end.

(** Items are closed in the order PLY's [lr0_closure] appends them: each item
    in turn contributes the initial items of the nonterminal after its dot. *)
Fixpoint closure_loop (fuel : nat) (queue done : list Item) : list Item :=
  match fuel with
  | O => rev done ++ queue
  | S fuel' =>
      match queue with
      | [] => rev done
      | it :: queue' =>
          let new :=
            match after_dot it with
            | Some B => map (fun n => (n, 0)) (numbers_of B)
            | None => []
            end in
          closure_loop fuel' (queue' ++ add_items new (it :: queue' ++ done))
                       (it :: done)
      end
  end.

Definition item_bound : nat :=
  fold_right (fun p n => S (length (prod p)) + n) 0 Productions.

Definition lr0_closure (K : list Item) : list Item :=
  closure_loop (item_bound + length K) K [].

(** The kernel of [goto(K, x)]: the items of the closure of [K] with [x]
    after the dot, moved over [x]. *)
Definition lr0_goto (K : list Item) (x : string) : list Item :=
  flat_map (fun it =>
              match after_dot it with
              | Some y => if String.eqb y x then [(fst it, S (snd it))] else []
              | None => []
              end)
           (lr0_closure K).

Definition incl_items (a b : list Item) : bool :=
  forallb (fun it => mem_item it b) a.

Definition kernel_eqb (a b : list Item) : bool :=
  incl_items a b && incl_items b a.

Fixpoint index_of (k : list Item) (C : list (list Item)) : option nat :=
  match C with
  | [] => None
  | k' :: C' =>
      if kernel_eqb k k' then Some 0
      else option_map S (index_of k C')
  end.

Fixpoint add_str (s : string) (l : list string) : list string :=
  match l with
  | [] => [s]
  | s' :: l' => if String.eqb s' s then l else s' :: add_str s l'
  end.

Definition union_str (a b : list string) : list string :=
  fold_left (fun acc s => add_str s acc) b a.

Definition mem_str (s : string) (l : list string) : bool :=
  existsb (String.eqb s) l.

(** The symbols that label a transition out of a state. *)
Definition symbols_after (K : list Item) : list string :=
  fold_left (fun acc it =>
               match after_dot it with
               | Some x => add_str x acc
               | None => acc
               end)
            (lr0_closure K) [].

(** The canonical collection, state 0 first, states numbered as they are
    discovered. *)
Fixpoint lr0_loop (fuel : nat) (i : nat) (C : list (list Item))
  : list (list Item) :=
  match fuel with
  | O => C
  | S fuel' =>
      match nth_error C i with
      | None => C
      | Some K =>
          let C' :=
            fold_left (fun C x =>
                         let g := lr0_goto K x in
                         match index_of g C with
                         | Some _ => C
                         | None => (C ++ [g])%list
                         end)
                      (symbols_after K) C in
          lr0_loop fuel' (S i) C'
      end
  end.

Definition lr0_items : list (list Item) :=
  Eval vm_compute in lr0_loop 200 0 [[(0, 0)]].

(** The transitions of the automaton: for each state, the target of each
    symbol that labels a move out of it. *)
Definition lr0_transitions : list (list (string * nat)) :=
  Eval vm_compute in
    map (fun K =>
           flat_map (fun x =>
                       match index_of (lr0_goto K x) lr0_items with
                       | Some j => [(x, j)]
                       | None => []
                       end)
                    (symbols_after K))
        lr0_items.

Definition transition (st : nat) (x : string) : option nat :=
  match nth_error lr0_transitions st with
  | Some row => lookup x row
  | None => None
  end.

(** ** LALR(1) lookaheads *)

Fixpoint iterate {A : Type} (f : A -> A) (n : nat) (x : A) : A :=
  match n with
  | O => x
  | S n' => iterate f n' (f x)
  end.

Definition Nullable : list string :=
  Eval vm_compute in
    iterate (fun N =>
               fold_left (fun N p =>
                            if forallb (fun s => mem_str s N) (prod p)
                            then add_str (name p) N else N)
                         Productions N)
            (length Productions) [].

Definition set_of (x : string) (F : list (string * list string)) : list string :=
  match lookup x F with
  | Some l => l
  | None => []
  end.

Fixpoint update {A : Type} (k : string) (v : A) (d : list (string * A))
  : list (string * A) :=
  match d with
  | [] => [(k, v)]
  | (k', v') :: d' =>
      if String.eqb k' k then (k, v) :: d' else (k', v') :: update k v d'
  end.

(** The terminals that can begin [beta], followed by [L] when all of [beta]
    can derive the empty string. *)
Fixpoint first_seq (F : list (string * list string)) (beta : list string)
         (L : list string) : list string :=
  match beta with
  | [] => L
  | s :: beta' =>
      if is_nonterminal s then
        if mem_str s Nullable
        then union_str (set_of s F) (first_seq F beta' L)
        else set_of s F
      else [s]
  end.

Definition First : list (string * list string) :=
  Eval vm_compute in
    iterate (fun F =>
               fold_left (fun F p =>
                            update (name p)
                                   (union_str (set_of (name p) F)
                                              (first_seq F (prod p) []))
                                   F)
                         Productions F)
            (length Productions) [].

(** Items of one state with the lookahead set of each. *)
Definition ItemLA : Type := list (Item * list string).

Fixpoint la_of (it : Item) (t : ItemLA) : list string :=
  match t with
  | [] => []
  | (it', L) :: t' => if item_eqb it' it then L else la_of it t'
  end.

Fixpoint la_add (it : Item) (L : list string) (t : ItemLA) : ItemLA :=
  match t with
  | [] => []
  | (it', L') :: t' =>
      if item_eqb it' it then (it', union_str L' L) :: t'
      else (it', L') :: la_add it L t'
  end.

Definition la_size (t : ItemLA) : nat :=
  fold_right (fun e n => length (snd e) + n) 0 t.

(** One pass of the LR(1) closure rule over a state: an item [A -> a . B b]
    with lookaheads [L] gives every item [B -> . c] the terminals of
    [first_seq b L]. *)
Definition closure1_pass (t : ItemLA) : ItemLA :=
  fold_left (fun t it =>
               match after_dot it with
               | Some B =>
                   if is_nonterminal B then
                     let F := first_seq First (skipn (S (snd it)) (rhs (fst it)))
                                        (la_of it t) in
                     fold_left (fun t n => la_add (n, 0) F t) (numbers_of B) t
                   else t
               | None => t
               end)
            (map fst t) t.

Fixpoint until_stable {A : Type} (size : A -> nat) (f : A -> A) (fuel : nat)
         (x : A) : A :=
  match fuel with
  | O => x
  | S fuel' =>
      let y := f x in
      if Nat.eqb (size y) (size x) then x else until_stable size f fuel' y
  end.

(** All the items of a state with their lookaheads, from those of its kernel
    items. *)
Definition closure1 (kernel : ItemLA) : ItemLA :=
  let items := lr0_closure (map fst kernel) in
  until_stable la_size closure1_pass 200
               (map (fun it => (it, la_of it kernel)) items).

Fixpoint update_nth {A : Type} (n : nat) (f : A -> A) (l : list A) : list A :=
  match l, n with
  | [], _ => []
  | x :: l', O => f x :: l'
  | x :: l', S n' => x :: update_nth n' f l'
  end.

(** One pass of propagation: the lookaheads of an item move with it over the
    symbol after its dot, into the kernel of the target state. *)
Definition propagate_pass (LA : list ItemLA) : list ItemLA :=
  fold_left (fun LA st =>
               match nth_error LA st with
               | None => LA
               | Some kernel =>
                   fold_left (fun LA e =>
                                let it := fst e in
                                match after_dot it with
                                | None => LA
                                | Some x =>
                                    match transition st x with
                                    | None => LA
                                    | Some j =>
                                        update_nth j
                                          (la_add (fst it, S (snd it)) (snd e))
                                          LA
                                    end
                                end)
                             (closure1 kernel) LA
               end)
            (seq 0 (length LA)) LA.

Definition lalr_size (LA : list ItemLA) : nat :=
  fold_right (fun t n => la_size t + n) 0 LA.

(** The LALR(1) lookaheads of the kernel items of every state: the least
    sets closed under propagation that give [$end] to [S' -> . start]. *)
Definition kernel_lookaheads : list ItemLA :=
  Eval vm_compute in
    until_stable lalr_size propagate_pass 200
      (map (fun K => map (fun it => (it, if item_eqb it (0, 0)
                                          then ["$end"] else []))
                         K)
           lr0_items).

(** Every item of every state with its lookaheads. *)
Definition state_items : list ItemLA :=
  Eval vm_compute in map closure1 kernel_lookaheads.

(** ** The parse table

    PLY stores a shift to state [j] as [j], a reduction by production [n] as
    [-n], accept as [0] and a nonassociative conflict as [None]. *)

Inductive action : Type :=
| Shift (j : nat)
| Reduce (n : nat)
| Accept
| NoAction.

Definition precedence_of (n : nat) : assoc * nat :=
  match nth_error Productions n with
  | Some p => prec p
  | None => (assoc_right, 0)
  end.

Definition is_left (a : assoc) : bool :=
  match a with assoc_left => true | _ => false end.
Definition is_right (a : assoc) : bool :=
  match a with assoc_right => true | _ => false end.
Definition is_nonassoc (a : assoc) : bool :=
  match a with assoc_nonassoc => true | _ => false end.

(** Entering "reduce by [n] on [a]" into the actions of a state.  Against a
    shift already there, the reduction wins if the production's level is
    higher than the token's, or equal with left associativity; against an
    earlier reduction, the production declared first wins. *)
Definition enter_reduce (a : string) (n : nat) (st : list (string * action))
  : list (string * action) :=
  match lookup a st with
  | Some (Shift _) =>
      let slevel := snd (Precedence_get a) in
      let (rprec, rlevel) := precedence_of n in
      if Nat.ltb slevel rlevel || (Nat.eqb slevel rlevel && is_left rprec)
      then update a (Reduce n) st
      else if Nat.eqb slevel rlevel && is_nonassoc rprec
      then update a NoAction st
      else st
  | Some (Reduce old) => if Nat.ltb n old then update a (Reduce n) st else st
  | Some Accept => st
  | Some NoAction | None => update a (Reduce n) st
  end.

(** Entering "shift [a] and go to [j]".  Against a reduction already there,
    the shift wins if the token's level is higher than the production's, or
    equal with right associativity. *)
Definition enter_shift (a : string) (j : nat) (st : list (string * action))
  : list (string * action) :=
  match lookup a st with
  | Some (Shift _) => st
  | Some (Reduce r) =>
      let slevel := snd (Precedence_get a) in
      let (rprec, rlevel) := precedence_of r in
      if Nat.ltb rlevel slevel || (Nat.eqb slevel rlevel && is_right rprec)
      then update a (Shift j) st
      else if Nat.eqb slevel rlevel && is_nonassoc rprec
      then update a NoAction st
      else st
  | Some Accept => st
  | Some NoAction | None => update a (Shift j) st
  end.

(** The actions of state [st], its items taken in order. *)
Definition state_actions (st : nat) (items : ItemLA) : list (string * action) :=
  fold_left (fun acts e =>
               let it := fst e in
               match after_dot it with
               | None =>
                   if String.eqb (lhs (fst it)) "S'"
                   then update "$end" Accept acts
                   else fold_left (fun acts a => enter_reduce a (fst it) acts)
                                  (snd e) acts
               | Some a =>
                   if is_nonterminal a then acts
                   else match transition st a with
                        | Some j => enter_shift a j acts
                        | None => acts
                        end
               end)
            items [].

Definition lr_action : list (list (string * action)) :=
  Eval vm_compute in
    map (fun e => state_actions (fst e) (snd e))
        (combine (seq 0 (length state_items)) state_items).

Definition lr_goto : list (list (string * nat)) :=
  Eval vm_compute in
    map (filter (fun e => is_nonterminal (fst e))) lr0_transitions.

(** A state whose only entry is a reduction is reduced without looking at
    the next token. *)
Definition defaulted (acts : list (string * action)) : option action :=
  match acts with
  | [(_, Reduce n)] => Some (Reduce n)
  | _ => None
  end.

Definition defaulted_states : list (option action) :=
  Eval vm_compute in map defaulted lr_action.

(** ** Token sources *)

(** What [next(it)] does: yield an element and move on, raise
    [StopIteration], or raise something else. *)
Inductive next_result (I A : Type) : Type :=
| Yield (a : A) (it : I)
| StopIteration
| Throw (e : exn).
Arguments Yield {I A} a it.
Arguments StopIteration {I A}.
Arguments Throw {I A} e.

Class Iterator (I A : Type) : Type := next : I -> next_result I A.

(** A list iterated from its head. *)
#[export] Instance list_iterator (A : Type) : Iterator (list A) A :=
  fun l => match l with
           | [] => StopIteration
           | a :: l' => Yield a l'
           end.

(** [IteratorToTokenStream]: the object PLY pulls tokens from. *)
Record IteratorToTokenStream (I : Type) : Type := mkStream {
  iterator : I
}.
Arguments mkStream {I} iterator.
Arguments iterator {I} i.

(** [token()]: the next element, or [None] once the iterator is exhausted.
    The stream object is returned with its iterator advanced. *)
Definition token {I A : Type} `{Iterator I A} (self : IteratorToTokenStream I)
  : result (option A * IteratorToTokenStream I) :=
  match next (iterator self) with
  | Yield a it => Return (Some a, mkStream it)
  | StopIteration => Return (None, self)
  | Throw e => Raise e
  end.

(** ** PLY's parse loop *)

(** The lookahead: not read yet, a token, or the end marker [$end]. *)
Inductive lookahead_t : Type :=
| NoLookahead
| Tok (t : LexToken)
| EndMarker.

Definition action_of (state : nat) (ltype : string) : option action :=
  match nth_error lr_action state with
  | Some row => lookup ltype row
  | None => None
  end.

Definition goto_of (state : nat) (pname : string) : option nat :=
  match nth_error lr_goto state with
  | Some row => lookup pname row
  | None => None
  end.

Definition defaulted_state (state : nat) : option action :=
  match nth_error defaulted_states state with
  | Some d => d
  | None => None
  end.

Section ParseLoop.
Context {I : Type} `{Iterator I LexToken}.

(** The machine between two iterations of the loop.  Both stacks have
    their top at the head; the current state is the top of [statestack]. *)
Record machine : Type := mkMachine {
  lexer : IteratorToTokenStream I;
  lookahead : lookahead_t;
  statestack : list nat;
  symstack : list YaccSymbol
}.

Inductive step_result : Type :=
| Continue (m : machine)
| Done (r : result pyval).

(** Reading the lookahead when there is none. *)
Definition fill_lookahead (m : machine) : result machine :=
  match lookahead m with
  | NoLookahead =>
      r <- token (lexer m) ;;
      let (t, lx) := r in
      Return (mkMachine lx
                        (match t with Some t => Tok t | None => EndMarker end)
                        (statestack m) (symstack m))
  | _ => Return m
  end.

Definition lookahead_type (l : lookahead_t) : string :=
  match l with
  | Tok t => type t
  | _ => "$end"
  end.

Definition lookahead_sym (l : lookahead_t) : YaccSymbol :=
  match l with
  | Tok t => sym_of_token t
  | _ => mkSym "$end" VNone 0 0
  end.

(** The token handed to [p_error]: the lookahead, or [None] when the
    lookahead is of kind [$end], be it the end marker or a token that the
    source yielded with that kind ([if errtoken.type == '$end': errtoken =
    None]). *)
Definition errtoken (l : lookahead_t) : option LexToken :=
  match l with
  | Tok t => if String.eqb (type t) "$end" then None else Some t
  | _ => None
  end.

(** Reduction by production [n]: the action runs on the top [plen] symbols,
    both stacks lose [plen] entries, and the goto of the uncovered state on
    the production's name is pushed. *)
Definition reduce (m : machine) (n : nat) : step_result :=
  match nth_error Productions n with
  | None => Done (Raise IndexError)
  | Some p =>
      let plen := length (prod p) in
      let targ := mkSym (name p) VNone 0 0 :: rev (firstn plen (symstack m)) in
      match func p targ with
      | Raise e => Done (Raise e)
      | Return v =>
          let states := skipn plen (statestack m) in
          match states with
          | [] => Done (Raise IndexError)
          | top :: _ =>
              match goto_of top (name p) with
              | None => Done (Raise KeyError)
              | Some st =>
                  Continue (mkMachine (lexer m) (lookahead m)
                                      (st :: states)
                                      (mkSym (name p) v 0 0
                                       :: skipn plen (symstack m)))
              end
          end
      end
  end.

(** What the loop does with the table entry for the current state and the
    lookahead: shift, reduce, accept, or report the error. *)
Definition apply_action (state : nat) (m : machine) : step_result :=
  match action_of state (lookahead_type (lookahead m)) with
  | Some (Shift t) =>
      Continue (mkMachine (lexer m) NoLookahead
                          (t :: statestack m)
                          (lookahead_sym (lookahead m) :: symstack m))
  | Some (Reduce n) => reduce m n
  | Some Accept =>
      match symstack m with
      | n :: _ => Done (Return (sym_value n))
      | [] => Done (Raise IndexError)
      end
  | Some NoAction | None =>
      Done (Raise (p_error (errtoken (lookahead m))))
  end.

(** One iteration of the loop: a defaulted state is reduced at once; any
    other state reads the lookahead, if there is none, and looks up its
    action. *)
Definition step (m : machine) : step_result :=
  match statestack m with
  | [] => Done (Raise IndexError)
  | state :: _ =>
      match defaulted_state state with
      | Some (Reduce n) => reduce m n
      | _ =>
          match fill_lookahead m with
          | Raise e => Done (Raise e)
          | Return m => apply_action state m
          end
      end
  end.

Fixpoint run (fuel : nat) (m : machine) : option (result pyval) :=
  match fuel with
  | O => None
  | S fuel' =>
      match step m with
      | Done r => Some r
      | Continue m' => run fuel' m'
      end
  end.

Definition initial (lx : IteratorToTokenStream I) : machine :=
  mkMachine lx NoLookahead [0] [mkSym "$end" VNone 0 0].

(** [self.parser.parse(lexer = ...)], cut off after [fuel] iterations. *)
Definition yacc_parse (fuel : nat) (lx : IteratorToTokenStream I)
  : option (result pyval) :=
  run fuel (initial lx).

(** [JsonPathParser.parse_token_stream]. *)
Definition parse_token_stream (fuel : nat) (token_iterator : I)
  : option (result pyval) :=
  yacc_parse fuel (mkStream token_iterator).

(** The parse of [token_iterator] ends with [r]. *)
Definition parses_to (token_iterator : I) (r : result pyval) : Prop :=
  exists fuel, parse_token_stream fuel token_iterator = Some r.

End ParseLoop.

(** ** The tokenizer *)

Open Scope char_scope.

Definition is_digit (c : ascii) : bool :=
  (48 <=? nat_of_ascii c)%nat && (nat_of_ascii c <=? 57)%nat.

Definition is_letter (c : ascii) : bool :=
  ((65 <=? nat_of_ascii c)%nat && (nat_of_ascii c <=? 90)%nat)
  || ((97 <=? nat_of_ascii c)%nat && (nat_of_ascii c <=? 122)%nat)
  || Ascii.eqb c "_".

Definition is_blank (c : ascii) : bool :=
  Ascii.eqb c " " || Ascii.eqb c "009".

(** The punctuation characters that are terminals of the grammar. *)
Definition literals : list ascii :=
  ["*"; "."; "["; "]"; "("; ")"; "$"; ","; ":"; "|"; "&"].

(** The longest prefix of [s] made of characters satisfying [f], and what
    follows it. *)
Fixpoint span (f : ascii -> bool) (s : string) : string * string :=
  match s with
  | EmptyString => (EmptyString, EmptyString)
  | String c s' =>
      if f c then let (a, b) := span f s' in (String c a, b)
      else (EmptyString, s)
  end.

Fixpoint Z_of_digits (acc : Z) (s : string) : Z :=
  match s with
  | EmptyString => acc
  | String c s' =>
      Z_of_digits (10 * acc + Z.of_nat (nat_of_ascii c - 48)) s'
  end.

Close Scope char_scope.

Definition reserved_words : list (string * string) := [("where", "WHERE")].

(** The state of the token generator: the text not yet scanned and the
    offset of its first character. *)
Record lexer_state : Type := mkLexer {
  remaining : string;
  offset : Z
}.

Definition Zlength (s : string) : Z := Z.of_nat (String.length s).

(** Modelled from the spec: the tokenizer ([jsonpath_ng/lexer.py]) is not
    among the sources.  The spec (sections 1 and 6) gives the token kinds:
    identifiers, numbers, the punctuation characters used as terminals, the
    two-character descendants operator, the keyword [where], and named
    operators carrying a name (written between backquotes, as the parser's
    own error message shows them), each with its line and offset.  Blanks
    separate tokens; a character that starts no token is an error.  The
    spec does not say which offset a named operator carries: here it is that
    of its opening backquote, and the statements about the position of a
    named operator are made on tokens, not on text. *)
Fixpoint next_token (s : string) (pos : Z)
  : next_result lexer_state LexToken :=
  match s with
  | EmptyString => StopIteration
  | String c s' =>
      if is_blank c then next_token s' (pos + 1)
      else if is_letter c then
        let (word, after) := span (fun c => is_letter c || is_digit c) s in
        let ty := match lookup word reserved_words with
                  | Some ty => ty
                  | None => "ID"
                  end in
        Yield (mkTok ty (TStr word) 1 pos) (mkLexer after (pos + Zlength word))
      else if is_digit c then
        let (digits, after) := span is_digit s in
        Yield (mkTok "NUMBER" (TInt (Z_of_digits 0 digits)) 1 pos)
              (mkLexer after (pos + Zlength digits))
      else if Ascii.eqb c "-" then
        let (digits, after) := span is_digit s' in
        match digits with
        | EmptyString => Throw LexerError
        | _ => Yield (mkTok "NUMBER" (TInt (- Z_of_digits 0 digits)) 1 pos)
                     (mkLexer after (pos + 1 + Zlength digits))
        end
      else if Ascii.eqb c "`" then
        let (opname, after) := span (fun c => negb (Ascii.eqb c "`")) s' in
        match after with
        | String _ after' =>
            Yield (mkTok "NAMED_OPERATOR" (TStr opname) 1 pos)
                  (mkLexer after' (pos + 2 + Zlength opname))
        | EmptyString => Throw LexerError
        end
      else if Ascii.eqb c "." then
        match s' with
        | String "."%char s'' =>
            Yield (mkTok "DOUBLEDOT" (TStr "..") 1 pos) (mkLexer s'' (pos + 2))
        | _ => Yield (mkTok "." (TStr ".") 1 pos) (mkLexer s' (pos + 1))
        end
      else if existsb (Ascii.eqb c) literals then
        Yield (mkTok (String c EmptyString) (TStr (String c EmptyString)) 1 pos)
              (mkLexer s' (pos + 1))
      else Throw LexerError
  end.

#[export] Instance lexer_iterator : Iterator lexer_state LexToken :=
  fun st => next_token (remaining st) (offset st).

(** [lexer.tokenize(string)]: the generator, before its first token. *)
Definition tokenize (s : string) : lexer_state := mkLexer s 0.

(** [JsonPathParser.parse] and the module's [parse]. *)
Definition parse (fuel : nat) (s : string) : option (result pyval) :=
  parse_token_stream fuel (tokenize s).

(** Compiling the text [s] ends with [r]. *)
Definition compiles_to (s : string) (r : result pyval) : Prop :=
  exists fuel, parse fuel s = Some r.

(** All the tokens of a text, when the tokenizer reaches its end. *)
Fixpoint tokens_from (fuel : nat) (st : lexer_state) : option (list LexToken) :=
  match fuel with
  | O => None
  | S fuel' =>
      match next st with
      | StopIteration => Some []
      | Throw _ => None
      | Yield t st' => option_map (cons t) (tokens_from fuel' st')
      end
  end.

Definition tokens_of (s : string) : option (list LexToken) :=
  tokens_from (S (String.length s)) (tokenize s).

(** ** Vocabulary of the statements *)

(** The reductions a state's items call for on lookahead [a]. *)
Definition reductions_on (a : string) (items : ItemLA) : list nat :=
  flat_map (fun e =>
              match after_dot (fst e) with
              | None => if mem_str a (snd e) then [fst (fst e)] else []
              | Some _ => []
              end)
           items.

(** The terminals of the grammar, with the end marker. *)
Definition terminals : list string :=
  ["$end"; "ID"; "NUMBER"; "NAMED_OPERATOR"; "WHERE"; "DOUBLEDOT";
   "*"; "."; "["; "]"; "("; ")"; "$"; ","; ":"; "|"; "&"].

(** The five binary path operators: how each is written, the terminal it is
    lexed to, and the node its production builds. *)
Inductive binop : Type :=
| OpChild | OpDescendants | OpWhere | OpUnion | OpIntersect.

Definition op_text (o : binop) : string :=
  match o with
  | OpChild => "."
  | OpDescendants => ".."
  | OpWhere => " where "
  | OpUnion => "|"
  | OpIntersect => "&"
  end.

Definition op_terminal (o : binop) : string :=
  match o with
  | OpChild => "."
  | OpDescendants => "DOUBLEDOT"
  | OpWhere => "WHERE"
  | OpUnion => "|"
  | OpIntersect => "&"
  end.

Definition op_node (o : binop) : pyval -> pyval -> pyval :=
  match o with
  | OpChild => Child
  | OpDescendants => Descendants
  | OpWhere => Where
  | OpUnion => Union
  | OpIntersect => Intersect
  end.

Definition op_level (o : binop) : nat := snd (Precedence_get (op_terminal o)).

Definition field (a : string) : pyval := Fields [VStr a].

(** A token as the tokenizer builds it, at a given offset of line 1. *)
Definition literal (c : string) (pos : Z) : LexToken := mkTok c (TStr c) 1 pos.
Definition number (n : Z) (pos : Z) : LexToken := mkTok "NUMBER" (TInt n) 1 pos.

(** The tokens of a slice component: one NUMBER, or nothing. *)
Definition maybe_number (n : option Z) : list LexToken :=
  match n with
  | Some n => [number n 0]
  | None => []
  end.

Definition maybe_int_value (n : option Z) : pyval :=
  match n with
  | Some n => VInt n
  | None => VNone
  end.

(** The token sequences of [[start:end]] and [[start:end:step]]. *)
Definition slice2_tokens (a b : option Z) : list LexToken :=
  ([literal "[" 0] ++ maybe_number a ++ [literal ":" 0] ++ maybe_number b
   ++ [literal "]" 0])%list.

Definition slice3_tokens (a b c : option Z) : list LexToken :=
  ([literal "[" 0] ++ maybe_number a ++ [literal ":" 0] ++ maybe_number b
   ++ [literal ":" 0] ++ maybe_number c ++ [literal "]" 0])%list.

(** [n] calls of [token()] in a row: what each returned. *)
Fixpoint pull {I A : Type} `{Iterator I A} (n : nat)
         (s : IteratorToTokenStream I) : result (list (option A)) :=
  match n with
  | O => Return []
  | S n' =>
      r <- token s ;;
      rest <- pull n' (snd r) ;;
      Return (fst r :: rest)
  end.

(** The iterator [it] yields the elements of [l] in order and is then
    exhausted. *)
Inductive yields {I A : Type} `{Iterator I A} : I -> list A -> Prop :=
| yields_stop (it : I) :
    next it = StopIteration -> yields it []
| yields_more (it it' : I) (a : A) (l : list A) :
    next it = Yield a it' -> yields it' l -> yields it (a :: l).

(** ** Well-formed stacks

    What the parse loop can rely on when it reduces: the states on the stack
    are a path of the automaton, so the symbols above a state spell the part
    before the dot of every item of the top state. *)

(** The items of a state. *)
Definition items_of (st : nat) : list Item :=
  match nth_error state_items st with
  | Some t => map fst t
  | None => []
  end.

(** Only NUMBER tokens carry an int; every other token carries a str. *)
Definition lexical (t : LexToken) : bool :=
  match value t with
  | TStr _ => true
  | TInt _ => String.eqb (type t) "NUMBER"
  end.

(** What the value of a nonterminal is known to be: a list for [fields],
    something that can be unpacked for [fields_or_any]. *)
Definition val_ok (nt : string) (v : pyval) : bool :=
  if String.eqb nt "fields" then
    match v with VList _ => true | _ => false end
  else if String.eqb nt "fields_or_any" then
    match v with VList _ | VStr _ => true | _ => false end
  else true.

Section Invariant.
Variable ts : list LexToken.

(** A stack entry is a token of the input, or a nonterminal with a value
    of its kind. *)
Definition sym_ok (X : YaccSymbol) : Prop :=
  (exists t, In t ts /\ X = sym_of_token t
             /\ is_nonterminal (type t) = false)
  \/ (is_nonterminal (sym_type X) = true
      /\ val_ok (sym_type X) (sym_value X) = true).

Inductive stack_ok : list nat -> list YaccSymbol -> Prop :=
| stack_bottom :
    stack_ok [0] [mkSym "$end" VNone 0 0]
| stack_push (s s' : nat) (sts : list nat) (X : YaccSymbol)
             (syms : list YaccSymbol) :
    stack_ok (s :: sts) syms ->
    transition s (sym_type X) = Some s' ->
    sym_ok X ->
    stack_ok (s' :: s :: sts) (X :: syms).

Definition lookahead_ok (l : lookahead_t) : Prop :=
  match l with
  | Tok t => In t ts
  | _ => True
  end.

Definition machine_ok (m : @machine (list LexToken)) : Prop :=
  incl (iterator (lexer m)) ts
  /\ lookahead_ok (lookahead m)
  /\ stack_ok (statestack m) (symstack m).

(** The ways a parse of [ts] can end. *)
Inductive outcome : result pyval -> Prop :=
| outcome_tree (v : pyval) :
    outcome (Return v)
| outcome_end :
    outcome (Raise (JsonPathParserError unexpected_end_message))
| outcome_token (t : LexToken) :
    In t ts ->
    outcome (Raise (JsonPathParserError (unexpected_token_message t)))
| outcome_operator (t : LexToken) :
    In t ts -> type t = "NAMED_OPERATOR" ->
    outcome (Raise (JsonPathParserError
                      (unknown_operator_message (str_of_tokval (value t))
                                                (lineno t) (lexpos t)))).
(** What an action can do on the symbols of its production: return a value
    of the kind of its nonterminal, or, for a named operator, raise the
    unknown-operator error about the token. *)
Definition action_result (nt : string) (r : result pyval) : Prop :=
  (exists v, r = Return v /\ val_ok nt v = true)
  \/ (exists t, In t ts /\ type t = "NAMED_OPERATOR"
                /\ r = Raise (JsonPathParserError
                                (unknown_operator_message
                                   (str_of_tokval (value t))
                                   (lineno t) (lexpos t)))).

(** What a step of a well-formed machine leads to. *)
Definition step_ok (r : @step_result (list LexToken)) : Prop :=
  match r with
  | Continue m' => machine_ok m'
  | Done r => outcome r
  end.
End Invariant.

(** The facts about the tables that the invariant rests on, as checks that
    run over every state. *)
Definition states : list nat := seq 0 (length state_items).

Definition row_of {A : Type} (tbl : list (list A)) (st : nat) : list A :=
  match nth_error tbl st with
  | Some row => row
  | None => []
  end.

(** A shift follows a transition on a terminal other than the end marker; a
    reduction is by a production other than [S' -> start] whose item with
    the dot at the end is in the state. *)
Definition check_action (st : nat) (e : string * action) : bool :=
  match snd e with
  | Shift j =>
      match transition st (fst e) with
      | Some j' => Nat.eqb j j'
      | None => false
      end
      && negb (is_nonterminal (fst e)) && negb (String.eqb (fst e) "$end")
  | Reduce n =>
      mem_item (n, length (rhs n)) (items_of st)
      && negb (Nat.eqb n 0) && Nat.ltb n (length Productions)
  | Accept => String.eqb (fst e) "$end"
  | NoAction => true
  end.

Definition check_actions : bool :=
  forallb (fun st => forallb (check_action st) (row_of lr_action st)) states.

Definition check_defaulted : bool :=
  forallb (fun st =>
             match defaulted_state st with
             | Some a => check_action st ("", a)
             | None => true
             end)
          states.

(** An item with the dot after [d + 1] symbols entered its state over the
    symbol at position [d], from a state holding the item with the dot
    before that symbol. *)
Definition check_transition (st : nat) (e : string * nat) : bool :=
  forallb (fun it =>
             match snd it with
             | O => true
             | S d =>
                 mem_item (fst it, d) (items_of st)
                 && match nth_error (rhs (fst it)) d with
                    | Some x => String.eqb x (fst e)
                    | None => false
                    end
             end)
          (items_of (snd e)).

Definition check_transitions : bool :=
  forallb (fun st => forallb (check_transition st) (row_of lr0_transitions st))
          states.

(** A state holding an initial item of a production moves on the
    production's name, and that move is its goto. *)
Definition check_goto (st : nat) (it : Item) : bool :=
  match snd it with
  | S _ => true
  | O =>
      Nat.eqb (fst it) 0
      || match goto_of st (lhs (fst it)), transition st (lhs (fst it)) with
         | Some j, Some j' => Nat.eqb j j'
         | _, _ => false
         end
  end.

Definition check_gotos : bool :=
  forallb (fun st => forallb (check_goto st) (items_of st)) states.

(** Every item of state 0 has its dot at the start. *)
Definition check_initial : bool :=
  forallb (fun it => Nat.eqb (snd it) 0) (items_of 0).

(** ** A trailing operator

    What relates the parse of a token list to the parse of the same list
    followed by one binary operator. *)

(** The state has nothing to do at the end of input. *)
Definition end_stuck (j : nat) : bool :=
  match defaulted_state j, action_of j "$end" with
  | None, None => true
  | _, _ => false
  end.

(** In a state that reduces or accepts at the end of input, a binary
    operator is either reduced by the same production or shifted into a
    state that has nothing to do at the end of input. *)
Definition check_operator_at_end (st : nat) (o : binop) : bool :=
  match defaulted_state st with
  | Some _ => true
  | None =>
      match action_of st "$end", action_of st (op_terminal o) with
      | Some (Reduce n), Some (Reduce n') => Nat.eqb n n'
      | Some (Reduce _), Some (Shift j) => end_stuck j
      | Some (Reduce _), _ => false
      | Some Accept, Some (Shift j) => end_stuck j
      | Some Accept, _ => false
      | _, _ => true
      end
  end.

Definition binops : list binop :=
  [OpChild; OpDescendants; OpWhere; OpUnion; OpIntersect].

Definition check_operators_at_end : bool :=
  forallb (fun st => forallb (check_operator_at_end st) binops) states.

Section TrailingOperator.
Variable t_o : LexToken.

Definition not_end (t : LexToken) : Prop := type t <> "$end".

(** The tokens a machine has still to shift. *)
Definition pending (m : @machine (list LexToken)) : list LexToken :=
  (match lookahead m with Tok t => [t] | _ => [] end ++ iterator (lexer m))%list.

(** [m1] parses a token list and [m2] the same list followed by the
    operator token: same stacks, and the same lookahead until [m1] sees the
    end of input where [m2] sees the operator. *)
Inductive related (m1 m2 : @machine (list LexToken)) : Prop :=
| related_before :
    statestack m1 = statestack m2 -> symstack m1 = symstack m2 ->
    lookahead m1 = lookahead m2 -> lookahead m1 <> EndMarker ->
    iterator (lexer m2) = (iterator (lexer m1) ++ [t_o])%list ->
    Forall not_end (pending m1) ->
    related m1 m2
| related_after :
    statestack m1 = statestack m2 -> symstack m1 = symstack m2 ->
    lookahead m1 = EndMarker -> iterator (lexer m1) = [] ->
    lookahead m2 = Tok t_o -> iterator (lexer m2) = [] ->
    related m1 m2.

(** [m] has shifted the operator and finds the input exhausted. *)
Definition stuck (m : @machine (list LexToken)) : Prop :=
  step m = Done (Raise (JsonPathParserError unexpected_end_message)).

Definition simulated (r1 r2 : @step_result (list LexToken)) : Prop :=
  match r1 with
  | Continue m1' =>
      exists m2', r2 = Continue m2' /\ (related m1' m2' \/ stuck m2')
  | Done (Return _) => exists m2', r2 = Continue m2' /\ stuck m2'
  | Done (Raise _) => True
  end.
End TrailingOperator.

(** ** Where a parse fails

    The machine whose step ends a run, the tokens a machine has shifted, and
    two machines whose inputs begin alike. *)

(** The machine whose step ends the run from [m]. *)
Fixpoint last_machine (fuel : nat) (m : @machine (list LexToken))
  : option (@machine (list LexToken)) :=
  match fuel with
  | O => None
  | S fuel' =>
      match step m with
      | Done _ => Some m
      | Continue m' => last_machine fuel' m'
      end
  end.

(** What is on top of the symbol stack once the tokens [pre] are shifted:
    the end symbol, the last token of [pre], or the name of a production. *)
Definition top_ok (pre : list LexToken) (X : YaccSymbol) : Prop :=
  X = mkSym "$end" VNone 0 0
  \/ (exists pre' t, pre = (pre' ++ [t])%list /\ X = sym_of_token t)
  \/ (exists n p, nth_error Productions n = Some p /\ sym_type X = name p).

(** [m] has shifted the tokens [pre] of [ts] and has the others to read. *)
Definition shifted (ts pre : list LexToken) (m : @machine (list LexToken))
  : Prop :=
  ts = (pre ++ pending m)%list
  /\ match symstack m with
     | X :: _ => top_ok pre X
     | [] => True
     end.

(** [m1] and [m2] read two inputs that begin alike and end with [rest1] and
    [rest2]: the stacks and the lookahead are the same, and the tokens
    [common] are ahead of both. *)
Definition agree (rest1 rest2 : list LexToken)
           (m1 m2 : @machine (list LexToken)) : Prop :=
  statestack m1 = statestack m2 /\ symstack m1 = symstack m2
  /\ lookahead m1 = lookahead m2 /\ lookahead m1 <> EndMarker
  /\ exists common,
       common <> []
       /\ pending m1 = (common ++ rest1)%list
       /\ pending m2 = (common ++ rest2)%list.

(** The state has no action for a lookahead of kind [ltype]. *)
Definition no_action (state : nat) (ltype : string) : Prop :=
  action_of state ltype = None \/ action_of state ltype = Some NoAction.

(** The loop looks up an action in [state]: the state is not reduced by
    default. *)
Definition looks_up (state : nat) : Prop :=
  forall n, defaulted_state state <> Some (Reduce n).

(** The next token the loop sees is [t]: it is the lookahead, or there is
    no lookahead and the source yields it. *)
Definition sees {I : Type} `{Iterator I LexToken} (m : machine)
           (t : LexToken) : Prop :=
  lookahead m = Tok t
  \/ (lookahead m = NoLookahead
      /\ exists it, next (iterator (lexer m)) = Yield t it).

(** The loop sees the end of the input: the end marker is the lookahead, or
    there is no lookahead and the source is exhausted. *)
Definition sees_end {I : Type} `{Iterator I LexToken} (m : machine) : Prop :=
  lookahead m = EndMarker
  \/ (lookahead m = NoLookahead
      /\ next (iterator (lexer m)) = StopIteration).

(** ** Parsing from any token source

    What relates a parse that pulls its tokens from an iterator to the
    parse of the list of tokens that iterator yields. *)

Section SameTokens.
Context {I : Type} `{Iterator I LexToken}.

(** The two machines differ only in their token source, and the source of
    the first yields the tokens left in the list of the second. *)
Definition same_tokens (m1 : @machine I) (m2 : @machine (list LexToken))
  : Prop :=
  yields (iterator (lexer m1)) (iterator (lexer m2))
  /\ lookahead m1 = lookahead m2
  /\ statestack m1 = statestack m2
  /\ symstack m1 = symstack m2.

Definition same_step (r1 : @step_result I)
           (r2 : @step_result (list LexToken)) : Prop :=
  match r1, r2 with
  | Done a, Done b => a = b
  | Continue m1, Continue m2 => same_tokens m1 m2
  | _, _ => False
  end.
End SameTokens.

(** ** Tokens after a failure

    What relates the parse of a token list to the parse of the same list
    with more tokens after it. *)

(** The result is not a parser error with the unexpected-token message. *)
Definition not_token_error (r : result pyval) : Prop :=
  forall t : LexToken,
    r <> Raise (JsonPathParserError (unexpected_token_message t)).

(** The result is not a parser error at all. *)
Definition benign {A : Type} (r : result A) : Prop :=
  forall msg : string, r <> Raise (JsonPathParserError msg).

(** [m2] has the tokens of [m1] and then [rest]; [m1] has not reached the
    end of its own. *)
Definition extended (rest : list LexToken)
           (m1 m2 : @machine (list LexToken)) : Prop :=
  statestack m1 = statestack m2
  /\ symstack m1 = symstack m2
  /\ lookahead m1 = lookahead m2
  /\ lookahead m1 <> EndMarker
  /\ iterator (lexer m2) = (iterator (lexer m1) ++ rest)%list.

(** What one step of [m1] is to the corresponding step of [m2]: the same,
    or [m1] has reached the end of its tokens. *)
Definition extended_step (rest : list LexToken)
           (r1 r2 : @step_result (list LexToken)) : Prop :=
  match r1 with
  | Continue m1' =>
      (exists m2', r2 = Continue m2' /\ extended rest m1' m2')
      \/ lookahead m1' = EndMarker
  | Done r => r2 = Done r \/ not_token_error r
  end.

(** The terminals an expression can begin with. *)
Definition starters : list string :=
  ["NAMED_OPERATOR"; "$"; "["; "("; "*"; "ID"].

(** ** Runs of the machine *)

(** [m] gets to [m'] in a fixed number of steps. *)
Definition steps_to {I : Type} `{Iterator I LexToken} (m m' : @machine I)
  : Prop :=
  exists k, forall fuel, run (k + fuel) m = run fuel m'.

(** The machine after [k] iterations of the loop, when none of them ends
    the parse. *)
Fixpoint advance {I : Type} `{Iterator I LexToken} (k : nat) (m : @machine I)
  : option (@machine I) :=
  match k with
  | O => Some m
  | S k' =>
      match step m with
      | Continue m' => advance k' m'
      | Done _ => None
      end
  end.

(** The run from [m] ends with [r]. *)
Definition ends_with {I : Type} `{Iterator I LexToken} (m : @machine I)
           (r : result pyval) : Prop :=
  exists fuel, run fuel m = Some r.

(** ** Field lists *)

(** [toks] is [, ID , ID ...], and [vals] the values of its identifiers. *)
Inductive more_fields : list LexToken -> list pyval -> Prop :=
| more_fields_nil : more_fields [] []
| more_fields_cons (c t : LexToken) (toks : list LexToken)
                   (vals : list pyval) :
    type c = "," -> type t = "ID" -> more_fields toks vals ->
    more_fields (c :: t :: toks) (pyval_of (value t) :: vals).

(** [toks] is a field list [ID , ID ...] with the values [vals]. *)
Inductive field_list : list LexToken -> list pyval -> Prop :=
| field_list_intro (t : LexToken) (toks : list LexToken)
                   (vals : list pyval) :
    type t = "ID" -> more_fields toks vals ->
    field_list (t :: toks) (pyval_of (value t) :: vals).

(** What the parse loop reads next from a list of tokens. *)
Definition read (toks : list LexToken) : lookahead_t * list LexToken :=
  match toks with
  | [] => (EndMarker, [])
  | t :: toks' => (Tok t, toks')
  end.

(** The machine that has reduced the fields [acc] over base state [b], is
    in state [F = goto(b, fields)] and looks at [la]. *)
Definition at_fields (b F : nat) (acc : list pyval) (la : lookahead_t)
           (toks : list LexToken) (sts : list nat) (syms : list YaccSymbol)
  : @machine (list LexToken) :=
  mkMachine (mkStream toks) la (F :: b :: sts)
            (mkSym "fields" (VList acc) 0 0 :: syms).

(** The lookahead is the end of input or a token of one of [kinds]. *)
Definition following (kinds : list string) (la : lookahead_t) : Prop :=
  match la with
  | NoLookahead => False
  | EndMarker => True
  | Tok x => In (type x) kinds
  end.

(** The base states a field list can start in, each with its goto on
    [fields]: the start, after '[', after an expression and '[', and after
    each of the five binary operators. *)
Definition fields_states : list (nat * nat) :=
  [(0, 7); (5, 18); (15, 30); (10, 7); (11, 7); (12, 7); (13, 7); (14, 7)].

(** The terminals on which a field is reduced. *)
Definition field_followers : list string :=
  [","; "]"; ")"; "["; "."; "DOUBLEDOT"; "WHERE"; "|"; "&"].

Definition after_field (la : lookahead_t) : Prop :=
  following field_followers la.

(** ** More tokens after a complete expression

    What relates the parse of a token list to the parse of the same list
    followed by the token [t0] and then [rest]. *)

Section Followed.
Variable t0 : LexToken.
Variable rest : list LexToken.

Inductive followed (m1 m2 : @machine (list LexToken)) : Prop :=
| followed_before :
    statestack m1 = statestack m2 -> symstack m1 = symstack m2 ->
    lookahead m1 = lookahead m2 -> lookahead m1 <> EndMarker ->
    iterator (lexer m2) = (iterator (lexer m1) ++ t0 :: rest)%list ->
    Forall not_end (pending m1) ->
    followed m1 m2
| followed_after :
    statestack m1 = statestack m2 -> symstack m1 = symstack m2 ->
    lookahead m1 = EndMarker -> iterator (lexer m1) = [] ->
    lookahead m2 = Tok t0 -> iterator (lexer m2) = rest ->
    followed m1 m2.

(** The machine that has the stacks of [m], looks at [t0] and has [rest]
    to read. *)
Definition resumed (m : @machine (list LexToken))
  : @machine (list LexToken) :=
  mkMachine (mkStream rest) (Tok t0) (statestack m) (symstack m).

(** While [m1] goes on, [m2] goes on alike; when [m1] accepts a value with
    its top symbol, [m2] does what the resumed machine does. *)
Definition followed_step (m1 : @machine (list LexToken))
           (r1 r2 : @step_result (list LexToken)) : Prop :=
  match r1 with
  | Continue m1' => exists m2', r2 = Continue m2' /\ followed m1' m2'
  | Done (Return v) =>
      r2 = step (resumed m1)
      /\ action_of (hd 0 (statestack m1)) "$end" = Some Accept
      /\ exists X syms, symstack m1 = X :: syms /\ sym_value X = v
  | Done (Raise _) => True
  end.
End Followed.

(** In a state that reduces at the end of input, the terminal [a] is
    reduced by the same production. *)
Definition reduced_alike (a : string) : bool :=
  forallb (fun st =>
             match defaulted_state st, action_of st "$end" with
             | None, Some (Reduce n) =>
                 match action_of st a with
                 | Some (Reduce n') => Nat.eqb n n'
                 | _ => false
                 end
             | _, _ => true
             end)
          states.

(** Only state 1 accepts, it is entered from state 0 only, over
    [jsonpath], and nothing leads back to state 0. *)
Definition check_accept : bool :=
  forallb (fun st =>
             match action_of st "$end" with
             | Some Accept => Nat.eqb st 1
             | _ => true
             end
             && forallb (fun e =>
                           negb (Nat.eqb (snd e) 0)
                           && (negb (Nat.eqb (snd e) 1)
                               || (Nat.eqb st 0
                                   && String.eqb (fst e) "jsonpath")))
                        (row_of lr0_transitions st))
          states.

(** ** What stands between brackets *)

(** The token of an optional number, and the value it stands for. *)
Definition maybe_token (o : option LexToken) : list LexToken :=
  match o with
  | Some t => [t]
  | None => []
  end.

Definition maybe_value (o : option LexToken) : pyval :=
  match o with
  | Some t => pyval_of (value t)
  | None => VNone
  end.

Definition is_number (o : option LexToken) : Prop :=
  match o with
  | Some t => type t = "NUMBER"
  | None => True
  end.

(** [body] is what the grammar allows between '[' and ']', and [node] the
    node it stands for: an index, a slice written as '*' or with one or two
    colons, or a field list. *)
Inductive bracket_body : list LexToken -> pyval -> Prop :=
| body_idx (n : LexToken) :
    type n = "NUMBER" ->
    bracket_body [n] (Index (pyval_of (value n)))
| body_slice_any (s : LexToken) :
    type s = "*" ->
    bracket_body [s] (Slice VNone VNone VNone)
| body_slice2 (a b : option LexToken) (c : LexToken) :
    is_number a -> type c = ":" -> is_number b ->
    bracket_body (maybe_token a ++ c :: maybe_token b)%list
                 (Slice (maybe_value a) (maybe_value b) VNone)
| body_slice3 (a b d : option LexToken) (c1 c2 : LexToken) :
    is_number a -> type c1 = ":" -> is_number b -> type c2 = ":" ->
    is_number d ->
    bracket_body (maybe_token a ++ c1 :: maybe_token b
                    ++ c2 :: maybe_token d)%list
                 (Slice (maybe_value a) (maybe_value b) (maybe_value d))
| body_fields (toks : list LexToken) (vals : list pyval) :
    field_list toks vals ->
    bracket_body toks (Fields vals).

(** ** A measure of what the parse loop has left to do

    Every grammar symbol has a weight, chosen so that a production's name
    weighs less than its right-hand side; '[' and ':' on top of the stack
    carry a credit that pays for the reduction of the empty production, which
    can only follow them. *)

Definition weights : list (string * nat) :=
  [("jsonpath", 1); ("idx", 1); ("slice", 1);
   ("fields_or_any", 2); ("maybe_int", 2); ("NAMED_OPERATOR", 2); ("$", 2);
   ("fields", 3); ("empty", 3); ("NUMBER", 3); ("*", 3);
   ("ID", 4)].

Definition weight (x : string) : nat :=
  match lookup x weights with
  | Some w => w
  | None => 1
  end.

Definition credit (x : string) : nat :=
  if String.eqb x "[" || String.eqb x ":" then 4 else 0.

Definition potential (syms : list YaccSymbol) : nat :=
  match syms with
  | [] => 0
  | X :: _ => credit (sym_type X)
  end
  + list_sum (map (fun X => weight (sym_type X)) syms).

(** Nine for each token still to shift, plus what is on the stack. *)
Definition measure (m : @machine (list LexToken)) : nat :=
  9 * length (pending m) + potential (symstack m).

(** A production's name weighs less than its right-hand side, the empty
    right-hand side counting for the credit. *)
Definition check_weights : bool :=
  forallb (fun p =>
             Nat.eqb (credit (name p)) 0
             && Nat.ltb (weight (name p))
                        (list_sum (map weight (prod p))
                         + match prod p with [] => 4 | _ => 0 end))
          (tl Productions).

(** The state holds the initial item of an empty production. *)
Definition epsilon_state (j : nat) : bool :=
  existsb (fun it => negb (Nat.eqb (fst it) 0) && Nat.eqb (snd it) 0
                     && Nat.eqb (length (rhs (fst it))) 0)
          (items_of j).

(** Such a state is not the initial one, and is entered over a symbol with
    credit. *)
Definition check_epsilon : bool :=
  negb (epsilon_state 0)
  && forallb (fun st =>
                forallb (fun e => negb (epsilon_state (snd e))
                                  || Nat.eqb (credit (fst e)) 4)
                        (row_of lr0_transitions st))
             states.

(** What a step leads to is nearer the end. *)
Definition nearer (m : @machine (list LexToken))
           (r : @step_result (list LexToken)) : Prop :=
  match r with
  | Continue m' => measure m' < measure m
  | Done _ => True
  end.

(** ** Trees

    What a parse is expected to return: a value built from the node
    constructors, with strs as field names, an int as index, and ints or
    [None] as the components of a slice. *)

Definition is_str (v : pyval) : bool :=
  match v with
  | VStr _ => true
  | _ => false
  end.

Definition is_int_or_none (v : pyval) : bool :=
  match v with
  | VInt _ | VNone => true
  | _ => false
  end.

Fixpoint is_tree (v : pyval) : bool :=
  match v with
  | Root | This | Parent => true
  | Fields names => forallb is_str names
  | Index (VInt _) => true
  | Slice a b c => is_int_or_none a && is_int_or_none b && is_int_or_none c
  | Child l r | Descendants l r | Where l r | Union l r | Intersect l r =>
      is_tree l && is_tree r
  | _ => false
  end.

(** The str that [p_jsonpath_binop] compares [p[2]] with for each
    operator. *)
Definition op_value (o : binop) : string :=
  match o with
  | OpChild => "."
  | OpDescendants => ".."
  | OpWhere => "where"
  | OpUnion => "|"
  | OpIntersect => "&"
  end.

(** The str a binary operator's token carries when its kind is [x]. *)
Definition operator_text (x : string) : option string :=
  option_map op_value (find (fun o => String.eqb (op_terminal o) x) binops).

(** What the value of a grammar symbol of kind [x] is: a tree for
    [jsonpath], a list of strs for [fields], that or a str for
    [fields_or_any], an index, a slice, an int or [None], [None]; for a
    terminal, an int for NUMBER, the operator's text for a binary operator,
    and a str for any other token. *)
Definition typed (x : string) (v : pyval) : bool :=
  if String.eqb x "jsonpath" then is_tree v
  else if String.eqb x "fields" then
    match v with VList l => forallb is_str l | _ => false end
  else if String.eqb x "fields_or_any" then
    match v with VList l => forallb is_str l | VStr _ => true | _ => false end
  else if String.eqb x "idx" then
    match v with Index (VInt _) => true | _ => false end
  else if String.eqb x "slice" then
    match v with
    | Slice a b c => is_int_or_none a && is_int_or_none b && is_int_or_none c
    | _ => false
    end
  else if String.eqb x "maybe_int" then is_int_or_none v
  else if String.eqb x "empty" then
    match v with VNone => true | _ => false end
  else if String.eqb x "NUMBER" then
    match v with VInt _ => true | _ => false end
  else if String.eqb x "$end" then true
  else
    match operator_text x, v with
    | Some s, VStr s' => String.eqb s' s
    | None, VStr _ => true
    | _, _ => false
    end.

(** A token as a tokenizer makes it: a NUMBER carries an int, the token of
    a binary operator the operator's text, any other token a str. *)
Definition canonical (t : LexToken) : bool :=
  negb (String.eqb (type t) "$end")
  && negb (is_nonterminal (type t))
  && typed (type t) (pyval_of (value t)).

Definition typed_sym (X : YaccSymbol) : Prop :=
  typed (sym_type X) (sym_value X) = true.

(** Every symbol on the stack has a value of its kind, and the tokens to
    come are canonical. *)
Definition typed_ok (m : @machine (list LexToken)) : Prop :=
  Forall typed_sym (symstack m)
  /\ Forall (fun t => canonical t = true) (pending m).

Definition typed_step (r : @step_result (list LexToken)) : Prop :=
  match r with
  | Continue m' => typed_ok m'
  | Done (Return v) => is_tree v = true
  | Done (Raise _) => True
  end.

(** ** An expression between parentheses

    What relates the parse of a token list to the parse of the same list
    after a '(' and before the token [rp] and then [rest]. *)

(** After '(' the automaton is in state 6, which behaves as the initial
    state does, and a whole expression leads from it to state 23 where it
    leads from the initial state to state 1. *)
Definition inner (s : nat) : nat := if Nat.eqb s 1 then 23 else s.

Section Enclosed.
Variable rp : LexToken.
Variable rest : list LexToken.
Variable sts0 : list nat.
Variable syms0 : list YaccSymbol.

(** The stacks of [m2] are those of [m1], on top of state 6 and of what was
    there before the '('. *)
Definition wraps (m1 m2 : @machine (list LexToken)) : Prop :=
  exists (sts : list nat) (syms : list YaccSymbol),
    statestack m1 = (sts ++ [0])%list
    /\ symstack m1 = (syms ++ [mkSym "$end" VNone 0 0])%list
    /\ statestack m2 = (map inner sts ++ 6 :: sts0)%list
    /\ symstack m2 = (syms ++ syms0)%list.

Inductive enclosed (m1 m2 : @machine (list LexToken)) : Prop :=
| enclosed_before :
    wraps m1 m2 ->
    lookahead m1 = lookahead m2 -> lookahead m1 <> EndMarker ->
    iterator (lexer m2) = (iterator (lexer m1) ++ rp :: rest)%list ->
    Forall not_end (pending m1) ->
    enclosed m1 m2
| enclosed_after :
    wraps m1 m2 ->
    lookahead m1 = EndMarker -> iterator (lexer m1) = [] ->
    lookahead m2 = Tok rp -> iterator (lexer m2) = rest ->
    enclosed m1 m2.

(** The machine that holds the expression's symbol [X] above the '(',
    looks at [rp] and has [rest] to read. *)
Definition closing (X : YaccSymbol) : @machine (list LexToken) :=
  mkMachine (mkStream rest) (Tok rp) (23 :: 6 :: sts0) (X :: syms0).

Definition enclosed_step (r1 r2 : @step_result (list LexToken)) : Prop :=
  match r1 with
  | Continue m1' => exists m2', r2 = Continue m2' /\ enclosed m1' m2'
  | Done (Return v) => exists X, sym_value X = v /\ r2 = step (closing X)
  | Done (Raise _) => True
  end.
End Enclosed.

(** What state 1 does on a terminal other than the end marker, state 23
    does too; state 1 moves on terminals only. *)
Definition check_inner : bool :=
  forallb (fun e => String.eqb (fst e) "$end"
                    || match action_of 23 (fst e), snd e with
                       | Some (Shift j), Shift j' => Nat.eqb j j'
                       | Some (Reduce n), Reduce n' => Nat.eqb n n'
                       | _, _ => false
                       end)
          (row_of lr_action 1)
  && forallb (fun e => negb (is_nonterminal (fst e)))
             (row_of lr0_transitions 1).

(** ** Expressions as chains

    An expression is an operand followed by links, each a binary operator
    with its right operand or a bracket. *)

(** An operand and its tree: a field list, '*', '$', a named operator
    [this] or [parent], a bracket, or an expression between parentheses. *)
Inductive operand : list LexToken -> pyval -> Prop :=
| operand_fields (toks : list LexToken) (vals : list pyval) :
    field_list toks vals -> operand toks (Fields vals)
| operand_any (t : LexToken) :
    type t = "*" -> value t = TStr "*" -> operand [t] (Fields [VStr "*"])
| operand_root (t : LexToken) :
    type t = "$" -> operand [t] Root
| operand_this (t : LexToken) :
    type t = "NAMED_OPERATOR" -> value t = TStr "this" -> operand [t] This
| operand_parent (t : LexToken) :
    type t = "NAMED_OPERATOR" -> value t = TStr "parent" ->
    operand [t] Parent
| operand_bracket (lb rb : LexToken) (body : list LexToken) (node : pyval) :
    type lb = "[" -> type rb = "]" -> bracket_body body node ->
    operand (lb :: body ++ [rb])%list node
| operand_parens (lp rp : LexToken) (ts : list LexToken) (v : pyval) :
    type lp = "(" -> type rp = ")" ->
    Forall (fun t => lexical t = true) ts -> Forall not_end ts ->
    parses_to ts (Return v) ->
    operand (lp :: ts ++ [rp])%list v.

Inductive link : Type :=
| Binary (o : binop) (x : pyval)
| Postfix (node : pyval).

(** [toks] is a sequence of links: [op operand] or [[ body ]]. *)
Inductive links : list LexToken -> list link -> Prop :=
| links_nil : links [] []
| links_binary (o : binop) (t_o : LexToken) (xs : list LexToken)
               (x : pyval) (toks : list LexToken) (items : list link) :
    type t_o = op_terminal o -> value t_o = TStr (op_value o) ->
    operand xs x -> links toks items ->
    links (t_o :: xs ++ toks)%list (Binary o x :: items)
| links_postfix (lb rb : LexToken) (body : list LexToken) (node : pyval)
                (toks : list LexToken) (items : list link) :
    type lb = "[" -> type rb = "]" -> bracket_body body node ->
    links toks items ->
    links (lb :: body ++ rb :: toks)%list (Postfix node :: items).

(** Grouping by precedence.  [stack] holds the left operands that wait for
    their right operand, each with its operator, the innermost first; an
    operator of level [lvl] closes every waiting operator of the same or a
    higher level, and a bracket closes them all. *)
Fixpoint collapse (lvl : nat) (stack : list (pyval * binop)) (v : pyval)
  : list (pyval * binop) * pyval :=
  match stack with
  | (l, o) :: stack' =>
      if Nat.leb lvl (op_level o) then collapse lvl stack' (op_node o l v)
      else (stack, v)
  | [] => ([], v)
  end.

Fixpoint climb (stack : list (pyval * binop)) (v : pyval)
         (items : list link) : pyval :=
  match items with
  | [] => snd (collapse 0 stack v)
  | Binary o x :: items' =>
      let (stack', v') := collapse (op_level o) stack v in
      climb ((v', o) :: stack') x items'
  | Postfix node :: items' =>
      climb [] (Child (snd (collapse 0 stack v)) node) items'
  end.

(** The state entered from state 1 over an operator, and the one entered
    from there over its right operand. *)
Definition op_state (o : binop) : nat :=
  match transition 1 (op_terminal o) with
  | Some j => j
  | None => 0
  end.

Definition rhs_state (o : binop) : nat :=
  match transition (op_state o) "jsonpath" with
  | Some j => j
  | None => 0
  end.

(** Where an operand starts, at the start of the input or after an
    operator, and where the automaton is once it is reduced. *)
Definition base (c : option binop) : nat :=
  match c with
  | None => 0
  | Some o => op_state o
  end.

Definition above (c : option binop) : nat :=
  match c with
  | None => 1
  | Some o => rhs_state o
  end.

(** A waiting left operand with its operator and the operator's token. *)
Definition frame : Type := (pyval * binop * LexToken)%type.

Definition erase (f : frame) : pyval * binop := fst f.

Definition frame_ok (f : frame) : Prop :=
  type (snd f) = op_terminal (snd (fst f))
  /\ value (snd f) = TStr (op_value (snd (fst f))).

Definition top_state (frames : list frame) : nat :=
  match frames with
  | [] => 1
  | f :: _ => rhs_state (snd (fst f))
  end.

Fixpoint states_below (frames : list frame) : list nat :=
  match frames with
  | [] => [0]
  | f :: frames' =>
      op_state (snd (fst f)) :: top_state frames' :: states_below frames'
  end.

Fixpoint symbols_below (frames : list frame) : list YaccSymbol :=
  match frames with
  | [] => [mkSym "$end" VNone 0 0]
  | f :: frames' =>
      sym_of_token (snd f) :: mkSym "jsonpath" (fst (fst f)) 0 0
        :: symbols_below frames'
  end.

(** The machine that holds the waiting operands [frames], has just reduced
    the operand [v], and looks at [la]. *)
Definition at_operand (frames : list frame) (v : pyval) (la : lookahead_t)
           (toks : list LexToken) : @machine (list LexToken) :=
  mkMachine (mkStream toks) la
            (top_state frames :: states_below frames)
            (mkSym "jsonpath" v 0 0 :: symbols_below frames).

(** [collapse] on frames. *)
Fixpoint collapse_frames (lvl : nat) (frames : list frame) (v : pyval)
  : list frame * pyval :=
  match frames with
  | f :: frames' =>
      if Nat.leb lvl (op_level (snd (fst f)))
      then collapse_frames lvl frames' (op_node (snd (fst f)) (fst (fst f)) v)
      else (frames, v)
  | [] => ([], v)
  end.

(** What can follow an operand: the end of input, a binary operator or a
    bracket. *)
Definition operand_followers : list string :=
  ["["; "."; "DOUBLEDOT"; "WHERE"; "|"; "&"].

Definition after_operand (la : lookahead_t) : Prop :=
  following operand_followers la.

(** The level of the binary operator whose terminal is [x]; 0 when [x] is
    none. *)
Definition level_of (x : string) : nat :=
  match find (fun o => String.eqb (op_terminal o) x) binops with
  | Some o => op_level o
  | None => 0
  end.

Definition lookahead_level (la : lookahead_t) : nat :=
  match la with
  | Tok x => level_of (type x)
  | _ => 0
  end.

(** The operator on top of the waiting ones, if any, is below [lvl]. *)
Definition below (lvl : nat) (frames : list frame) : Prop :=
  match frames with
  | [] => True
  | f :: _ => Nat.leb lvl (op_level (snd (fst f))) = false
  end.

(** Inside a bracket: the kind of what stands there, its value, and the
    node the bracket makes of it. *)
Definition bracket_value (kind : string) (val node : pyval) : Prop :=
  (kind = "idx" /\ val = node)
  \/ (kind = "slice" /\ val = node)
  \/ (kind = "fields" /\ exists vals, val = VList vals /\ node = Fields vals).

(** The state entered from the state after '[' over what stands in the
    bracket, and the one entered from there over ']'. *)
Definition entered (B : nat) (kind : string) : nat :=
  match transition B kind with
  | Some j => j
  | None => 0
  end.

Definition closed (B : nat) (kind : string) : nat :=
  match transition (entered B kind) "]" with
  | Some j => j
  | None => 0
  end.

(** ** Tokens at other positions

    What relates the parse of a token list to the parse of tokens of the
    same kinds and values whose line numbers and positions differ. *)

Definition same_token (a b : LexToken) : Prop :=
  type a = type b /\ value a = value b.

Definition same_symbol (X Y : YaccSymbol) : Prop :=
  sym_type X = sym_type Y /\ sym_value X = sym_value Y.

Definition same_lookahead (la1 la2 : lookahead_t) : Prop :=
  match la1, la2 with
  | NoLookahead, NoLookahead => True
  | EndMarker, EndMarker => True
  | Tok a, Tok b => same_token a b
  | _, _ => False
  end.

Definition repositioned (m1 m2 : @machine (list LexToken)) : Prop :=
  Forall2 same_token (iterator (lexer m1)) (iterator (lexer m2))
  /\ same_lookahead (lookahead m1) (lookahead m2)
  /\ statestack m1 = statestack m2
  /\ Forall2 same_symbol (symstack m1) (symstack m2).

(** The same error but for the line and the position it names. *)
Definition same_error (e e' : exn) : Prop :=
  e = e'
  \/ (exists (l p l' p' : Z) (v k : string),
         e = JsonPathParserError
               ("Parse error at " ++ str_of_Z l ++ ":" ++ str_of_Z p
                ++ " near token " ++ v ++ " (" ++ k ++ ")")
         /\ e' = JsonPathParserError
                   ("Parse error at " ++ str_of_Z l' ++ ":" ++ str_of_Z p'
                    ++ " near token " ++ v ++ " (" ++ k ++ ")"))
  \/ (exists (name : string) (l p l' p' : Z),
         e = JsonPathParserError
               ("Unknown named operator `" ++ name ++ "` at "
                ++ str_of_Z l ++ ":" ++ str_of_Z p)
         /\ e' = JsonPathParserError
                   ("Unknown named operator `" ++ name ++ "` at "
                    ++ str_of_Z l' ++ ":" ++ str_of_Z p')).

(** Both return the same value, or both raise the same error but for the
    position. *)
Definition alike {A : Type} (r1 r2 : result A) : Prop :=
  match r1, r2 with
  | Return a, Return b => a = b
  | Raise e, Raise e' => same_error e e'
  | _, _ => False
  end.

Definition repositioned_step (r1 r2 : @step_result (list LexToken)) : Prop :=
  match r1, r2 with
  | Continue m1, Continue m2 => repositioned m1 m2
  | Done a, Done b => alike a b
  | _, _ => False
  end.

(** * Properties *)

(** ** The tables are complete *)

(** The tables are the ones the construction computes. *)
Lemma tables_as_computed :
  lr0_items = lr0_loop 200 0 [[(0, 0)]]
  /\ state_items = map closure1 kernel_lookaheads
  /\ lr_action
     = map (fun e => state_actions (fst e) (snd e))
           (combine (seq 0 (length state_items)) state_items)
  /\ lr_goto = map (filter (fun e => is_nonterminal (fst e))) lr0_transitions
  /\ defaulted_states = map defaulted lr_action.
Proof. repeat split; vm_compute; reflexivity. Qed.

(** Every move out of a state of the collection leads to a state of the
    collection: the state loop did not stop early. *)
Lemma lr0_items_closed :
  forallb (fun K =>
             forallb (fun x =>
                        match index_of (lr0_goto K x) lr0_items with
                        | Some _ => true
                        | None => false
                        end)
                     (symbols_after K))
          lr0_items = true.
Proof. vm_compute. reflexivity. Qed.

(** One more pass of propagation adds no lookahead. *)
Lemma kernel_lookaheads_stable :
  lalr_size (propagate_pass kernel_lookaheads) = lalr_size kernel_lookaheads.
Proof. vm_compute. reflexivity. Qed.

(** Nor does one more pass of the closure rule inside any state. *)
Lemma state_items_stable :
  forallb (fun t => Nat.eqb (la_size (closure1_pass t)) (la_size t))
          state_items = true.
Proof. vm_compute. reflexivity. Qed.

(** No state has two reductions competing for one lookahead: every conflict
    of the grammar is between a shift and a reduction, and is settled by the
    precedence table. *)
Lemma no_reduce_reduce_conflict :
  forallb (fun items =>
             forallb (fun a => Nat.leb (length (reductions_on a items)) 1)
                     terminals)
          state_items = true.
Proof. vm_compute. reflexivity. Qed.

(** ** Fuel *)

Section Fuel.
Context {I : Type} `{Iterator I LexToken}.

Lemma run_more (fuel k : nat) (m : machine) (r : result pyval) :
  run fuel m = Some r -> run (fuel + k) m = Some r.
Proof.
  revert m. induction fuel as [|fuel IH]; intros m Hrun.
  - discriminate.
  - simpl in *. destruct (step m) as [m'|r']; [apply IH|]; assumption.
Qed.

Lemma run_functional (a b : nat) (m : machine) (r1 r2 : result pyval) :
  run a m = Some r1 -> run b m = Some r2 -> r1 = r2.
Proof.
  intros Ha Hb.
  apply (run_more a b) in Ha. apply (run_more b a) in Hb.
  rewrite Nat.add_comm in Hb. congruence.
Qed.

(** A parse has at most one outcome. *)
Lemma parses_to_functional (it : I) (r1 r2 : result pyval) :
  parses_to it r1 -> parses_to it r2 -> r1 = r2.
Proof.
  intros [a Ha] [b Hb]. exact (run_functional a b _ r1 r2 Ha Hb).
Qed.
End Fuel.

Lemma compiles_to_functional (s : string) (r1 r2 : result pyval) :
  compiles_to s r1 -> compiles_to s r2 -> r1 = r2.
Proof. apply parses_to_functional. Qed.

(** Settles [compiles_to] and [parses_to] goals on closed inputs by running
    the parser. *)
Ltac run_parser := exists 64; vm_compute; reflexivity.

(** ** Sample parses *)

Example tokens_of_child_where :
  tokens_of "a.b where c.d"
  = Some [ mkTok "ID" (TStr "a") 1 0; literal "." 1;
           mkTok "ID" (TStr "b") 1 2; mkTok "WHERE" (TStr "where") 1 4;
           mkTok "ID" (TStr "c") 1 10; literal "." 11;
           mkTok "ID" (TStr "d") 1 12 ].
Proof. reflexivity. Qed.

Example tokens_of_slice :
  tokens_of "a..b[1:]"
  = Some [ mkTok "ID" (TStr "a") 1 0; mkTok "DOUBLEDOT" (TStr "..") 1 1;
           mkTok "ID" (TStr "b") 1 3; literal "[" 4; number 1 5;
           literal ":" 6; literal "]" 7 ].
Proof. reflexivity. Qed.

Example compile_root : compiles_to "$" (Return Root).
Proof. run_parser. Qed.

Example compile_root_child :
  compiles_to "$.a" (Return (Child Root (field "a"))).
Proof. run_parser. Qed.

Example compile_field_list :
  compiles_to "a,b,c" (Return (Fields [VStr "a"; VStr "b"; VStr "c"])).
Proof. run_parser. Qed.

Example compile_descendants_child :
  compiles_to "foo..baz.bing"
    (Return (Descendants (field "foo") (Child (field "baz") (field "bing")))).
Proof. run_parser. Qed.

Example compile_child_field_list :
  compiles_to "foo.baz,bizzle"
    (Return (Child (field "foo") (Fields [VStr "baz"; VStr "bizzle"]))).
Proof. run_parser. Qed.

Example compile_child_then_bracket :
  compiles_to "a.b[0]"
    (Return (Child (Child (field "a") (field "b")) (Index (VInt 0)))).
Proof. run_parser. Qed.

(** ** Precedence between operators *)

Example compile_child_where_child :
  compiles_to "a.b where c.d"
    (Return (Child (Child (field "a") (Where (field "b") (field "c")))
                   (field "d"))).
Proof. run_parser. Qed.

Example compile_union_child :
  compiles_to "a|b.c"
    (Return (Child (Union (field "a") (field "b")) (field "c"))).
Proof. run_parser. Qed.

(** C1, as the code has it: compiling "a.b where c.d" yields
    Child(Child(Fields('a'), Where(Fields('b'), Fields('c'))), Fields('d')),
    and compiling "a|b.c" yields
    Child(Union(Fields('a'), Fields('b')), Fields('c')): in both inputs the
    other operator ('where', '|') binds tighter than '.'. *)
Theorem where_and_union_bind_tighter_than_child :
  compiles_to "a.b where c.d"
    (Return (Child (Child (Fields [VStr "a"])
                          (Where (Fields [VStr "b"]) (Fields [VStr "c"])))
                   (Fields [VStr "d"])))
  /\ compiles_to "a|b.c"
       (Return (Child (Union (Fields [VStr "a"]) (Fields [VStr "b"]))
                      (Fields [VStr "c"]))).
Proof. split; [exact compile_child_where_child | exact compile_union_child]. Qed.

(** C1 as stated fails: "a.b where c.d" does not compile to
    Where(Child(a, b), Child(c, d)), and "a|b.c" does not compile to
    Union(a, Child(b, c)). *)
Lemma child_does_not_bind_tighter :
  ~ compiles_to "a.b where c.d"
      (Return (Where (Child (Fields [VStr "a"]) (Fields [VStr "b"]))
                     (Child (Fields [VStr "c"]) (Fields [VStr "d"]))))
  /\ ~ compiles_to "a|b.c"
         (Return (Union (Fields [VStr "a"])
                        (Child (Fields [VStr "b"]) (Fields [VStr "c"])))).
Proof.
  split; intros Hbad.
  - pose proof (compiles_to_functional _ _ _ compile_child_where_child Hbad)
      as E.
    discriminate E.
  - pose proof (compiles_to_functional _ _ _ compile_union_child Hbad) as E.
    discriminate E.
Qed.

(** C2: the precedence table gives ',' < '..' < '.' < '|' < '&' < 'where',
    every level left-associative; two binary path operators in a row are
    grouped by it: in "a o1 b o2 c" the second operator takes "b" only when
    its level is strictly higher, and otherwise (lower level, or the same
    operator twice) the first one is reduced first; in particular "a.b.c"
    is Child(Child(a, b), c). *)
Theorem binary_operators_follow_precedence :
  map Precedence_get [","; "DOUBLEDOT"; "."; "|"; "&"; "WHERE"]
  = [ (assoc_left, 1); (assoc_left, 2); (assoc_left, 3);
      (assoc_left, 4); (assoc_left, 5); (assoc_left, 6) ]
  /\ (forall o1 o2 : binop,
        compiles_to ("a" ++ op_text o1 ++ "b" ++ op_text o2 ++ "c")
          (Return (if Nat.ltb (op_level o1) (op_level o2)
                   then op_node o1 (Fields [VStr "a"])
                          (op_node o2 (Fields [VStr "b"]) (Fields [VStr "c"]))
                   else op_node o2
                          (op_node o1 (Fields [VStr "a"]) (Fields [VStr "b"]))
                          (Fields [VStr "c"]))))
  /\ (forall o : binop,
        compiles_to ("a" ++ op_text o ++ "b" ++ op_text o ++ "c")
          (Return (op_node o (op_node o (Fields [VStr "a"]) (Fields [VStr "b"]))
                           (Fields [VStr "c"]))))
  /\ compiles_to "a.b.c"
       (Return (Child (Child (Fields [VStr "a"]) (Fields [VStr "b"]))
                      (Fields [VStr "c"]))).
Proof.
  split; [reflexivity|].
  split; [intros [] []; run_parser|].
  split; [intros []; run_parser|].
  run_parser.
Qed.

(** ** Brackets *)

(** C3: "[1:]" is Slice(1, None, None), "[:]" is Slice(None, None, None) and
    "[::2]" is Slice(None, None, 2); in general each component of a slice is
    the integer of the NUMBER written at its position, and None when nothing
    is written there (also when the integer written is 0). *)
Theorem slice_components_by_position :
  compiles_to "[1:]" (Return (Slice (VInt 1) VNone VNone))
  /\ compiles_to "[:]" (Return (Slice VNone VNone VNone))
  /\ compiles_to "[::2]" (Return (Slice VNone VNone (VInt 2)))
  /\ (forall a b : option Z,
        parses_to (slice2_tokens a b)
          (Return (Slice (maybe_int_value a) (maybe_int_value b) VNone)))
  /\ (forall a b c : option Z,
        parses_to (slice3_tokens a b c)
          (Return (Slice (maybe_int_value a) (maybe_int_value b)
                         (maybe_int_value c))))
  /\ maybe_int_value None <> maybe_int_value (Some 0%Z).
Proof.
  split; [run_parser|].
  split; [run_parser|].
  split; [run_parser|].
  split; [intros [a|] [b|]; run_parser|].
  split; [intros [a|] [b|] [c|]; run_parser|].
  discriminate.
Qed.

(** C4: the bare text "*" compiles to Fields('*'), and the bracketed text
    "[*]" compiles to Slice() with its three components None, not to a
    Fields node. *)
Theorem star_is_field_wildcard_or_full_slice :
  compiles_to "*" (Return (Fields [VStr "*"]))
  /\ compiles_to "[*]" (Return (Slice VNone VNone VNone))
  /\ ~ (exists names, compiles_to "[*]" (Return (Fields names))).
Proof.
  assert (Hslice : compiles_to "[*]" (Return (Slice VNone VNone VNone)))
    by run_parser.
  split; [run_parser|].
  split; [exact Hslice|].
  intros [names Hf].
  pose proof (compiles_to_functional _ _ _ Hslice Hf) as E. discriminate E.
Qed.

(** C5: "a[0]" compiles to Child(Fields('a'), Index(0)), the tree that
    "a.[0]" compiles to. *)
Theorem bracket_is_child_access :
  compiles_to "a[0]" (Return (Child (Fields [VStr "a"]) (Index (VInt 0))))
  /\ compiles_to "a.[0]" (Return (Child (Fields [VStr "a"]) (Index (VInt 0)))).
Proof. split; run_parser. Qed.

(** C9: the bare bracket form "[0]" compiles, to the node Index(0) itself:
    no Child around it, no Root before it. *)
Theorem bare_index_compiles :
  compiles_to "[0]" (Return (Index (VInt 0))).
Proof. run_parser. Qed.

(** ** Named operators *)

Lemma named_operator_other (name : string) (line pos : Z) (s0 : YaccSymbol) :
  name <> "this" -> name <> "parent" ->
  p_jsonpath_named_operator [s0; mkSym "NAMED_OPERATOR" (VStr name) line pos]
  = Raise (JsonPathParserError (unknown_operator_message name line pos)).
Proof.
  intros Hthis Hparent. unfold p_jsonpath_named_operator. simpl.
  apply String.eqb_neq in Hthis, Hparent. rewrite Hthis, Hparent. reflexivity.
Qed.

Example compile_this : compiles_to "`this`" (Return This).
Proof. run_parser. Qed.

Example compile_parent : compiles_to "`parent`" (Return Parent).
Proof. run_parser. Qed.

Example parse_unknown_operator :
  parses_to [mkTok "NAMED_OPERATOR" (TStr "foo") 1 0]
    (Raise (JsonPathParserError "Unknown named operator `foo` at 1:0")).
Proof. run_parser. Qed.

(** C6: a NAMED_OPERATOR token named 'this' parses to This(), one named
    'parent' to Parent(); with any other name the parse raises the error
    whose message is "Unknown named operator `", the name, "` at ", the
    token's line, ":" and the token's position, and returns no tree. *)
Theorem named_operator_this_parent_or_error (name : string) (line pos : Z) :
  (name = "this" ->
   parses_to [mkTok "NAMED_OPERATOR" (TStr name) line pos] (Return This))
  /\ (name = "parent" ->
      parses_to [mkTok "NAMED_OPERATOR" (TStr name) line pos] (Return Parent))
  /\ (name <> "this" -> name <> "parent" ->
      parses_to [mkTok "NAMED_OPERATOR" (TStr name) line pos]
        (Raise (JsonPathParserError
                  ("Unknown named operator `" ++ name ++ "` at "
                   ++ str_of_Z line ++ ":" ++ str_of_Z pos)))
      /\ forall v : pyval,
          ~ parses_to [mkTok "NAMED_OPERATOR" (TStr name) line pos] (Return v)).
Proof.
  split; [intros ->; run_parser|].
  split; [intros ->; run_parser|].
  intros Hthis Hparent.
  assert (Herr : parses_to [mkTok "NAMED_OPERATOR" (TStr name) line pos]
                   (Raise (JsonPathParserError
                             (unknown_operator_message name line pos)))).
  { exists 4. unfold parse_token_stream, yacc_parse.
    cbv -[p_jsonpath_named_operator unknown_operator_message].
    rewrite (named_operator_other name line pos _ Hthis Hparent).
    reflexivity. }
  split; [exact Herr|].
  intros v Hv.
  pose proof (parses_to_functional _ _ _ Herr Hv) as E. discriminate E.
Qed.

Lemma named_operator_witness :
  parses_to [mkTok "NAMED_OPERATOR" (TStr "foo") 3 7]
    (Raise (JsonPathParserError "Unknown named operator `foo` at 3:7")).
Proof.
  refine (proj1 (proj2 (proj2 (named_operator_this_parent_or_error "foo" 3 7))
                  _ _));
    discriminate.
Defined.

(** ** The tables are consistent *)

Lemma check_actions_ok : check_actions = true.
Proof. vm_compute. reflexivity. Qed.

Lemma check_defaulted_ok : check_defaulted = true.
Proof. vm_compute. reflexivity. Qed.

Lemma check_transitions_ok : check_transitions = true.
Proof. vm_compute. reflexivity. Qed.

Lemma check_gotos_ok : check_gotos = true.
Proof. vm_compute. reflexivity. Qed.

Lemma check_initial_ok : check_initial = true.
Proof. vm_compute. reflexivity. Qed.

(** ** Reading the checks *)

Lemma lookup_In {A : Type} (k : string) (d : list (string * A)) (v : A) :
  lookup k d = Some v -> In (k, v) d.
Proof.
  induction d as [|[k' v'] d IH]; simpl; [discriminate|].
  destruct (String.eqb k' k) eqn:E.
  - intros [= ->]. apply String.eqb_eq in E. subst. left. reflexivity.
  - intros Hl. right. apply IH, Hl.
Qed.

Lemma mem_item_In (it : Item) (l : list Item) :
  mem_item it l = true <-> In it l.
Proof.
  unfold mem_item. rewrite existsb_exists. split.
  - intros [x [Hin Heq]]. unfold item_eqb in Heq.
    apply andb_true_iff in Heq. destruct Heq as [H1 H2].
    apply Nat.eqb_eq in H1, H2. destruct it, x. simpl in *. subst. exact Hin.
  - intros Hin. exists it. split; [exact Hin|].
    unfold item_eqb. rewrite !Nat.eqb_refl. reflexivity.
Qed.

Lemma In_states (st : nat) : st < length state_items -> In st states.
Proof. intros Hlt. unfold states. apply in_seq. lia. Qed.

Lemma row_of_nth {A : Type} (tbl : list (list A)) (st : nat) (row : list A) :
  nth_error tbl st = Some row -> row_of tbl st = row.
Proof. unfold row_of. intros ->. reflexivity. Qed.

Lemma nth_error_lt {A : Type} (l : list A) (n : nat) (x : A) :
  nth_error l n = Some x -> n < length l.
Proof. intros Hn. apply nth_error_Some. congruence. Qed.

Lemma length_lr_action : length lr_action = length state_items.
Proof. reflexivity. Qed.

Lemma length_lr0_transitions : length lr0_transitions = length state_items.
Proof. reflexivity. Qed.

Lemma length_defaulted_states : length defaulted_states = length state_items.
Proof. reflexivity. Qed.

Lemma action_of_checked (st : nat) (a : string) (act : action) :
  action_of st a = Some act -> check_action st (a, act) = true.
Proof.
  unfold action_of. destruct (nth_error lr_action st) as [row|] eqn:Hrow;
    [|discriminate].
  intros Hl. apply lookup_In in Hl.
  pose proof check_actions_ok as Hc. unfold check_actions in Hc.
  rewrite forallb_forall in Hc.
  assert (Hst : In st states).
  { apply In_states. rewrite <- length_lr_action.
    exact (nth_error_lt _ _ _ Hrow). }
  specialize (Hc st Hst). rewrite forallb_forall in Hc.
  apply Hc. rewrite (row_of_nth _ _ _ Hrow). exact Hl.
Qed.

Lemma action_shift_ok (st : nat) (a : string) (j : nat) :
  action_of st a = Some (Shift j) ->
  transition st a = Some j /\ is_nonterminal a = false /\ a <> "$end".
Proof.
  intros Ha. apply action_of_checked in Ha. unfold check_action in Ha.
  simpl in Ha. apply andb_true_iff in Ha. destruct Ha as [Ha Hend].
  apply andb_true_iff in Ha. destruct Ha as [Ht Hnt].
  destruct (transition st a) as [j'|]; [|discriminate].
  apply Nat.eqb_eq in Ht. subst j'.
  apply negb_true_iff in Hnt, Hend. apply String.eqb_neq in Hend.
  auto.
Qed.

Lemma check_reduce_ok (st n : nat) (a : string) :
  check_action st (a, Reduce n) = true ->
  In (n, length (rhs n)) (items_of st) /\ n <> 0 /\ n < length Productions.
Proof.
  unfold check_action. simpl. intros Hc.
  apply andb_true_iff in Hc. destruct Hc as [Hc Hlt].
  apply andb_true_iff in Hc. destruct Hc as [Hit Hn0].
  apply mem_item_In in Hit. apply negb_true_iff in Hn0.
  apply Nat.eqb_neq in Hn0. apply Nat.ltb_lt in Hlt. auto.
Qed.

Lemma action_reduce_ok (st : nat) (a : string) (n : nat) :
  action_of st a = Some (Reduce n) ->
  In (n, length (rhs n)) (items_of st) /\ n <> 0 /\ n < length Productions.
Proof. intros Ha. apply action_of_checked in Ha. exact (check_reduce_ok _ _ _ Ha). Qed.

Lemma action_accept_ok (st : nat) (a : string) :
  action_of st a = Some Accept -> a = "$end".
Proof.
  intros Ha. apply action_of_checked in Ha. unfold check_action in Ha.
  simpl in Ha. apply String.eqb_eq in Ha. exact Ha.
Qed.

Lemma defaulted_reduce_ok (st n : nat) :
  defaulted_state st = Some (Reduce n) ->
  In (n, length (rhs n)) (items_of st) /\ n <> 0 /\ n < length Productions.
Proof.
  intros Hd.
  pose proof check_defaulted_ok as Hc. unfold check_defaulted in Hc.
  rewrite forallb_forall in Hc.
  assert (Hst : In st states).
  { apply In_states. rewrite <- length_defaulted_states.
    unfold defaulted_state in Hd.
    destruct (nth_error defaulted_states st) eqn:E; [|discriminate].
    exact (nth_error_lt _ _ _ E). }
  specialize (Hc st Hst). rewrite Hd in Hc.
  exact (check_reduce_ok _ _ _ Hc).
Qed.

Lemma transition_items (st st' : nat) (x : string) (p d : nat) :
  transition st x = Some st' ->
  In (p, S d) (items_of st') ->
  In (p, d) (items_of st) /\ nth_error (rhs p) d = Some x.
Proof.
  unfold transition.
  destruct (nth_error lr0_transitions st) as [row|] eqn:Hrow; [|discriminate].
  intros Hl Hin. apply lookup_In in Hl.
  pose proof check_transitions_ok as Hc. unfold check_transitions in Hc.
  rewrite forallb_forall in Hc.
  assert (Hst : In st states).
  { apply In_states. rewrite <- length_lr0_transitions.
    exact (nth_error_lt _ _ _ Hrow). }
  specialize (Hc st Hst). rewrite forallb_forall in Hc.
  rewrite (row_of_nth _ _ _ Hrow) in Hc. specialize (Hc _ Hl).
  unfold check_transition in Hc. rewrite forallb_forall in Hc.
  specialize (Hc _ Hin). simpl in Hc.
  apply andb_true_iff in Hc. destruct Hc as [Hm Hx].
  apply mem_item_In in Hm. split; [exact Hm|].
  destruct (nth_error (rhs p) d) as [y|]; [|discriminate].
  apply String.eqb_eq in Hx. subst. reflexivity.
Qed.

Lemma items_of_in_range (st : nat) (it : Item) :
  In it (items_of st) -> In st states.
Proof.
  unfold items_of. destruct (nth_error state_items st) eqn:E.
  - intros _. apply In_states. exact (nth_error_lt _ _ _ E).
  - intros [].
Qed.

Lemma goto_ok (st p : nat) :
  In (p, 0) (items_of st) -> p <> 0 ->
  exists j, goto_of st (lhs p) = Some j /\ transition st (lhs p) = Some j.
Proof.
  intros Hin Hp.
  pose proof check_gotos_ok as Hc. unfold check_gotos in Hc.
  rewrite forallb_forall in Hc.
  specialize (Hc st (items_of_in_range _ _ Hin)).
  rewrite forallb_forall in Hc. specialize (Hc _ Hin).
  unfold check_goto in Hc. simpl in Hc.
  apply Nat.eqb_neq in Hp. rewrite Hp in Hc. simpl in Hc.
  destruct (goto_of st (lhs p)) as [j|]; [|discriminate].
  destruct (transition st (lhs p)) as [j'|]; [|discriminate].
  apply Nat.eqb_eq in Hc. subst. exists j'. auto.
Qed.

Lemma initial_items (p d : nat) : In (p, d) (items_of 0) -> d = 0.
Proof.
  intros Hin.
  pose proof check_initial_ok as Hc. unfold check_initial in Hc.
  rewrite forallb_forall in Hc. specialize (Hc _ Hin).
  apply Nat.eqb_eq in Hc. exact Hc.
Qed.

(** ** The stack spells the items of its top state *)

Lemma firstn_snoc {A : Type} (l : list A) (d : nat) (x : A) :
  nth_error l d = Some x -> firstn (S d) l = (firstn d l ++ [x])%list.
Proof.
  revert d. induction l as [|a l IH]; intros [|d]; simpl; try discriminate.
  - intros [= ->]. reflexivity.
  - intros Hn. f_equal. exact (IH d Hn).
Qed.

Section Stack.
Variable ts : list LexToken.

Lemma stack_ok_length (sts : list nat) (syms : list YaccSymbol) :
  stack_ok ts sts syms -> length sts = length syms.
Proof. induction 1; simpl in *; congruence. Qed.

(** With the item [(p, d)] in the top state, the [d] entries on top of the
    stack are well-formed symbols spelling the first [d] symbols of the
    production, and the state under them holds the production's initial
    item. *)
Lemma stack_spells (d p : nat) (sts : list nat) (syms : list YaccSymbol) :
  stack_ok ts sts syms ->
  In (p, d) (items_of (hd 0 sts)) ->
  map sym_type (rev (firstn d syms)) = firstn d (rhs p)
  /\ Forall (sym_ok ts) (firstn d syms)
  /\ length (firstn d syms) = d
  /\ stack_ok ts (skipn d sts) (skipn d syms)
  /\ In (p, 0) (items_of (hd 0 (skipn d sts))).
Proof.
  revert sts syms. induction d as [|d IH]; intros sts syms Hok Hin.
  - simpl. repeat split; auto.
  - destruct Hok as [|s s' sts X syms Hok Htr HX].
    + simpl in Hin. apply initial_items in Hin. discriminate.
    + simpl in Hin.
      destruct (transition_items _ _ _ _ _ Htr Hin) as [Hprev Hnth].
      destruct (IH (s :: sts) syms Hok Hprev)
        as (Hspell & Hall & Hlen & Hrest & Hinit).
      change (firstn (S d) (X :: syms)) with (X :: firstn d syms).
      change (skipn (S d) (s' :: s :: sts)) with (skipn d (s :: sts)).
      change (skipn (S d) (X :: syms)) with (skipn d syms).
      repeat split; auto.
      * simpl. rewrite map_app, Hspell. simpl.
        symmetry. apply firstn_snoc. exact Hnth.
      * simpl. congruence.
Qed.
End Stack.

(** ** The semantic actions on a well-formed stack *)

Section Actions.
Variable ts : list LexToken.
Hypothesis ts_lexical : Forall (fun t => lexical t = true) ts.

Lemma sym_ok_terminal (a : string) (v : pyval) (l p : Z) :
  sym_ok ts (mkSym a v l p) -> is_nonterminal a = false ->
  exists t, In t ts /\ type t = a /\ pyval_of (value t) = v
            /\ lineno t = l /\ lexpos t = p.
Proof.
  intros [(t & Hin & E & _)|[Hnt _]] Hterm.
  - exists t. unfold sym_of_token in E. injection E as -> -> -> ->. auto.
  - simpl in Hnt. congruence.
Qed.

Lemma sym_ok_nonterminal (a : string) (v : pyval) (l p : Z) :
  sym_ok ts (mkSym a v l p) -> is_nonterminal a = true ->
  val_ok a v = true.
Proof.
  intros [(t & Hin & E & Hterm)|[_ Hval]] Hnt.
  - unfold sym_of_token in E. injection E as -> _ _ _. congruence.
  - exact Hval.
Qed.

Lemma str_token (t : LexToken) :
  In t ts -> type t <> "NUMBER" -> exists s, value t = TStr s.
Proof.
  intros Hin Hty. rewrite Forall_forall in ts_lexical.
  specialize (ts_lexical t Hin). unfold lexical in ts_lexical.
  destruct (value t) as [s|n]; [eauto|].
  apply String.eqb_eq in ts_lexical. contradiction.
Qed.

Ltac shape body H :=
  repeat (destruct body as [|[? ? ? ?] body]; simpl in H;
          try discriminate H).

Ltac returns :=
  left; eexists; split; [reflexivity | reflexivity].

Ltac branches :=
  repeat match goal with
         | |- context [if ?c then _ else _] => destruct c
         end.

(** Turns each [sym_ok] hypothesis into what it says for the symbol's
    kind. *)
Ltac read_symbols :=
  repeat match goal with
         | H : Forall _ (_ :: _) |- _ => inversion H; subst; clear H
         | H : Forall _ [] |- _ => clear H
         end;
  repeat match goal with
         | H : sym_ok ts (mkSym _ _ _ _) |- _ =>
             first [ apply sym_ok_nonterminal in H; [|reflexivity]
                   | apply sym_ok_terminal in H; [|reflexivity] ]
         end;
  repeat match goal with
         | H : val_ok _ ?v = true |- _ =>
             simpl in H;
             lazymatch type of H with
             | true = true => clear H
             | _ => destruct v; try discriminate H; clear H
             end
         end.

Lemma actions_ok :
  Forall (fun p =>
            forall (s0 : YaccSymbol) (body : list YaccSymbol),
              map sym_type body = prod p ->
              Forall (sym_ok ts) body ->
              action_result ts (name p) (func p (s0 :: body)))
         (tl Productions).
Proof.
  cbv [Productions rules flat_map productions_of map app tl
       rule_alts rule_lhs rule_func].
  repeat (apply Forall_cons || apply Forall_nil);
    intros s0 body Hmap Hall; simpl in Hmap; shape body Hmap;
    repeat match goal with
           | H : _ :: _ = _ :: _ |- _ => injection H; clear H; intros
           end;
    subst; simpl; read_symbols.
  all: try (cbv [p_jsonpath_binop p_jsonpath_fields p_jsonpath_root
                 p_jsonpath_idx p_jsonpath_slice p_jsonpath_fieldbrackets
                 p_jsonpath_child_fieldbrackets p_jsonpath_child_idxbrackets
                 p_jsonpath_child_slicebrackets p_jsonpath_parens
                 p_fields_id p_fields_comma p_idx p_slice_any p_slice
                 p_maybe_int p_empty p_fields_or_any
                 p_item nth_error bind unpack py_add
                 Slice_call odd_items sym_value];
            branches; returns).
  - (* NAMED_OPERATOR *)
    match goal with
    | H : exists t, _ |- _ => destruct H as (t & Hin & Hty & <- & <- & <-)
    end.
    destruct (str_token t Hin) as [s Hs]; [rewrite Hty; discriminate|].
    unfold p_jsonpath_named_operator. simpl. rewrite Hs. simpl.
    destruct (String.eqb s "this"); [returns|].
    destruct (String.eqb s "parent"); [returns|].
    right. exists t. rewrite Hs. simpl. auto.
  - (* fields_or_any : '*' *)
    match goal with
    | H : exists t, _ |- _ => destruct H as (t & Hin & Hty & <- & <- & <-)
    end.
    destruct (str_token t Hin) as [s Hs]; [rewrite Hty; discriminate|].
    unfold p_fields_or_any. simpl. rewrite Hs. simpl.
    destruct (String.eqb s "*"); returns.
Qed.

Lemma action_ok (n : nat) (p : Production) (s0 : YaccSymbol)
      (body : list YaccSymbol) :
  nth_error Productions n = Some p -> n <> 0 ->
  map sym_type body = prod p ->
  Forall (sym_ok ts) body ->
  action_result ts (name p) (func p (s0 :: body)).
Proof.
  intros Hp Hn. destruct n as [|n]; [congruence|].
  pose proof actions_ok as Hall. rewrite Forall_forall in Hall.
  apply Hall. unfold Productions in *. simpl in Hp |- *.
  exact (nth_error_In _ _ Hp).
Qed.

(** An action that raises on the symbols of its production is the named
    operator's, on a NAMED_OPERATOR token of the input whose name is
    neither 'this' nor 'parent'; the error is about that token. *)
Lemma actions_fail :
  Forall (fun p =>
            forall (s0 : YaccSymbol) (body : list YaccSymbol) (e : exn),
              map sym_type body = prod p ->
              Forall (sym_ok ts) body ->
              func p (s0 :: body) = Raise e ->
              exists t s,
                body = [sym_of_token t] /\ In t ts
                /\ type t = "NAMED_OPERATOR" /\ value t = TStr s
                /\ s <> "this" /\ s <> "parent"
                /\ e = JsonPathParserError
                         (unknown_operator_message s (lineno t) (lexpos t)))
         (tl Productions).
Proof.
  cbv [Productions rules flat_map productions_of map app tl
       rule_alts rule_lhs rule_func].
  repeat (apply Forall_cons || apply Forall_nil);
    intros s0 body e Hmap Hall Hf; simpl in Hmap; shape body Hmap;
    repeat match goal with
           | H : _ :: _ = _ :: _ |- _ => injection H; clear H; intros
           end;
    subst; simpl in Hf |- *; read_symbols; revert Hf.
  all: try (cbv [p_jsonpath_binop p_jsonpath_fields p_jsonpath_root
                 p_jsonpath_idx p_jsonpath_slice p_jsonpath_fieldbrackets
                 p_jsonpath_child_fieldbrackets p_jsonpath_child_idxbrackets
                 p_jsonpath_child_slicebrackets p_jsonpath_parens
                 p_fields_id p_fields_comma p_idx p_slice_any p_slice
                 p_maybe_int p_empty p_fields_or_any
                 p_item nth_error bind unpack py_add
                 Slice_call odd_items sym_value];
            branches; discriminate).
  - (* NAMED_OPERATOR *)
    match goal with
    | H : exists t, _ |- _ => destruct H as (t & Hin & Hty & <- & <- & <-)
    end.
    destruct (str_token t Hin) as [s Hs]; [rewrite Hty; discriminate|].
    unfold p_jsonpath_named_operator. simpl. rewrite Hs. simpl.
    destruct (String.eqb_spec s "this") as [|Hthis]; [discriminate|].
    destruct (String.eqb_spec s "parent") as [|Hparent]; [discriminate|].
    intros [= <-]. exists t, s.
    repeat split; auto.
    unfold sym_of_token. rewrite Hs. rewrite <- Hty. reflexivity.
Qed.

Lemma action_fails (n : nat) (p : Production) (s0 : YaccSymbol)
      (body : list YaccSymbol) (e : exn) :
  nth_error Productions n = Some p -> n <> 0 ->
  map sym_type body = prod p ->
  Forall (sym_ok ts) body ->
  func p (s0 :: body) = Raise e ->
  exists t s,
    body = [sym_of_token t] /\ In t ts
    /\ type t = "NAMED_OPERATOR" /\ value t = TStr s
    /\ s <> "this" /\ s <> "parent"
    /\ e = JsonPathParserError
             (unknown_operator_message s (lineno t) (lexpos t)).
Proof.
  intros Hp Hn. destruct n as [|n]; [congruence|].
  pose proof actions_fail as Hall. rewrite Forall_forall in Hall.
  apply Hall. unfold Productions in *. simpl in Hp |- *.
  exact (nth_error_In _ _ Hp).
Qed.
End Actions.

(** ** Every step keeps the machine well-formed *)

Lemma nonterminal_names :
  forallb (fun p => is_nonterminal (name p)) (tl Productions) = true.
Proof. vm_compute. reflexivity. Qed.

Lemma production_nonterminal (n : nat) (p : Production) :
  nth_error Productions n = Some p -> n <> 0 -> is_nonterminal (name p) = true.
Proof.
  intros Hp Hn. destruct n as [|n]; [congruence|].
  pose proof nonterminal_names as Hc. rewrite forallb_forall in Hc.
  apply Hc. unfold Productions in *. simpl in Hp |- *.
  exact (nth_error_In _ _ Hp).
Qed.

Section Preservation.
Variable ts : list LexToken.
Hypothesis ts_lexical : Forall (fun t => lexical t = true) ts.

Lemma stack_ok_top (sts : list nat) (syms : list YaccSymbol) :
  stack_ok ts sts syms -> exists s rest, sts = s :: rest.
Proof. intros []; eauto. Qed.

Lemma reduce_ok (m : machine) (n : nat) :
  machine_ok ts m ->
  In (n, length (rhs n)) (items_of (hd 0 (statestack m))) ->
  n <> 0 -> n < length Productions ->
  step_ok ts (reduce m n).
Proof.
  intros (Hit & Hla & Hst) Hin Hn Hlt. unfold reduce.
  destruct (nth_error Productions n) as [p|] eqn:Hp;
    [|apply nth_error_None in Hp; lia].
  assert (Hrhs : rhs n = prod p) by (unfold rhs; rewrite Hp; reflexivity).
  assert (Hlhs : lhs n = name p) by (unfold lhs; rewrite Hp; reflexivity).
  rewrite Hrhs in Hin.
  destruct (stack_spells ts _ _ _ _ Hst Hin)
    as (Hspell & Hall & Hlen & Hrest & Hinit).
  rewrite Hrhs, firstn_all in Hspell.
  pose proof (action_ok ts ts_lexical n p
                (mkSym (name p) VNone 0 0)
                (rev (firstn (length (prod p)) (symstack m)))
                Hp Hn Hspell (Forall_rev Hall)) as Hact.
  destruct Hact as [(v & -> & Hv)|(t & Hint & Hty & ->)].
  - destruct (stack_ok_top _ _ Hrest) as (top & rest & Htop).
    rewrite Htop in *. simpl in Hinit.
    destruct (goto_ok _ _ Hinit Hn) as (j & Hgoto & Htr).
    rewrite Hlhs in Hgoto, Htr. rewrite Hgoto.
    simpl. repeat split; simpl; auto.
    apply stack_push; auto.
    right. simpl. split; [exact (production_nonterminal _ _ Hp Hn)|exact Hv].
  - simpl. apply outcome_operator; assumption.
Qed.

Lemma fill_lookahead_ok (m : machine) :
  machine_ok ts m ->
  exists m', fill_lookahead m = Return m'
             /\ machine_ok ts m'
             /\ lookahead m' <> NoLookahead
             /\ statestack m' = statestack m
             /\ symstack m' = symstack m.
Proof.
  intros (Hit & Hla & Hst). unfold fill_lookahead.
  destruct (lookahead m) eqn:El.
  - unfold token, next, list_iterator.
    destruct (iterator (lexer m)) as [|t rest] eqn:Ei; simpl.
    + eexists. split; [reflexivity|]. simpl.
      repeat split; simpl; auto; try discriminate.
      rewrite Ei. intros x [].
    + eexists. split; [reflexivity|]. simpl.
      repeat split; simpl; auto; try discriminate.
      * intros x Hx. apply Hit. right. exact Hx.
      * apply Hit. left. reflexivity.
  - exists m. unfold machine_ok. rewrite El. repeat split; auto.
    discriminate.
  - exists m. unfold machine_ok. rewrite El. repeat split; auto.
    discriminate.
Qed.

Lemma step_preserves (m : machine) :
  machine_ok ts m -> step_ok ts (step m).
Proof.
  intros Hm. unfold step.
  destruct Hm as (Hit & Hla & Hst).
  destruct (stack_ok_top _ _ Hst) as (state & rest & Htop).
  rewrite Htop.
  assert (Hm : machine_ok ts m) by (repeat split; assumption).
  destruct (fill_lookahead_ok m Hm) as (m' & Hfill & Hm' & Hnl & Hss & Hsy).
  assert (Hgen :
          step_ok ts
            match fill_lookahead m with
            | Raise e => Done (Raise e)
            | Return m0 => apply_action state m0
            end).
  { rewrite Hfill. unfold apply_action.
    destruct Hm' as (Hit' & Hla' & Hst').
    destruct (action_of state (lookahead_type (lookahead m')))
      as [[j|n| |]|] eqn:Ha.
    - destruct (action_shift_ok _ _ _ Ha) as (Htr & Hterm & Hend).
      destruct (lookahead m') as [|t|] eqn:El; simpl in *; try congruence.
      repeat split; simpl; auto.
      rewrite Hss, Htop. apply stack_push; simpl; auto.
      + rewrite <- Htop, <- Hss. exact Hst'.
      + left. exists t. auto.
    - destruct (action_reduce_ok _ _ _ Ha) as (Hin & Hn0 & Hlt).
      apply reduce_ok; auto.
      + repeat split; assumption.
      + rewrite Hss, Htop. exact Hin.
    - destruct (symstack m') as [|x syms] eqn:Es.
      + apply stack_ok_length in Hst'. rewrite Hss, Htop in Hst'.
        discriminate Hst'.
      + simpl. constructor.
    - simpl. destruct (lookahead m') as [|t|]; simpl in *;
        try congruence; try destruct (String.eqb (type t) "$end");
        constructor; assumption.
    - simpl. destruct (lookahead m') as [|t|]; simpl in *;
        try congruence; try destruct (String.eqb (type t) "$end");
        constructor; assumption. }
  destruct (defaulted_state state) as [[j|n| |]|] eqn:Hd; try exact Hgen.
  destruct (defaulted_reduce_ok _ _ Hd) as (Hin & Hn0 & Hlt).
  apply reduce_ok; auto.
  rewrite Htop. exact Hin.
Qed.

Lemma run_ok (fuel : nat) (m : machine) (r : result pyval) :
  machine_ok ts m -> run fuel m = Some r -> outcome ts r.
Proof.
  revert m. induction fuel as [|fuel IH]; intros m Hm; simpl.
  - discriminate.
  - pose proof (step_preserves m Hm) as Hs.
    destruct (step m) as [m'|r']; simpl in Hs.
    + apply IH, Hs.
    + intros [= <-]. exact Hs.
Qed.

Lemma initial_ok : machine_ok ts (initial (mkStream ts)).
Proof.
  repeat split; simpl.
  - apply incl_refl.
  - apply stack_bottom.
Qed.
End Preservation.

(** ** Failures *)

(** The outcomes of parsing a list of lexical tokens: a value, or one of the
    parser's three errors about the input. *)
Lemma parse_outcomes (ts : list LexToken) (r : result pyval) :
  Forall (fun t => lexical t = true) ts ->
  parses_to ts r -> outcome ts r.
Proof.
  intros Hlex [fuel Hrun].
  exact (run_ok ts Hlex fuel _ r (initial_ok ts) Hrun).
Qed.

Lemma messages_differ (t : LexToken) (name : string) (line pos : Z) :
  unexpected_end_message <> unexpected_token_message t
  /\ unexpected_end_message <> unknown_operator_message name line pos
  /\ unexpected_token_message t <> unknown_operator_message name line pos.
Proof.
  unfold unexpected_end_message, unexpected_token_message,
    unknown_operator_message.
  repeat split; simpl; discriminate.
Qed.

Example compile_trailing_dot :
  compiles_to "$." (Raise (JsonPathParserError unexpected_end_message)).
Proof. run_parser. Qed.

Example compile_unexpected_token :
  compiles_to "$ $"
    (Raise (JsonPathParserError "Parse error at 1:2 near token $ ($)")).
Proof. run_parser. Qed.

Example compile_empty_text :
  compiles_to "" (Raise (JsonPathParserError unexpected_end_message)).
Proof. run_parser. Qed.

(** An unknown named operator followed by a token that cannot follow it is
    reported as an unexpected token: the operator's action never runs. *)
Example parse_unknown_operator_then_token :
  parses_to [mkTok "NAMED_OPERATOR" (TStr "foo") 1 0;
             mkTok "NAMED_OPERATOR" (TStr "bar") 1 6]
    (Raise (JsonPathParserError
              "Parse error at 1:6 near token bar (NAMED_OPERATOR)")).
Proof. run_parser. Qed.

(** ** A complete expression followed by an operator *)

Lemma check_operators_at_end_ok : check_operators_at_end = true.
Proof. vm_compute. reflexivity. Qed.

Lemma action_of_out_of_range (st : nat) (a : string) :
  ~ In st states -> action_of st a = None.
Proof.
  intros Hout. unfold action_of.
  destruct (nth_error lr_action st) as [row|] eqn:E; [|reflexivity].
  exfalso. apply Hout. apply In_states. rewrite <- length_lr_action.
  exact (nth_error_lt _ _ _ E).
Qed.

Lemma operator_at_end (st : nat) (o : binop) :
  check_operator_at_end st o = true.
Proof.
  destruct (in_dec Nat.eq_dec st states) as [Hin|Hout].
  - pose proof check_operators_at_end_ok as Hc.
    unfold check_operators_at_end in Hc. rewrite forallb_forall in Hc.
    specialize (Hc st Hin). rewrite forallb_forall in Hc.
    apply Hc. destruct o; simpl; auto 6.
  - unfold check_operator_at_end.
    rewrite (action_of_out_of_range st "$end" Hout).
    destruct (defaulted_state st); reflexivity.
Qed.

Lemma defaulted_kind :
  forallb (fun d => match d with
                    | Some (Reduce _) | None => true
                    | Some _ => false
                    end)
          defaulted_states = true.
Proof. vm_compute. reflexivity. Qed.

Lemma defaulted_is_reduce (st : nat) (a : action) :
  defaulted_state st = Some a -> exists n, a = Reduce n.
Proof.
  unfold defaulted_state.
  destruct (nth_error defaulted_states st) as [d|] eqn:E; [|discriminate].
  intros ->. pose proof defaulted_kind as Hc. rewrite forallb_forall in Hc.
  specialize (Hc _ (nth_error_In _ _ E)).
  destruct a; try discriminate Hc. eauto.
Qed.

Section Trailing.
Variable o : binop.
Variable t_o : LexToken.
Hypothesis type_t_o : type t_o = op_terminal o.
Lemma reduce_related (lx1 lx2 : IteratorToTokenStream (list LexToken))
      (la1 la2 : lookahead_t) (sts : list nat) (syms : list YaccSymbol)
      (n : nat) :
  match reduce (mkMachine lx1 la1 sts syms) n with
  | Continue m1' =>
      exists sts' syms',
        m1' = mkMachine lx1 la1 sts' syms'
        /\ reduce (mkMachine lx2 la2 sts syms) n
           = Continue (mkMachine lx2 la2 sts' syms')
  | Done r => reduce (mkMachine lx2 la2 sts syms) n = Done r
  end.
Proof.
  unfold reduce. simpl.
  destruct (nth_error Productions n) as [p|]; [|reflexivity].
  destruct (func p _) as [v|e]; [|reflexivity].
  destruct (skipn (length (prod p)) sts) as [|top rest]; [reflexivity|].
  destruct (goto_of top (name p)) as [st|]; [|reflexivity].
  eauto.
Qed.

Lemma stuck_after_shift (lx : IteratorToTokenStream (list LexToken))
      (j : nat) (sts : list nat) (syms : list YaccSymbol) :
  iterator lx = [] -> end_stuck j = true ->
  stuck (mkMachine lx NoLookahead (j :: sts) syms).
Proof.
  intros Hlx Hj. unfold end_stuck in Hj.
  destruct (defaulted_state j) eqn:Hd; [discriminate|].
  destruct (action_of j "$end") eqn:Ha; [discriminate|].
  unfold stuck, step. simpl. rewrite Hd.
  unfold fill_lookahead, token. simpl. rewrite Hlx. simpl.
  unfold apply_action. simpl. rewrite Ha. reflexivity.
Qed.

Lemma reduce_not_return (m : @machine (list LexToken)) (n : nat) (v : pyval) :
  reduce m n <> Done (Return v).
Proof.
  unfold reduce.
  destruct (nth_error Productions n) as [p|]; [|discriminate].
  destruct (func p _); [|discriminate].
  destruct (skipn _ _); [discriminate|].
  destruct (goto_of _ _); discriminate.
Qed.

(** Both machines reduce alike. *)
Lemma reduce_simulated (lx1 lx2 : IteratorToTokenStream (list LexToken))
      (la1 la2 : lookahead_t) (sts : list nat) (syms : list YaccSymbol)
      (n : nat) :
  (forall sts' syms',
      related t_o (mkMachine lx1 la1 sts syms) (mkMachine lx2 la2 sts syms) ->
      related t_o (mkMachine lx1 la1 sts' syms') (mkMachine lx2 la2 sts' syms')) ->
  related t_o (mkMachine lx1 la1 sts syms) (mkMachine lx2 la2 sts syms) ->
  simulated t_o (reduce (mkMachine lx1 la1 sts syms) n)
            (reduce (mkMachine lx2 la2 sts syms) n).
Proof.
  intros Hstacks Hrel.
  pose proof (reduce_related lx1 lx2 la1 la2 sts syms n) as Hr.
  pose proof (reduce_not_return (mkMachine lx1 la1 sts syms) n) as Hnr.
  destruct (reduce (mkMachine lx1 la1 sts syms) n) as [m1'|[v|e]]; simpl.
  - destruct Hr as (sts' & syms' & -> & ->).
    eexists. split; [reflexivity|]. left. apply Hstacks, Hrel.
  - exfalso. exact (Hnr v eq_refl).
  - exact I.
Qed.

Lemma related_stacks (lx1 lx2 : IteratorToTokenStream (list LexToken))
      (la1 la2 : lookahead_t) (sts sts' : list nat)
      (syms syms' : list YaccSymbol) :
  related t_o (mkMachine lx1 la1 sts syms) (mkMachine lx2 la2 sts syms) ->
  related t_o (mkMachine lx1 la1 sts' syms') (mkMachine lx2 la2 sts' syms').
Proof.
  intros [Hs Hy Hl Hne Hit Hp|Hs Hy Hl1 Hi1 Hl2 Hi2]; simpl in *.
  - apply related_before; simpl; auto.
  - apply related_after; simpl; auto.
Qed.

(** With the same token as lookahead, both machines act alike. *)
Lemma apply_action_same (state : nat)
      (lx1 lx2 : IteratorToTokenStream (list LexToken)) (t : LexToken)
      (sts : list nat) (syms : list YaccSymbol) :
  related t_o (mkMachine lx1 (Tok t) sts syms) (mkMachine lx2 (Tok t) sts syms) ->
  simulated t_o (apply_action state (mkMachine lx1 (Tok t) sts syms))
            (apply_action state (mkMachine lx2 (Tok t) sts syms)).
Proof.
  intros Hrel. unfold apply_action. simpl.
  destruct (action_of state (type t)) as [[j|n| |]|] eqn:Ha; simpl; auto.
  - eexists. split; [reflexivity|]. left.
    destruct Hrel as [Hs Hy Hl Hne Hit Hp|Hs Hy Hl1 Hi1 Hl2 Hi2];
      simpl in *; [|discriminate].
    apply related_before; simpl; auto; try discriminate.
    unfold pending in *. simpl in *. inversion Hp. assumption.
  - apply reduce_simulated; [|exact Hrel].
    intros sts' syms'. apply related_stacks.
  - apply action_accept_ok in Ha.
    destruct Hrel as [Hs Hy Hl Hne Hit Hp|Hs Hy Hl1 Hi1 Hl2 Hi2];
      simpl in *; [|discriminate].
    unfold pending in Hp. simpl in Hp. inversion Hp as [|x l Hx Hl']. subst.
    contradiction.
Qed.

(** At the end of its input the first machine reduces or accepts; the
    second, looking at the operator, reduces alike or shifts it and is
    stuck. *)
Lemma apply_action_end (state : nat)
      (lx1 lx2 : IteratorToTokenStream (list LexToken))
      (sts : list nat) (syms : list YaccSymbol) :
  defaulted_state state = None ->
  iterator lx1 = [] -> iterator lx2 = [] ->
  simulated t_o (apply_action state (mkMachine lx1 EndMarker sts syms))
            (apply_action state (mkMachine lx2 (Tok t_o) sts syms)).
Proof.
  intros Hd Hi1 Hi2. unfold apply_action. simpl. rewrite type_t_o.
  pose proof (operator_at_end state o) as Hc.
  unfold check_operator_at_end in Hc. rewrite Hd in Hc.
  destruct (action_of state "$end") as [[j|n| |]|] eqn:Ha1; simpl; auto.
  - destruct (action_shift_ok _ _ _ Ha1) as (_ & _ & Hne). contradiction.
  - destruct (action_of state (op_terminal o)) as [[j'|n'| |]|] eqn:Ha2;
      try discriminate Hc.
    + pose proof (reduce_not_return (mkMachine lx1 EndMarker sts syms) n)
        as Hnr.
      destruct (reduce (mkMachine lx1 EndMarker sts syms) n) as [m1'|[v|e]];
        simpl; auto.
      * eexists. split; [reflexivity|]. right.
        apply stuck_after_shift; assumption.
      * exfalso. exact (Hnr v eq_refl).
    + apply Nat.eqb_eq in Hc. subst n'.
      apply reduce_simulated.
      * intros sts' syms'. apply related_stacks.
      * apply related_after; simpl; auto.
  - destruct (action_of state (op_terminal o)) as [[j'|n'| |]|] eqn:Ha2;
      try discriminate Hc.
    destruct syms as [|x syms]; simpl; auto.
    eexists. split; [reflexivity|]. apply stuck_after_shift; assumption.
Qed.

Lemma step_simulated (m1 m2 : machine) :
  related t_o m1 m2 -> simulated t_o (step m1) (step m2).
Proof.
  intros Hrel.
  destruct m1 as [lx1 la1 sts1 syms1], m2 as [lx2 la2 sts2 syms2].
  assert (Hsame : sts1 = sts2 /\ syms1 = syms2)
    by (destruct Hrel; simpl in *; auto).
  destruct Hsame as [-> ->].
  unfold step. simpl.
  destruct sts2 as [|state rest]; [exact I|].
  destruct (defaulted_state state) as [a|] eqn:Hd.
  { destruct (defaulted_is_reduce _ _ Hd) as [n ->].
    apply reduce_simulated; [|exact Hrel].
    intros sts' syms'. apply related_stacks. }
  destruct Hrel as [_ _ Hl Hne Hit Hp|_ _ Hl1 Hi1 Hl2 Hi2]; simpl in *.
  - subst la2. destruct la1 as [|t|]; [| |contradiction].
    + unfold fill_lookahead, token, next, list_iterator. simpl.
      destruct lx1 as [it1], lx2 as [it2]. simpl in *. subst it2.
      destruct it1 as [|x r]; simpl.
      * apply apply_action_end; auto.
      * apply apply_action_same. apply related_before; simpl; auto.
        discriminate.
    + unfold fill_lookahead. simpl.
      apply apply_action_same. apply related_before; simpl; auto.
  - subst la1 la2. unfold fill_lookahead. simpl.
    apply apply_action_end; auto.
Qed.

(** If the first machine returns a tree, the second ends with the
    end-of-input error. *)
Lemma run_simulated (fuel : nat) (m1 m2 : machine) (v : pyval) :
  related t_o m1 m2 ->
  run fuel m1 = Some (Return v) ->
  exists fuel',
    run fuel' m2 = Some (Raise (JsonPathParserError unexpected_end_message)).
Proof.
  revert m1 m2. induction fuel as [|fuel IH]; intros m1 m2 Hrel; simpl.
  - discriminate.
  - pose proof (step_simulated m1 m2 Hrel) as Hsim.
    destruct (step m1) as [m1'|[v'|e]]; simpl in Hsim.
    + destruct Hsim as (m2' & Hs2 & [Hrel'|Hstuck]); intros Hrun.
      * destruct (IH m1' m2' Hrel' Hrun) as [fuel' Hrun'].
        exists (S fuel'). simpl. rewrite Hs2. exact Hrun'.
      * exists 2. simpl. rewrite Hs2. unfold stuck in Hstuck.
        rewrite Hstuck. reflexivity.
    + destruct Hsim as (m2' & Hs2 & Hstuck). intros _.
      exists 2. simpl. rewrite Hs2. unfold stuck in Hstuck.
      rewrite Hstuck. reflexivity.
    + discriminate.
Qed.
End Trailing.

(** A complete expression followed by a binary operator and nothing else
    fails at the end of input. *)
Lemma trailing_operator (ts : list LexToken) (t_o : LexToken) (o : binop)
      (v : pyval) :
  type t_o = op_terminal o ->
  Forall (fun t => type t <> "$end") ts ->
  parses_to ts (Return v) ->
  parses_to (ts ++ [t_o])%list
    (Raise (JsonPathParserError unexpected_end_message)).
Proof.
  intros Hty Hts [fuel Hrun].
  apply (run_simulated o t_o Hty fuel (initial (mkStream ts))
           (initial (mkStream (ts ++ [t_o])%list)) v).
  - apply related_before; simpl; auto. discriminate.
  - exact Hrun.
Qed.

(** C7: when the token source is exhausted in a state that has no action
    for the end of input, the parse raises the end-of-input error; a token
    list that parses to a tree, followed by one binary operator and nothing
    else, raises it; so does compiling "$." and "$" followed by any binary
    operator, and "$." yields no tree. *)
Theorem unexpected_end_of_input :
  (forall (I : Type) (H : Iterator I LexToken) (m : @machine I)
          (state : nat) (rest : list nat) (fuel : nat),
      statestack m = state :: rest ->
      defaulted_state state = None ->
      action_of state "$end" = None ->
      lookahead m = EndMarker
      \/ (lookahead m = NoLookahead
          /\ next (iterator (lexer m)) = StopIteration) ->
      run (S fuel) m
      = Some (Raise (JsonPathParserError unexpected_end_message)))
  /\ (forall (ts : list LexToken) (t_o : LexToken) (o : binop) (v : pyval),
        type t_o = op_terminal o ->
        Forall (fun t => type t <> "$end") ts ->
        parses_to ts (Return v) ->
        parses_to (ts ++ [t_o])%list
          (Raise (JsonPathParserError unexpected_end_message)))
  /\ compiles_to "$." (Raise (JsonPathParserError unexpected_end_message))
  /\ (forall o : binop,
        compiles_to ("$" ++ op_text o)
          (Raise (JsonPathParserError unexpected_end_message)))
  /\ ~ (exists v, compiles_to "$." (Return v)).
Proof.
  split.
  { intros I H m state rest fuel Hst Hdef Hact Hend.
    simpl. unfold step. rewrite Hst, Hdef.
    destruct Hend as [Hl|[Hl Hnext]].
    - unfold fill_lookahead, apply_action. rewrite Hl. simpl.
      rewrite Hl. simpl. rewrite Hact. reflexivity.
    - unfold fill_lookahead, apply_action, token. rewrite Hl, Hnext. simpl.
      rewrite Hact. reflexivity. }
  split; [exact trailing_operator|].
  split; [exact compile_trailing_dot|].
  split; [intros []; run_parser|].
  intros [v Hv].
  pose proof (compiles_to_functional _ _ _ compile_trailing_dot Hv) as E.
  discriminate E.
Qed.

(** The machine of "$." once '.' is shifted: the tokenizer is at the end of
    the text and the state reached over '.' has no action for the end; and
    the tokens of "$", which parse to Root(), followed by '.'. *)
Lemma unexpected_end_of_input_witness :
  run 1 (mkMachine (mkStream (mkLexer "" 2)) NoLookahead [10; 1; 0]
           [mkSym "." (VStr ".") 1 1; mkSym "jsonpath" Root 0 0;
            mkSym "$end" VNone 0 0])
  = Some (Raise (JsonPathParserError unexpected_end_message))
  /\ parses_to [literal "$" 0; literal "." 1]
       (Raise (JsonPathParserError unexpected_end_message)).
Proof.
  split.
  - refine (proj1 unexpected_end_of_input lexer_state lexer_iterator _
              10 [1; 0] 0 _ _ _ _).
    + reflexivity.
    + reflexivity.
    + reflexivity.
    + right. split; reflexivity.
  - refine (proj1 (proj2 unexpected_end_of_input)
              [literal "$" 0] (literal "." 1) OpChild Root _ _ _).
    + reflexivity.
    + repeat constructor. discriminate.
    + exists 8. vm_compute. reflexivity.
Defined.

(** ** Where a parse fails *)

Lemma run_last_machine (fuel : nat) (m : @machine (list LexToken))
      (r : result pyval) :
  run fuel m = Some r ->
  exists mf, last_machine fuel m = Some mf /\ step mf = Done r.
Proof.
  revert m. induction fuel as [|fuel IH]; intros m; simpl; [discriminate|].
  destruct (step m) as [m'|r'] eqn:Hs.
  - apply IH.
  - intros [= <-]. eauto.
Qed.

Lemma reduce_continues (m m' : @machine (list LexToken)) (n : nat) :
  reduce m n = Continue m' ->
  exists p v sts,
    nth_error Productions n = Some p
    /\ m' = mkMachine (lexer m) (lookahead m) sts
              (mkSym (name p) v 0 0 :: skipn (length (prod p)) (symstack m)).
Proof.
  unfold reduce.
  destruct (nth_error Productions n) as [p|]; [|discriminate].
  destruct (func p _) as [v|]; [|discriminate].
  destruct (skipn _ (statestack m)) as [|top rest]; [discriminate|].
  destruct (goto_of _ _); [|discriminate].
  intros [= <-]. eauto.
Qed.

Lemma fill_lookahead_list (m : @machine (list LexToken)) :
  exists m', fill_lookahead m = Return m'
             /\ pending m' = pending m
             /\ statestack m' = statestack m
             /\ symstack m' = symstack m.
Proof.
  unfold fill_lookahead, pending.
  destruct (lookahead m) eqn:El.
  - unfold token, next, list_iterator.
    destruct (iterator (lexer m)) as [|t rest] eqn:Ei; simpl;
      eexists; (split; [reflexivity|]); simpl; rewrite ?Ei; auto.
  - exists m. rewrite El. auto.
  - exists m. rewrite El. auto.
Qed.

(** A step that goes on is a reduction, or the shift of the lookahead,
    once it is read. *)
Lemma step_continues (m m' : @machine (list LexToken)) :
  step m = Continue m' ->
  exists m0,
    pending m0 = pending m
    /\ statestack m0 = statestack m /\ symstack m0 = symstack m
    /\ ((exists n, reduce m0 n = Continue m')
        \/ (exists j,
               m' = mkMachine (lexer m0) NoLookahead (j :: statestack m0)
                      (lookahead_sym (lookahead m0) :: symstack m0))).
Proof.
  unfold step. destruct (statestack m) as [|state sts] eqn:Hs; [discriminate|].
  assert (Hgen :
          match fill_lookahead m with
          | Raise e => Done (Raise e)
          | Return m0 => apply_action state m0
          end = Continue m' ->
          exists m0,
            pending m0 = pending m
            /\ statestack m0 = state :: sts /\ symstack m0 = symstack m
            /\ ((exists n, reduce m0 n = Continue m')
                \/ (exists j,
                       m' = mkMachine (lexer m0) NoLookahead
                              (j :: statestack m0)
                              (lookahead_sym (lookahead m0) :: symstack m0)))).
  { destruct (fill_lookahead_list m) as (m0 & -> & Hp & Hst & Hsy).
    unfold apply_action. intros Ha. exists m0.
    rewrite Hs in Hst. repeat split; auto.
    destruct (action_of state (lookahead_type (lookahead m0)))
      as [[j|n| |]|]; try discriminate Ha.
    - right. exists j. congruence.
    - left. eauto.
    - destruct (symstack m0); discriminate Ha. }
  destruct (defaulted_state state) as [[j|n| |]|]; try exact Hgen.
  intros Hr. exists m. rewrite Hs. repeat split; auto. left. eauto.
Qed.

Lemma step_pending (m m' : @machine (list LexToken)) :
  step m = Continue m' -> length (pending m') <= length (pending m).
Proof.
  intros Hstep.
  destruct (step_continues m m' Hstep)
    as (m0 & Hp & _ & _ & [(n & Hr)|(j & ->)]); rewrite <- Hp.
  - destruct (reduce_continues _ _ _ Hr) as (p & v & sts & _ & ->).
    apply Nat.le_refl.
  - unfold pending. simpl. rewrite length_app. lia.
Qed.

Lemma last_machine_pending (fuel : nat) (m mf : @machine (list LexToken)) :
  last_machine fuel m = Some mf -> length (pending mf) <= length (pending m).
Proof.
  revert m. induction fuel as [|fuel IH]; intros m; simpl; [discriminate|].
  destruct (step m) as [m'|r] eqn:Hs.
  - intros Hl. pose proof (step_pending _ _ Hs). specialize (IH _ Hl). lia.
  - intros [= <-]. apply Nat.le_refl.
Qed.

Lemma shifted_step (ts pre : list LexToken) (m m' : @machine (list LexToken)) :
  shifted ts pre m -> step m = Continue m' -> exists pre', shifted ts pre' m'.
Proof.
  intros [Hts Htop] Hstep.
  destruct (step_continues m m' Hstep)
    as (m0 & Hp & _ & _ & [(n & Hr)|(j & ->)]); rewrite <- Hp in Hts.
  - destruct (reduce_continues _ _ _ Hr) as (p & v & sts & Hn & ->).
    exists pre. split; [exact Hts|]. simpl.
    right. right. exists n, p. auto.
  - unfold pending in Hts. destruct (lookahead m0) as [|t|] eqn:El.
    + exists pre. split; [exact Hts|]. simpl. left. reflexivity.
    + exists (pre ++ [t])%list. split.
      * unfold pending. simpl. rewrite <- app_assoc. exact Hts.
      * simpl. right. left. eauto.
    + exists pre. split; [exact Hts|]. simpl. left. reflexivity.
Qed.

Lemma production_names :
  forallb (fun p => negb (String.eqb (name p) "NAMED_OPERATOR")) Productions
  = true.
Proof. vm_compute. reflexivity. Qed.

Lemma sym_of_token_inj (t t' : LexToken) :
  sym_of_token t = sym_of_token t' -> t = t'.
Proof.
  destruct t as [ty [s|n] l p], t' as [ty' [s'|n'] l' p'];
    unfold sym_of_token; simpl; intros E; injection E; intros; subst;
    try discriminate; reflexivity.
Qed.

Section Located.
Variable ts : list LexToken.
Hypothesis ts_lexical : Forall (fun t => lexical t = true) ts.

(** A reduction raises only for a named operator, and the token is the
    last one shifted. *)
Lemma reduce_raises (m : machine) (n : nat) (pre : list LexToken) (e : exn) :
  machine_ok ts m -> shifted ts pre m ->
  In (n, length (rhs n)) (items_of (hd 0 (statestack m))) ->
  n <> 0 -> n < length Productions ->
  reduce m n = Done (Raise e) ->
  exists pre' t s,
    pre = (pre' ++ [t])%list
    /\ type t = "NAMED_OPERATOR" /\ value t = TStr s
    /\ s <> "this" /\ s <> "parent"
    /\ e = JsonPathParserError
             (unknown_operator_message s (lineno t) (lexpos t)).
Proof.
  intros (Hit & Hla & Hst) [Hts Htop] Hin Hn Hlt. unfold reduce.
  destruct (nth_error Productions n) as [p|] eqn:Hp;
    [|apply nth_error_None in Hp; lia].
  assert (Hrhs : rhs n = prod p) by (unfold rhs; rewrite Hp; reflexivity).
  rewrite Hrhs in Hin.
  destruct (stack_spells ts _ _ _ _ Hst Hin)
    as (Hspell & Hall & Hlen & Hrest & Hinit).
  rewrite Hrhs, firstn_all in Hspell.
  destruct (func p _) as [v|e'] eqn:Hf.
  - destruct (stack_ok_top _ _ _ Hrest) as (top & rest & Hrest').
    rewrite Hrest' in *. simpl in Hinit.
    destruct (goto_ok _ _ Hinit Hn) as (j & Hgoto & _).
    assert (Hlhs : lhs n = name p) by (unfold lhs; rewrite Hp; reflexivity).
    rewrite Hlhs in Hgoto. rewrite Hgoto. discriminate.
  - intros [= <-].
    destruct (action_fails ts ts_lexical n p _ _ _ Hp Hn Hspell
                (Forall_rev Hall) Hf)
      as (t & s & Hbody & Hint & Hty & Hval & Hthis & Hparent & He).
    assert (Hf1 : firstn (length (prod p)) (symstack m) = [sym_of_token t]).
    { rewrite <- (rev_involutive (firstn _ _)), Hbody. reflexivity. }
    assert (Hsyms : exists syms, symstack m = sym_of_token t :: syms).
    { destruct (symstack m) as [|X syms]; destruct (length (prod p));
        simpl in Hf1; try discriminate Hf1.
      injection Hf1 as -> _. eauto. }
    destruct Hsyms as (syms & Hsyms). rewrite Hsyms in Htop.
    destruct Htop as [E|[(pre' & t' & Hpre & E)|(n' & p' & Hn' & E)]].
    + exfalso. unfold sym_of_token in E. injection E as E _ _ _.
      rewrite Hty in E. discriminate E.
    + apply sym_of_token_inj in E. subst t'.
      exists pre', t, s. auto 10.
    + exfalso. simpl in E. rewrite Hty in E.
      pose proof production_names as Hc. rewrite forallb_forall in Hc.
      specialize (Hc _ (nth_error_In _ _ Hn')). rewrite <- E in Hc.
      discriminate Hc.
Qed.

(** How the step of a well-formed machine fails: at the end of the input,
    on the token it has ahead, or on the named operator it has just
    shifted. *)
Lemma failing_step (m : machine) (pre : list LexToken) (e : exn) :
  machine_ok ts m -> shifted ts pre m ->
  step m = Done (Raise e) ->
  e = JsonPathParserError unexpected_end_message
  \/ (exists t post,
         pending m = t :: post /\ type t <> "$end"
         /\ e = JsonPathParserError (unexpected_token_message t))
  \/ (exists pre' t s,
         pre = (pre' ++ [t])%list
         /\ type t = "NAMED_OPERATOR" /\ value t = TStr s
         /\ s <> "this" /\ s <> "parent"
         /\ e = JsonPathParserError
                  (unknown_operator_message s (lineno t) (lexpos t))).
Proof.
  intros Hm Hsh. unfold step.
  destruct Hm as (Hit & Hla & Hst).
  destruct (stack_ok_top _ _ _ Hst) as (state & rest & Htop).
  rewrite Htop.
  assert (Hm : machine_ok ts m) by (repeat split; assumption).
  destruct (fill_lookahead_ok ts m Hm) as (m' & Hfill & Hm' & Hnl & Hss & Hsy).
  assert (Hgen :
          match fill_lookahead m with
          | Raise e => Done (Raise e)
          | Return m0 => apply_action state m0
          end = Done (Raise e) ->
          e = JsonPathParserError unexpected_end_message
          \/ (exists t post,
                 pending m = t :: post /\ type t <> "$end"
                 /\ e = JsonPathParserError (unexpected_token_message t))
          \/ (exists pre' t s,
                 pre = (pre' ++ [t])%list
                 /\ type t = "NAMED_OPERATOR" /\ value t = TStr s
                 /\ s <> "this" /\ s <> "parent"
                 /\ e = JsonPathParserError
                          (unknown_operator_message s (lineno t) (lexpos t)))).
  { destruct (fill_lookahead_list m) as (m0 & Hfill0 & Hp & _ & _).
    assert (m0 = m') by congruence. subst m0.
    rewrite Hfill. unfold apply_action.
    assert (Hsh' : shifted ts pre m').
    { destruct Hsh as [Hts Ht]. split; [rewrite Hp|rewrite Hsy]; assumption. }
    assert (Herr : Done (I := list LexToken)
                     (Raise (p_error (errtoken (lookahead m'))))
                   = Done (Raise e) ->
                   e = JsonPathParserError unexpected_end_message
                   \/ (exists t post,
                          pending m = t :: post /\ type t <> "$end"
                          /\ e = JsonPathParserError
                                   (unexpected_token_message t))
                   \/ (exists pre' t s,
                          pre = (pre' ++ [t])%list
                          /\ type t = "NAMED_OPERATOR" /\ value t = TStr s
                          /\ s <> "this" /\ s <> "parent"
                          /\ e = JsonPathParserError
                                   (unknown_operator_message
                                      s (lineno t) (lexpos t)))).
    { intros [= <-]. rewrite <- Hp. unfold pending.
      destruct (lookahead m') as [|t|]; simpl; auto.
      destruct (String.eqb_spec (type t) "$end") as [|Hne]; simpl; auto.
      right. left. exists t, (iterator (lexer m')). auto. }
    destruct (action_of state (lookahead_type (lookahead m')))
      as [[j|n| |]|] eqn:Ha; try exact Herr.
    - discriminate.
    - destruct (action_reduce_ok _ _ _ Ha) as (Hin & Hn0 & Hlt).
      intros Hr. right. right.
      apply (reduce_raises m' n pre e Hm' Hsh'); auto.
      rewrite Hss, Htop. exact Hin.
    - destruct (symstack m') as [|x syms] eqn:Es; [|discriminate].
      destruct Hm' as (_ & _ & Hst'). apply stack_ok_length in Hst'.
      rewrite Hss, Htop, Es in Hst'. discriminate Hst'. }
  destruct (defaulted_state state) as [[j|n| |]|] eqn:Hd; try exact Hgen.
  destruct (defaulted_reduce_ok _ _ Hd) as (Hin & Hn0 & Hlt).
  intros Hr. right. right.
  apply (reduce_raises m n pre e Hm Hsh); auto.
  rewrite Htop. exact Hin.
Qed.

Lemma last_machine_ok (fuel : nat) (m mf : machine) (pre : list LexToken) :
  machine_ok ts m -> shifted ts pre m ->
  last_machine fuel m = Some mf ->
  machine_ok ts mf /\ exists pre', shifted ts pre' mf.
Proof.
  revert m pre. induction fuel as [|fuel IH]; intros m pre Hm Hsh; simpl;
    [discriminate|].
  pose proof (step_preserves ts ts_lexical m Hm) as Hs.
  destruct (step m) as [m'|r] eqn:Hstep; simpl in Hs.
  - destruct (shifted_step _ _ _ _ Hsh Hstep) as (pre' & Hsh').
    apply (IH m' pre' Hs Hsh').
  - intros [= <-]. eauto.
Qed.
End Located.

(** ** Inputs that begin alike *)

Section Agreement.
Variables rest1 rest2 : list LexToken.

Lemma apply_action_agree (state : nat) (a : LexToken) (c : list LexToken)
      (sts : list nat) (syms : list YaccSymbol) :
  match apply_action state
          (mkMachine (mkStream (c ++ rest1)%list) (Tok a) sts syms) with
  | Done r =>
      apply_action state
        (mkMachine (mkStream (c ++ rest2)%list) (Tok a) sts syms) = Done r
  | Continue m1' =>
      exists m2',
        apply_action state
          (mkMachine (mkStream (c ++ rest2)%list) (Tok a) sts syms)
        = Continue m2'
        /\ (agree rest1 rest2 m1' m2' \/ pending m1' = rest1)
  end.
Proof.
  unfold apply_action. simpl.
  destruct (action_of state (type a)) as [[j|n| |]|]; try reflexivity.
  - eexists. split; [reflexivity|].
    destruct c as [|b c].
    + right. reflexivity.
    + left. unfold agree, pending. simpl.
      repeat split; try discriminate.
      exists (b :: c). repeat split. discriminate.
  - pose proof (reduce_related (mkStream (c ++ rest1)%list)
                  (mkStream (c ++ rest2)%list) (Tok a) (Tok a) sts syms n)
      as Hr.
    destruct (reduce _ n) as [m1'|r]; [|exact Hr].
    destruct Hr as (sts' & syms' & -> & ->).
    eexists. split; [reflexivity|]. left.
    unfold agree, pending. simpl. repeat split; try discriminate.
    exists (a :: c). repeat split. discriminate.
  - destruct syms; reflexivity.
Qed.

Lemma step_agree (m1 m2 : @machine (list LexToken)) :
  agree rest1 rest2 m1 m2 ->
  match step m1 with
  | Done r => step m2 = Done r
  | Continue m1' =>
      exists m2',
        step m2 = Continue m2'
        /\ (agree rest1 rest2 m1' m2' \/ pending m1' = rest1)
  end.
Proof.
  destruct m1 as [[it1] la sts syms], m2 as [[it2] la2 sts2 syms2].
  unfold agree, pending. simpl.
  intros (<- & <- & <- & Hne & common & Hc & H1 & H2).
  unfold step. simpl. destruct sts as [|state sts]; [reflexivity|].
  assert (Hgen :
          match
            match fill_lookahead (mkMachine (mkStream it1) la (state :: sts) syms)
            with
            | Raise e => Done (Raise e)
            | Return m0 => apply_action state m0
            end
          with
          | Done r =>
              match fill_lookahead
                      (mkMachine (mkStream it2) la (state :: sts) syms) with
              | Raise e => Done (Raise e)
              | Return m0 => apply_action state m0
              end = Done r
          | Continue m1' =>
              exists m2',
                match fill_lookahead
                        (mkMachine (mkStream it2) la (state :: sts) syms) with
                | Raise e => Done (Raise e)
                | Return m0 => apply_action state m0
                end = Continue m2'
                /\ (agree rest1 rest2 m1' m2' \/ pending m1' = rest1)
          end).
  { destruct common as [|a c]; [contradiction|].
    destruct la as [|t|]; [| |contradiction].
    - simpl in H1, H2. subst it1 it2.
      unfold fill_lookahead, token. simpl.
      apply apply_action_agree.
    - simpl in H1, H2. injection H1 as -> ->. injection H2 as ->.
      unfold fill_lookahead. simpl.
      apply apply_action_agree. }
  destruct (defaulted_state state) as [[j|n| |]|]; try exact Hgen.
  pose proof (reduce_related (mkStream it1) (mkStream it2) la la
                (state :: sts) syms n) as Hr.
  destruct (reduce _ n) as [m1'|r]; [|exact Hr].
  destruct Hr as (sts' & syms' & -> & ->).
  eexists. split; [reflexivity|]. left.
  unfold agree, pending. simpl. repeat split; auto.
  exists common. auto.
Qed.

(** A run that ends before the common tokens are all shifted ends the same
    way on both inputs. *)
Lemma run_agree (fuel : nat) (m1 m2 mf : @machine (list LexToken)) :
  agree rest1 rest2 m1 m2 ->
  last_machine fuel m1 = Some mf ->
  length rest1 < length (pending mf) ->
  run fuel m2 = run fuel m1.
Proof.
  revert m1 m2. induction fuel as [|fuel IH]; intros m1 m2 Ha; simpl;
    [discriminate|].
  pose proof (step_agree m1 m2 Ha) as Hs.
  destruct (step m1) as [m1'|r].
  - destruct Hs as (m2' & -> & [Ha'|Hp]); intros Hl Hlen.
    + apply (IH m1' m2' Ha' Hl Hlen).
    + exfalso. pose proof (last_machine_pending _ _ _ Hl) as Hle.
      rewrite Hp in Hle. lia.
  - rewrite Hs. reflexivity.
Qed.
End Agreement.

(** A failed parse of lexical tokens: the error, and the token it is
    about.  The error about a token is raised whatever follows the token;
    the error about a named operator, whatever follows the token after
    it. *)
Lemma failure_located (ts : list LexToken) (e : exn) :
  Forall (fun t => lexical t = true) ts ->
  parses_to ts (Raise e) ->
  e = JsonPathParserError unexpected_end_message
  \/ (exists pre t post,
         ts = (pre ++ t :: post)%list /\ type t <> "$end"
         /\ e = JsonPathParserError (unexpected_token_message t)
         /\ forall rest, parses_to (pre ++ t :: rest)%list (Raise e))
  \/ (exists pre t post s,
         ts = (pre ++ t :: post)%list
         /\ type t = "NAMED_OPERATOR" /\ value t = TStr s
         /\ s <> "this" /\ s <> "parent"
         /\ e = JsonPathParserError
                  (unknown_operator_message s (lineno t) (lexpos t))
         /\ forall a post' rest,
             post = a :: post' ->
             parses_to (pre ++ t :: a :: rest)%list (Raise e)).
Proof.
  intros Hlex [fuel Hrun]. unfold parse_token_stream, yacc_parse in Hrun.
  destruct (run_last_machine _ _ _ Hrun) as (mf & Hl & Hstep).
  assert (Hsh : shifted ts [] (initial (mkStream ts))).
  { split; [reflexivity|]. simpl. left. reflexivity. }
  destruct (last_machine_ok ts Hlex fuel _ mf [] (initial_ok ts) Hsh Hl)
    as (Hmf & pre & Hpre).
  destruct (failing_step ts Hlex mf pre e Hmf Hpre Hstep)
    as [He|[(t & post & Hp & Hty & He)|(pre' & t & s & E & Hty & Hv & Ht & Hpa & He)]].
  - left. exact He.
  - right. left. destruct Hpre as [Hts _]. rewrite Hp in Hts.
    exists pre, t, post. repeat split; auto.
    intros rest. exists fuel. unfold parse_token_stream, yacc_parse.
    rewrite <- Hrun.
    apply (run_agree post rest fuel _ _ mf); [|exact Hl|rewrite Hp; simpl; lia].
    unfold agree, pending. simpl. repeat split; try discriminate.
    exists (pre ++ [t])%list. repeat split.
    + destruct pre; discriminate.
    + rewrite <- app_assoc. exact Hts.
    + rewrite <- app_assoc. reflexivity.
  - right. right. destruct Hpre as [Hts _]. subst pre.
    rewrite <- app_assoc in Hts. simpl in Hts.
    exists pre', t, (pending mf), s. repeat split; auto.
    intros a post' rest Hpost. exists fuel.
    unfold parse_token_stream, yacc_parse. rewrite <- Hrun.
    apply (run_agree post' rest fuel _ _ mf);
      [|exact Hl|rewrite Hpost; simpl; lia].
    unfold agree, pending. simpl. repeat split; try discriminate.
    exists (pre' ++ [t; a])%list. repeat split.
    + destruct pre'; discriminate.
    + rewrite <- app_assoc. simpl. rewrite Hts, Hpost. reflexivity.
    + rewrite <- app_assoc. reflexivity.
Qed.

(** ** The condition of each error *)

Section Conditions.
Context {I : Type} `{Iterator I LexToken}.

Lemma step_unexpected_token (m : machine) (state : nat) (sts : list nat)
      (t : LexToken) :
  statestack m = state :: sts -> looks_up state -> sees m t ->
  type t <> "$end" -> no_action state (type t) ->
  step m = Done (Raise (JsonPathParserError (unexpected_token_message t))).
Proof.
  intros Hs Hl Hsees Hty Hno. unfold step. rewrite Hs.
  assert (Hgen :
          match fill_lookahead m with
          | Raise e => Done (Raise e)
          | Return m0 => apply_action state m0
          end
          = Done (Raise (JsonPathParserError (unexpected_token_message t)))).
  { apply String.eqb_neq in Hty.
    unfold fill_lookahead.
    destruct Hsees as [Hla|(Hla & it & Hn)]; rewrite Hla.
    - unfold apply_action. rewrite Hla. simpl.
      destruct Hno as [-> | ->]; rewrite Hty; reflexivity.
    - unfold token. rewrite Hn. simpl. unfold apply_action. simpl.
      destruct Hno as [-> | ->]; rewrite Hty; reflexivity. }
  destruct (defaulted_state state) as [[j|n| |]|] eqn:Hd; try exact Hgen.
  exfalso. exact (Hl n Hd).
Qed.

Lemma step_unexpected_end (m : machine) (state : nat) (sts : list nat) :
  statestack m = state :: sts -> looks_up state ->
  sees_end m \/ (exists t, sees m t /\ type t = "$end") ->
  no_action state "$end" ->
  step m = Done (Raise (JsonPathParserError unexpected_end_message)).
Proof.
  intros Hs Hl Hsees Hno. unfold step. rewrite Hs.
  assert (Hgen :
          match fill_lookahead m with
          | Raise e => Done (Raise e)
          | Return m0 => apply_action state m0
          end
          = Done (Raise (JsonPathParserError unexpected_end_message))).
  { unfold fill_lookahead.
    destruct Hsees as [[Hla|(Hla & Hn)]|(t & [Hla|(Hla & it & Hn)] & Hty)];
      rewrite Hla.
    - unfold apply_action. rewrite Hla. simpl.
      destruct Hno as [-> | ->]; reflexivity.
    - unfold token. rewrite Hn. simpl. unfold apply_action. simpl.
      destruct Hno as [-> | ->]; reflexivity.
    - unfold apply_action. rewrite Hla. simpl. rewrite Hty.
      destruct Hno as [-> | ->]; reflexivity.
    - unfold token. rewrite Hn. simpl. unfold apply_action. simpl.
      rewrite Hty. destruct Hno as [-> | ->]; reflexivity. }
  destruct (defaulted_state state) as [[j|n| |]|] eqn:Hd; try exact Hgen.
  exfalso. exact (Hl n Hd).
Qed.
End Conditions.

(** C8 as stated fails.  The errors raised for an unexpected token ("$ $"),
    for the end of input ("$.") and for an unknown named operator (the
    token of the operator foo at line 1, position 0) are of one class, and
    each carries one argument, its message: neither the position nor the
    name is an argument of the exception. *)
Lemma failures_are_one_class_with_a_message :
  exists e_token e_end e_operator : exn,
    compiles_to "$ $" (Raise e_token)
    /\ compiles_to "$." (Raise e_end)
    /\ parses_to [mkTok "NAMED_OPERATOR" (TStr "foo") 1 0] (Raise e_operator)
    /\ exc_class e_token = exc_class e_end
    /\ exc_class e_end = exc_class e_operator
    /\ exc_args e_token = [VStr "Parse error at 1:2 near token $ ($)"]
    /\ exc_args e_end = [VStr "Parse error near the end of string!"]
    /\ exc_args e_operator = [VStr "Unknown named operator `foo` at 1:0"]
    /\ ~ In (VInt 2) (exc_args e_token)
    /\ ~ In (VStr "foo") (exc_args e_operator)
    /\ ~ In (VInt 0) (exc_args e_operator).
Proof.
  exists (JsonPathParserError "Parse error at 1:2 near token $ ($)"),
    (JsonPathParserError unexpected_end_message),
    (JsonPathParserError "Unknown named operator `foo` at 1:0").
  split; [exact compile_unexpected_token|].
  split; [exact compile_trailing_dot|].
  split; [exact parse_unknown_operator|].
  simpl. repeat split; try reflexivity;
    intros [E|[]]; discriminate E.
Qed.

(** C8, as the code has it.  Whenever parsing a list of lexical tokens
    fails, the exception is a JsonPathParserError whose only argument is its
    message, and the message is one of three.  It is "Parse error near the
    end of string!"; or it is "Parse error at line:pos near token value
    (kind)" with the line, position, value and kind of the offending token,
    a token of the input of a kind other than $end on which the parse fails
    with this error whatever follows it; or it is "Unknown named operator
    `name` at line:pos" with the name and position of a NAMED_OPERATOR token
    of the input named neither this nor parent, and the parse fails with
    this error whatever follows the token after it.  Each condition gives
    its message: a state that looks up its action and has none for the token
    the loop sees ends the parse with the message about that token; one that
    has none for the end of the input, when the loop sees the end or a token
    of kind $end, ends it with the end-of-input message; the action of a
    named operator with another name raises the message with that name and
    the position of its token.  Messages of different conditions are
    different. *)
Theorem failures_are_parser_errors_told_apart_by_message
        (ts : list LexToken) (e : exn) :
  Forall (fun t => lexical t = true) ts ->
  parses_to ts (Raise e) ->
  exc_class e = "JsonPathParserError"
  /\ (exists msg,
         exc_args e = [VStr msg]
         /\ (msg = "Parse error near the end of string!"
             \/ (exists pre t post,
                    ts = (pre ++ t :: post)%list
                    /\ type t <> "$end"
                    /\ msg = "Parse error at " ++ str_of_Z (lineno t) ++ ":"
                             ++ str_of_Z (lexpos t) ++ " near token "
                             ++ str_of_tokval (value t)
                             ++ " (" ++ type t ++ ")"
                    /\ forall rest,
                        parses_to (pre ++ t :: rest)%list (Raise e))
             \/ (exists pre t post name,
                    ts = (pre ++ t :: post)%list
                    /\ type t = "NAMED_OPERATOR" /\ value t = TStr name
                    /\ name <> "this" /\ name <> "parent"
                    /\ msg = "Unknown named operator `" ++ name ++ "` at "
                             ++ str_of_Z (lineno t) ++ ":"
                             ++ str_of_Z (lexpos t)
                    /\ forall a post' rest,
                        post = a :: post' ->
                        parses_to (pre ++ t :: a :: rest)%list (Raise e))))
  /\ (forall (I : Type) (H : Iterator I LexToken) (m : @machine I)
             (state : nat) (sts : list nat) (t : LexToken) (fuel : nat),
         statestack m = state :: sts -> looks_up state -> sees m t ->
         type t <> "$end" -> no_action state (type t) ->
         run (S fuel) m
         = Some (Raise (JsonPathParserError
                          ("Parse error at " ++ str_of_Z (lineno t) ++ ":"
                           ++ str_of_Z (lexpos t) ++ " near token "
                           ++ str_of_tokval (value t)
                           ++ " (" ++ type t ++ ")"))))
  /\ (forall (I : Type) (H : Iterator I LexToken) (m : @machine I)
             (state : nat) (sts : list nat) (fuel : nat),
         statestack m = state :: sts -> looks_up state ->
         sees_end m \/ (exists t, sees m t /\ type t = "$end") ->
         no_action state "$end" ->
         run (S fuel) m
         = Some (Raise (JsonPathParserError
                          "Parse error near the end of string!")))
  /\ (forall (s0 : YaccSymbol) (name : string) (line pos : Z),
         name <> "this" -> name <> "parent" ->
         p_jsonpath_named_operator
           [s0; mkSym "NAMED_OPERATOR" (VStr name) line pos]
         = Raise (JsonPathParserError
                    ("Unknown named operator `" ++ name ++ "` at "
                     ++ str_of_Z line ++ ":" ++ str_of_Z pos)))
  /\ (forall (t : LexToken) (name : string) (line pos : Z),
         "Parse error near the end of string!"
         <> "Parse error at " ++ str_of_Z (lineno t) ++ ":"
            ++ str_of_Z (lexpos t) ++ " near token "
            ++ str_of_tokval (value t) ++ " (" ++ type t ++ ")"
         /\ "Parse error near the end of string!"
            <> "Unknown named operator `" ++ name ++ "` at "
               ++ str_of_Z line ++ ":" ++ str_of_Z pos
         /\ "Parse error at " ++ str_of_Z (lineno t) ++ ":"
            ++ str_of_Z (lexpos t) ++ " near token "
            ++ str_of_tokval (value t) ++ " (" ++ type t ++ ")"
            <> "Unknown named operator `" ++ name ++ "` at "
               ++ str_of_Z line ++ ":" ++ str_of_Z pos).
Proof.
  intros Hlex Hparse.
  pose proof (failure_located ts e Hlex Hparse) as Hloc.
  split; [|split; [|split; [|split; [|split]]]].
  - destruct Hloc as [->|[(pre & t & post & _ & _ & -> & _)
                         |(pre & t & post & s & _ & _ & _ & _ & _ & -> & _)]];
      reflexivity.
  - destruct Hloc as [->|[(pre & t & post & Hts & Hty & -> & Hrest)
                         |(pre & t & post & s & Hts & Hty & Hv & Hthis
                           & Hparent & -> & Hrest)]];
      eexists; (split; [reflexivity|]).
    + left. reflexivity.
    + right. left. exists pre, t, post. auto.
    + right. right. exists pre, t, post, s. auto 10.
  - intros I H m state sts t fuel Hs Hl Hsees Hty Hno. simpl.
    rewrite (step_unexpected_token m state sts t Hs Hl Hsees Hty Hno).
    reflexivity.
  - intros I H m state sts fuel Hs Hl Hsees Hno. simpl.
    rewrite (step_unexpected_end m state sts Hs Hl Hsees Hno).
    reflexivity.
  - intros s0 name line pos Hthis Hparent.
    exact (named_operator_other name line pos s0 Hthis Hparent).
  - intros t name line pos. exact (messages_differ t name line pos).
Qed.

Lemma failures_witness :
  exc_class (JsonPathParserError "Parse error at 1:2 near token $ ($)")
  = "JsonPathParserError"
  /\ (exists msg,
         exc_args (JsonPathParserError "Parse error at 1:2 near token $ ($)")
         = [VStr msg]
         /\ (msg = "Parse error near the end of string!"
             \/ (exists pre t post,
                    [literal "$" 0; literal "$" 2] = (pre ++ t :: post)%list
                    /\ type t <> "$end"
                    /\ msg = "Parse error at " ++ str_of_Z (lineno t) ++ ":"
                             ++ str_of_Z (lexpos t) ++ " near token "
                             ++ str_of_tokval (value t)
                             ++ " (" ++ type t ++ ")"
                    /\ forall rest,
                        parses_to (pre ++ t :: rest)%list
                          (Raise (JsonPathParserError
                                    "Parse error at 1:2 near token $ ($)")))
             \/ (exists pre t post name,
                    [literal "$" 0; literal "$" 2] = (pre ++ t :: post)%list
                    /\ type t = "NAMED_OPERATOR" /\ value t = TStr name
                    /\ name <> "this" /\ name <> "parent"
                    /\ msg = "Unknown named operator `" ++ name ++ "` at "
                             ++ str_of_Z (lineno t) ++ ":"
                             ++ str_of_Z (lexpos t)
                    /\ forall a post' rest,
                        post = a :: post' ->
                        parses_to (pre ++ t :: a :: rest)%list
                          (Raise (JsonPathParserError
                                    "Parse error at 1:2 near token $ ($)")))))
  /\ run 1 (initial (mkStream [literal "." 0]))
     = Some (Raise (JsonPathParserError "Parse error at 1:0 near token . (.)"))
  /\ run 1 (initial (mkStream (@nil LexToken)))
     = Some (Raise (JsonPathParserError "Parse error near the end of string!"))
  /\ p_jsonpath_named_operator
       [mkSym "jsonpath" VNone 0 0; mkSym "NAMED_OPERATOR" (VStr "foo") 3 7]
     = Raise (JsonPathParserError "Unknown named operator `foo` at 3:7").
Proof.
  pose proof (failures_are_parser_errors_told_apart_by_message
                [literal "$" 0; literal "$" 2]
                (JsonPathParserError "Parse error at 1:2 near token $ ($)"))
    as Hthm.
  assert (Hlex : Forall (fun t => lexical t = true)
                        [literal "$" 0; literal "$" 2])
    by (repeat constructor).
  assert (Hparse : parses_to [literal "$" 0; literal "$" 2]
                     (Raise (JsonPathParserError
                               "Parse error at 1:2 near token $ ($)")))
    by (exists 8; vm_compute; reflexivity).
  destruct (Hthm Hlex Hparse) as (Hclass & Hmsg & Htoken & Hend & Hop & _).
  split; [exact Hclass|].
  split; [exact Hmsg|].
  split; [|split].
  - refine (Htoken (list LexToken) _ (initial (mkStream [literal "." 0]))
              0 [] (literal "." 0) 0 _ _ _ _ _).
    + reflexivity.
    + intros n. discriminate.
    + right. split; [reflexivity|]. exists []. reflexivity.
    + discriminate.
    + left. reflexivity.
  - refine (Hend (list LexToken) _ (initial (mkStream []))
              0 [] 0 _ _ _ _).
    + reflexivity.
    + intros n. discriminate.
    + left. right. split; reflexivity.
    + left. reflexivity.
  - refine (Hop (mkSym "jsonpath" VNone 0 0) "foo" 3%Z 7%Z _ _); discriminate.
Defined.

(** ** The token source adapter *)

Section TokenStream.
Context {I A : Type} `{Iterator I A}.

Lemma token_yield (it it' : I) (a : A) :
  next it = Yield a it' ->
  token (mkStream it) = Return (Some a, mkStream it').
Proof. intros Hn. unfold token. simpl. rewrite Hn. reflexivity. Qed.

Lemma token_stop (it : I) :
  next it = StopIteration ->
  token (mkStream it) = Return (None, mkStream it).
Proof. intros Hn. unfold token. simpl. rewrite Hn. reflexivity. Qed.

(** Once exhausted, the adapter keeps answering [None]. *)
Lemma pull_exhausted (it : I) (k : nat) :
  next it = StopIteration ->
  pull k (mkStream it) = Return (repeat None k).
Proof.
  intros Hn. induction k as [|k IH]; simpl.
  - reflexivity.
  - rewrite (token_stop it Hn). simpl. rewrite IH. reflexivity.
Qed.

Lemma pull_yields (it : I) (l : list A) (k : nat) :
  yields it l ->
  pull (length l + k) (mkStream it)
  = Return (map Some l ++ repeat None k)%list.
Proof.
  intros Hy. induction Hy as [it Hn|it it' a l Hn Hy IH]; simpl.
  - exact (pull_exhausted it k Hn).
  - rewrite (token_yield it it' a Hn). simpl. rewrite IH. reflexivity.
Qed.
End TokenStream.

(** A list, iterated, yields its elements. *)
Lemma list_yields {A : Type} (l : list A) : yields l l.
Proof.
  induction l as [|a l IH].
  - apply yields_stop. reflexivity.
  - apply (yields_more (a :: l) l a l); [reflexivity | exact IH].
Qed.

(** C10: for every iterator, [token()] returns [None] exactly when the
    iterator is exhausted, and then raises nothing; when the iterator yields
    the elements of [l] and stops, successive calls of [token()] return
    those elements one by one in order, and [None] from then on. *)
Theorem token_returns_elements_then_none
        (I A : Type) (H : Iterator I A) (it : I) :
  ((exists s, token (mkStream it) = Return (None, s))
   <-> next it = StopIteration)
  /\ (next it = StopIteration -> forall e, token (mkStream it) <> Raise e)
  /\ (forall (l : list A) (k : nat),
        yields it l ->
        pull (length l + k) (mkStream it)
        = Return (map Some l ++ repeat None k)%list).
Proof.
  split; [split|split].
  - intros [s Hs]. unfold token in Hs. simpl in Hs.
    destruct (next it); [discriminate Hs | reflexivity | discriminate Hs].
  - intros Hn. eexists. exact (token_stop it Hn).
  - intros Hn e. rewrite (token_stop it Hn). discriminate.
  - intros l k Hy. exact (pull_yields it l k Hy).
Qed.

Lemma token_returns_elements_then_none_witness :
  pull 4 (mkStream [literal "$" 0; literal "." 1])
  = Return [Some (literal "$" 0); Some (literal "." 1); None; None].
Proof.
  exact (proj2 (proj2 (token_returns_elements_then_none
                         (list LexToken) LexToken (list_iterator LexToken)
                         [literal "$" 0; literal "." 1]))
           [literal "$" 0; literal "." 1] 2 (list_yields _)).
Defined.

(** ** Parsing from any token source *)

Section AnySource.
Context {I : Type} `{Iterator I LexToken}.

Lemma reduce_same (m1 : @machine I) (m2 : @machine (list LexToken))
      (n : nat) :
  same_tokens m1 m2 -> same_step (reduce m1 n) (reduce m2 n).
Proof.
  intros (Hy & Hl & Hs & Hsy). unfold reduce. rewrite Hs, Hsy.
  destruct (nth_error Productions n) as [p|]; simpl; [|reflexivity].
  destruct (func p _) as [v|e]; simpl; [|reflexivity].
  destruct (skipn (length (prod p)) (statestack m2)) as [|top rest];
    simpl; [reflexivity|].
  destruct (goto_of top (name p)); simpl; [|reflexivity].
  repeat split; simpl; auto.
Qed.

Lemma fill_lookahead_same (m1 : @machine I)
      (m2 : @machine (list LexToken)) :
  same_tokens m1 m2 ->
  match fill_lookahead m1, fill_lookahead m2 with
  | Return a1, Return a2 => same_tokens a1 a2
  | _, _ => False
  end.
Proof.
  destruct m1 as [[it1] la1 sts1 syms1], m2 as [[l2] la2 sts2 syms2].
  intros (Hy & Hl & Hs & Hsy). simpl in *. subst la2 sts2 syms2.
  unfold fill_lookahead. simpl.
  destruct la1; simpl; try (repeat split; simpl; auto; fail).
  unfold token. simpl.
  inversion Hy as [it Hn|it it' a l Hn Hy']; subst; rewrite Hn; simpl.
  - repeat split; simpl; auto.
  - repeat split; simpl; auto.
Qed.

Lemma step_same (m1 : @machine I) (m2 : @machine (list LexToken)) :
  same_tokens m1 m2 -> same_step (step m1) (step m2).
Proof.
  intros Hsame. pose proof Hsame as (Hy & Hl & Hs & Hsy).
  unfold step. rewrite Hs.
  destruct (statestack m2) as [|state rest] eqn:Est; simpl; [reflexivity|].
  assert (Hact : forall (a1 : @machine I) (a2 : @machine (list LexToken)),
             same_tokens a1 a2 ->
             same_step (apply_action state a1) (apply_action state a2)).
  { intros a1 a2 Ha. pose proof Ha as (Hy' & Hl' & Hs' & Hsy').
    unfold apply_action. rewrite Hl'.
    destruct (action_of state (lookahead_type (lookahead a2)))
      as [[j|n| |]|]; simpl; try reflexivity.
    - rewrite Hs', Hsy'. repeat split; simpl; auto.
    - apply reduce_same, Ha.
    - rewrite Hsy'. destruct (symstack a2); reflexivity. }
  pose proof (fill_lookahead_same m1 m2 Hsame) as Hfill.
  assert (Hgen : same_step
                   match fill_lookahead m1 with
                   | Raise e => Done (Raise e)
                   | Return m => apply_action state m
                   end
                   match fill_lookahead m2 with
                   | Raise e => Done (Raise e)
                   | Return m => apply_action state m
                   end).
  { destruct (fill_lookahead m1) as [a1|e1], (fill_lookahead m2) as [a2|e2];
      try contradiction.
    apply Hact, Hfill. }
  destruct (defaulted_state state) as [[j|n| |]|]; try exact Hgen.
  apply reduce_same, Hsame.
Qed.

Lemma run_same (fuel : nat) (m1 : @machine I)
      (m2 : @machine (list LexToken)) :
  same_tokens m1 m2 -> run fuel m1 = run fuel m2.
Proof.
  revert m1 m2. induction fuel as [|fuel IH]; intros m1 m2 Hsame; simpl.
  - reflexivity.
  - pose proof (step_same m1 m2 Hsame) as Hs.
    destruct (step m1) as [a1|r1], (step m2) as [a2|r2]; simpl in Hs;
      try contradiction.
    + apply IH, Hs.
    + congruence.
Qed.

(** Over an iterator that yields the tokens of [l], the parse is that of
    [l]. *)
Lemma parse_of_yields (it : I) (l : list LexToken) (fuel : nat) :
  yields it l ->
  parse_token_stream fuel it = parse_token_stream fuel l.
Proof.
  intros Hy. unfold parse_token_stream, yacc_parse.
  apply run_same. repeat split; simpl; auto.
Qed.

(** X1: [parse_token_stream] depends on its iterator only through the
    tokens it yields: over any iterator that yields the tokens of [l] and
    stops, it does what it does over the list [l] itself, step for step. *)
Theorem parse_token_stream_of_yields (it : I) (l : list LexToken)
        (fuel : nat) :
  yields it l ->
  parse_token_stream fuel it = parse_token_stream fuel l.
Proof. exact (parse_of_yields it l fuel). Qed.
End AnySource.

Lemma tokens_from_yields (fuel : nat) (st : lexer_state)
      (ts : list LexToken) :
  tokens_from fuel st = Some ts -> yields st ts.
Proof.
  revert st ts. induction fuel as [|fuel IH]; intros st ts; simpl.
  - discriminate.
  - destruct (next st) as [t st'| |e] eqn:Hn; try discriminate.
    + destruct (tokens_from fuel st') as [ts'|] eqn:Ht; simpl;
        [|discriminate].
      intros [= <-]. apply (yields_more st st' t ts' Hn). apply IH, Ht.
    + intros [= <-]. apply yields_stop, Hn.
Qed.

(** Compiling a text is parsing the list of its tokens. *)
Lemma compile_is_parse_of_tokens (s : string) (ts : list LexToken)
      (r : result pyval) :
  tokens_of s = Some ts -> (compiles_to s r <-> parses_to ts r).
Proof.
  intros Ht. apply tokens_from_yields in Ht.
  unfold compiles_to, parses_to, parse.
  split; intros [fuel Hr]; exists fuel.
  - rewrite <- (parse_of_yields _ _ fuel Ht). exact Hr.
  - rewrite (parse_of_yields _ _ fuel Ht). exact Hr.
Qed.

Lemma parse_token_stream_of_yields_witness :
  parse_token_stream 8 (tokenize "$.a")
  = parse_token_stream 8 [literal "$" 0; literal "." 1;
                          mkTok "ID" (TStr "a") 1 2].
Proof.
  apply parse_token_stream_of_yields.
  apply (tokens_from_yields 4). reflexivity.
Defined.

(** ** Tokens after a failure *)

Lemma benign_bind {A B : Type} (m : result A) (k : A -> result B) :
  benign m -> (forall a, benign (k a)) -> benign (bind m k).
Proof.
  intros Hm Hk msg. destruct m as [a|e]; simpl.
  - apply Hk.
  - intros E. apply (Hm msg). congruence.
Qed.

Lemma benign_return {A : Type} (a : A) : benign (Return a).
Proof. intros msg. discriminate. Qed.

Lemma benign_p_item (p : YaccProduction) (n : nat) : benign (p_item p n).
Proof. intros msg. unfold p_item. destruct (nth_error p n); discriminate. Qed.

Lemma benign_unpack (v : pyval) : benign (unpack v).
Proof. intros msg. destruct v; discriminate. Qed.

Lemma benign_py_add (a b : pyval) : benign (py_add a b).
Proof. intros msg. destruct a, b; discriminate. Qed.

Lemma benign_Slice_call (args : list pyval) : benign (Slice_call args).
Proof.
  intros msg. unfold Slice_call.
  destruct args as [|a [|b [|c [|d args]]]]; discriminate.
Qed.

Create HintDb benign.

#[local] Hint Resolve benign_return benign_p_item benign_unpack
  benign_py_add benign_Slice_call : benign.

Ltac benign_action :=
  repeat first
    [ apply benign_bind; [auto with benign | intros ?]
    | match goal with
      | |- benign (if ?c then _ else _) => destruct c
      end
    | solve [auto with benign] ].

(** The only parser error an action raises is about an unknown named
    operator. *)
Lemma actions_raise :
  Forall (fun p =>
            forall (targ : YaccProduction) (msg : string),
              func p targ = Raise (JsonPathParserError msg) ->
              exists name line pos,
                msg = unknown_operator_message name line pos)
         Productions.
Proof.
  assert (Hb : forall (r : result pyval) (msg : string),
             benign r -> r = Raise (JsonPathParserError msg) ->
             exists name line pos,
               msg = unknown_operator_message name line pos).
  { intros r msg Hr E. exfalso. exact (Hr msg E). }
  cbv [Productions rules flat_map productions_of map app
       rule_alts rule_lhs rule_func].
  repeat (apply Forall_cons || apply Forall_nil);
    intros targ msg; simpl;
    try (apply Hb;
         cbv [p_jsonpath_binop p_jsonpath_fields p_jsonpath_root
              p_jsonpath_idx p_jsonpath_slice p_jsonpath_fieldbrackets
              p_jsonpath_child_fieldbrackets p_jsonpath_child_idxbrackets
              p_jsonpath_child_slicebrackets p_jsonpath_parens
              p_fields_or_any p_fields_id p_fields_comma p_idx
              p_slice_any p_slice p_maybe_int p_empty];
         benign_action; fail).
  unfold p_jsonpath_named_operator.
  destruct (p_item targ 1) as [name|e] eqn:E1; simpl;
    [|intros E; exfalso; revert E; rewrite <- E1; apply benign_p_item].
  destruct (py_eq_str name "this"); [discriminate|].
  destruct (py_eq_str name "parent"); [discriminate|].
  destruct (p_lineno targ 1) as [line|e] eqn:E2; simpl.
  - destruct (p_lexpos targ 1) as [pos|e] eqn:E3; simpl.
    + intros [= <-]. eauto.
    + unfold p_lexpos in E3. destruct (nth_error targ 1); [discriminate|].
      injection E3 as <-. discriminate.
  - unfold p_lineno in E2. destruct (nth_error targ 1); [discriminate|].
    injection E2 as <-. discriminate.
Qed.

Lemma parser_error_inj (m1 m2 : string) :
  @Raise pyval (JsonPathParserError m1) = Raise (JsonPathParserError m2) ->
  m1 = m2.
Proof. intros [= E]. exact E. Qed.

Lemma production_raises (n : nat) (p : Production) (targ : YaccProduction)
      (msg : string) :
  nth_error Productions n = Some p ->
  func p targ = Raise (JsonPathParserError msg) ->
  exists name line pos, msg = unknown_operator_message name line pos.
Proof.
  intros Hp. pose proof actions_raise as Hall.
  rewrite Forall_forall in Hall.
  exact (Hall p (nth_error_In _ _ Hp) targ msg).
Qed.

Lemma reduce_not_token_error (m : @machine (list LexToken)) (n : nat)
      (r : result pyval) :
  reduce m n = Done r -> not_token_error r.
Proof.
  unfold reduce. intros Hr t Ht. subst r.
  destruct (nth_error Productions n) as [p|] eqn:Hp; [|discriminate].
  destruct (func p _) as [v|e] eqn:Hf.
  - destruct (skipn _ _); [discriminate|].
    destruct (goto_of _ _); discriminate.
  - assert (He : e = JsonPathParserError (unexpected_token_message t))
      by congruence.
    subst e.
    destruct (production_raises _ _ _ _ Hp Hf) as (name & line & pos & E).
    destruct (messages_differ t name line pos) as (_ & _ & Hd).
    exact (Hd E).
Qed.

Lemma reduce_keeps_lookahead (m m' : @machine (list LexToken)) (n : nat) :
  reduce m n = Continue m' -> lookahead m' = lookahead m.
Proof.
  unfold reduce.
  destruct (nth_error Productions n) as [p|]; [|discriminate].
  destruct (func p _); [|discriminate].
  destruct (skipn _ _); [discriminate|].
  destruct (goto_of _ _); [|discriminate].
  intros [= <-]. reflexivity.
Qed.

(** Once the end of input is the lookahead, it stays, and no
    unexpected-token error follows. *)
Lemma reduce_at_end (m : @machine (list LexToken)) (n : nat) :
  lookahead m = EndMarker ->
  match reduce m n with
  | Continue m' => lookahead m' = EndMarker
  | Done r => not_token_error r
  end.
Proof.
  intros Hl. destruct (reduce m n) as [m'|r] eqn:Hr.
  - rewrite (reduce_keeps_lookahead _ _ _ Hr). exact Hl.
  - exact (reduce_not_token_error _ _ _ Hr).
Qed.

Lemma apply_action_at_end (state : nat) (m : @machine (list LexToken)) :
  lookahead m = EndMarker ->
  match apply_action state m with
  | Continue m' => lookahead m' = EndMarker
  | Done r => not_token_error r
  end.
Proof.
  intros Hl. unfold apply_action. rewrite Hl. simpl.
  destruct (action_of state "$end") as [[j|n| |]|] eqn:Ha.
  - destruct (action_shift_ok _ _ _ Ha) as (_ & _ & Hne). contradiction.
  - apply reduce_at_end, Hl.
  - destruct (symstack m); intros t; discriminate.
  - intros t E. apply parser_error_inj in E.
    destruct (messages_differ t "" 0 0) as (Hd & _). exact (Hd E).
  - intros t E. apply parser_error_inj in E.
    destruct (messages_differ t "" 0 0) as (Hd & _). exact (Hd E).
Qed.

Lemma step_at_end (m : @machine (list LexToken)) :
  lookahead m = EndMarker ->
  match step m with
  | Continue m' => lookahead m' = EndMarker
  | Done r => not_token_error r
  end.
Proof.
  intros Hl. unfold step.
  destruct (statestack m) as [|state rest]; [intros t; discriminate|].
  assert (Hgen : match
                   match fill_lookahead m with
                   | Raise e => Done (Raise e)
                   | Return m0 => apply_action state m0
                   end
                 with
                 | Continue m' => lookahead m' = EndMarker
                 | Done r => not_token_error r
                 end).
  { unfold fill_lookahead. rewrite Hl. apply apply_action_at_end, Hl. }
  destruct (defaulted_state state) as [[j|n| |]|]; try exact Hgen.
  apply reduce_at_end, Hl.
Qed.

Lemma run_at_end (fuel : nat) (m : @machine (list LexToken))
      (r : result pyval) :
  lookahead m = EndMarker -> run fuel m = Some r -> not_token_error r.
Proof.
  revert m. induction fuel as [|fuel IH]; intros m Hl; simpl.
  - discriminate.
  - pose proof (step_at_end m Hl) as Hs.
    destruct (step m) as [m'|r'].
    + apply IH, Hs.
    + intros [= <-]. exact Hs.
Qed.

Section Extension.
Variable rest : list LexToken.

Lemma reduce_extended (lx1 lx2 : IteratorToTokenStream (list LexToken))
      (la : lookahead_t) (sts : list nat) (syms : list YaccSymbol)
      (n : nat) :
  la <> EndMarker ->
  iterator lx2 = (iterator lx1 ++ rest)%list ->
  extended_step rest (reduce (mkMachine lx1 la sts syms) n)
                (reduce (mkMachine lx2 la sts syms) n).
Proof.
  intros Hla Hit.
  pose proof (reduce_related lx1 lx2 la la sts syms n) as Hr.
  destruct (reduce (mkMachine lx1 la sts syms) n) as [m1'|r]; simpl.
  - destruct Hr as (sts' & syms' & -> & ->). left.
    eexists. split; [reflexivity|]. repeat split; simpl; auto.
  - left. exact Hr.
Qed.

Lemma apply_action_extended (state : nat)
      (lx1 lx2 : IteratorToTokenStream (list LexToken)) (t : LexToken)
      (sts : list nat) (syms : list YaccSymbol) :
  iterator lx2 = (iterator lx1 ++ rest)%list ->
  extended_step rest (apply_action state (mkMachine lx1 (Tok t) sts syms))
                (apply_action state (mkMachine lx2 (Tok t) sts syms)).
Proof.
  intros Hit. unfold apply_action. simpl.
  destruct (action_of state (type t)) as [[j|n| |]|]; simpl.
  - left. eexists. split; [reflexivity|].
    repeat split; simpl; auto. discriminate.
  - apply reduce_extended; [discriminate|exact Hit].
  - destruct syms; left; reflexivity.
  - left. reflexivity.
  - left. reflexivity.
Qed.

Lemma step_extended (m1 m2 : @machine (list LexToken)) :
  extended rest m1 m2 -> extended_step rest (step m1) (step m2).
Proof.
  destruct m1 as [[it1] la1 sts1 syms1], m2 as [[it2] la2 sts2 syms2].
  intros (Hs & Hsy & Hl & Hne & Hit). simpl in *. subst sts2 syms2 la2 it2.
  unfold step. simpl.
  destruct sts1 as [|state sts]; [left; reflexivity|].
  assert (Hgen :
            extended_step rest
              match fill_lookahead (mkMachine (mkStream it1) la1
                                              (state :: sts) syms1) with
              | Raise e => Done (Raise e)
              | Return m => apply_action state m
              end
              match fill_lookahead (mkMachine (mkStream (it1 ++ rest)%list)
                                              la1 (state :: sts) syms1) with
              | Raise e => Done (Raise e)
              | Return m => apply_action state m
              end).
  { destruct la1 as [|t|]; [| |contradiction].
    - unfold fill_lookahead, token, next, list_iterator. simpl.
      destruct it1 as [|x r]; simpl.
      + pose proof (apply_action_at_end state
                      (mkMachine (mkStream []) EndMarker (state :: sts) syms1)
                      eq_refl) as Hend.
        destruct (apply_action state _) as [m1'|r1]; simpl.
        * right. exact Hend.
        * right. exact Hend.
      + apply apply_action_extended. reflexivity.
    - unfold fill_lookahead. simpl.
      apply apply_action_extended. reflexivity. }
  destruct (defaulted_state state) as [[j|n| |]|]; try exact Hgen.
  apply reduce_extended; [exact Hne|reflexivity].
Qed.

Lemma run_extended (fuel : nat) (m1 m2 : @machine (list LexToken))
      (t : LexToken) :
  extended rest m1 m2 ->
  run fuel m1
  = Some (Raise (JsonPathParserError (unexpected_token_message t))) ->
  run fuel m2
  = Some (Raise (JsonPathParserError (unexpected_token_message t))).
Proof.
  revert m1 m2. induction fuel as [|fuel IH]; intros m1 m2 Hext; simpl.
  - discriminate.
  - pose proof (step_extended m1 m2 Hext) as Hs.
    destruct (step m1) as [m1'|r1]; simpl in Hs.
    + destruct Hs as [(m2' & -> & Hext')|Hend].
      * apply IH, Hext'.
      * intros Hrun. exfalso.
        exact (run_at_end fuel m1' _ Hend Hrun t eq_refl).
    + destruct Hs as [->|Hnot].
      * intros E. exact E.
      * intros [= ->]. exfalso. exact (Hnot t eq_refl).
Qed.
End Extension.

(** X2: when the parse of a token list fails on an unexpected token, the
    parse of that list followed by any further tokens fails with the same
    error: the tokens after the offending one are never looked at. *)
Theorem unexpected_token_is_final (ts rest : list LexToken) (t : LexToken) :
  parses_to ts
    (Raise (JsonPathParserError (unexpected_token_message t))) ->
  parses_to (ts ++ rest)%list
    (Raise (JsonPathParserError (unexpected_token_message t))).
Proof.
  intros [fuel Hrun]. exists fuel.
  apply (run_extended rest fuel (initial (mkStream ts))); [|exact Hrun].
  repeat split; simpl; auto. discriminate.
Qed.

Lemma unexpected_token_is_final_witness :
  parses_to ([literal "$" 0; literal "$" 2] ++ [literal "." 3])%list
    (Raise (JsonPathParserError
              (unexpected_token_message (literal "$" 2)))).
Proof.
  apply unexpected_token_is_final. exists 8. vm_compute. reflexivity.
Defined.

(** ** The first token *)

Lemma no_action_at_start (a : string) :
  ~ In a starters -> action_of 0 a = None.
Proof.
  intros Hout. unfold action_of.
  assert (Hrow : nth_error lr_action 0
                 = Some [("NAMED_OPERATOR", Shift 3); ("$", Shift 4);
                         ("[", Shift 5); ("(", Shift 6); ("*", Shift 8);
                         ("ID", Shift 9)]) by reflexivity.
  rewrite Hrow. cbn [lookup].
  repeat match goal with
         | |- context [String.eqb ?k a] =>
             destruct (String.eqb_spec k a) as [E|_];
             [exfalso; apply Hout; rewrite <- E; simpl; tauto|]
         end.
  reflexivity.
Qed.

(** X3: an expression can only begin with a named operator, '$', '[', '(',
    '*' or an identifier.  A token stream that begins with a token of any
    other kind but $end fails on that token, whatever follows it, with the
    message "Parse error at line:pos near token value (kind)" of that token;
    one that begins with a token of kind $end fails with the end-of-input
    error, whatever follows; and an empty token source, of any kind, fails
    with the end-of-input error. *)
Theorem first_token_must_start_an_expression :
  (forall (t : LexToken) (rest : list LexToken),
      ~ In (type t) starters -> type t <> "$end" ->
      parses_to (t :: rest)
        (Raise (JsonPathParserError
                  ("Parse error at " ++ str_of_Z (lineno t) ++ ":"
                   ++ str_of_Z (lexpos t) ++ " near token "
                   ++ str_of_tokval (value t) ++ " (" ++ type t ++ ")"))))
  /\ (forall (t : LexToken) (rest : list LexToken),
        type t = "$end" ->
        parses_to (t :: rest)
          (Raise (JsonPathParserError "Parse error near the end of string!")))
  /\ (forall (I : Type) (H : Iterator I LexToken) (it : I),
        next it = StopIteration ->
        parses_to it
          (Raise (JsonPathParserError "Parse error near the end of string!"))).
Proof.
  split; [|split].
  - intros t rest Hout Hty. exists 1.
    unfold parse_token_stream, yacc_parse. simpl.
    unfold step. simpl. unfold apply_action. simpl.
    rewrite (no_action_at_start _ Hout). simpl.
    apply String.eqb_neq in Hty. rewrite Hty. reflexivity.
  - intros t rest Hty. exists 1.
    unfold parse_token_stream, yacc_parse. simpl.
    unfold step. simpl. unfold apply_action. simpl.
    rewrite Hty. reflexivity.
  - intros I H it Hn. exists 1.
    unfold parse_token_stream, yacc_parse. simpl.
    unfold step. simpl. unfold fill_lookahead, token. simpl.
    rewrite Hn. reflexivity.
Qed.

Lemma first_token_witness :
  parses_to [literal "." 0; mkTok "ID" (TStr "a") 1 1]
    (Raise (JsonPathParserError "Parse error at 1:0 near token . (.)"))
  /\ parses_to [mkTok "$end" (TStr "") 1 0; literal "$" 1]
       (Raise (JsonPathParserError "Parse error near the end of string!"))
  /\ parses_to (tokenize "")
       (Raise (JsonPathParserError "Parse error near the end of string!")).
Proof.
  split; [|split].
  - refine (proj1 first_token_must_start_an_expression
              (literal "." 0) [mkTok "ID" (TStr "a") 1 1] _ _).
    + simpl. intros H.
      repeat (destruct H as [H|H]; [discriminate H|]). exact H.
    + discriminate.
  - refine (proj1 (proj2 first_token_must_start_an_expression)
              (mkTok "$end" (TStr "") 1 0) [literal "$" 1] _).
    reflexivity.
  - refine (proj2 (proj2 first_token_must_start_an_expression)
              lexer_state lexer_iterator (tokenize "") _).
    reflexivity.
Defined.

(** ** Runs of the machine *)

Section Runs.
Context {I : Type} `{Iterator I LexToken}.

Lemma steps_to_refl (m : @machine I) : steps_to m m.
Proof. exists 0. reflexivity. Qed.

Lemma steps_to_trans (m1 m2 m3 : @machine I) :
  steps_to m1 m2 -> steps_to m2 m3 -> steps_to m1 m3.
Proof.
  intros [k1 H1] [k2 H2]. exists (k1 + k2). intros fuel.
  rewrite <- Nat.add_assoc, H1, H2. reflexivity.
Qed.

Lemma steps_to_step (m m' : @machine I) :
  step m = Continue m' -> steps_to m m'.
Proof. intros Hs. exists 1. intros fuel. simpl. rewrite Hs. reflexivity. Qed.

Lemma steps_to_ends (m m' : @machine I) (r : result pyval) :
  steps_to m m' -> ends_with m' r -> ends_with m r.
Proof.
  intros [k Hk] [fuel Hr]. exists (k + fuel). rewrite Hk. exact Hr.
Qed.

Lemma ends_with_step (m : @machine I) (r : result pyval) :
  step m = Done r -> ends_with m r.
Proof. intros Hs. exists 1. simpl. rewrite Hs. reflexivity. Qed.

Lemma advance_steps (k : nat) (m m' : @machine I) :
  advance k m = Some m' -> steps_to m m'.
Proof.
  revert m. induction k as [|k IH]; intros m; simpl.
  - intros [= <-]. apply steps_to_refl.
  - destruct (step m) as [m1|r] eqn:Hs; [|discriminate].
    intros Hk. eapply steps_to_trans; [exact (steps_to_step m m1 Hs)|].
    exact (IH m1 Hk).
Qed.
End Runs.

(** [k] steps, checked by computation. *)
Tactic Notation "walk" constr(k) :=
  apply (advance_steps k); reflexivity.

(** ** Field lists *)

(** Makes the kind of every token in sight a literal. *)
Ltac kinds :=
  repeat match goal with
         | t : LexToken |- _ => destruct t as [? ? ? ?]
         end;
  simpl in *; subst.

(** One case for each base state of [H], one for each lookahead of [K]. *)
Ltac base_cases H :=
  simpl in H;
  repeat (destruct H as [H|H]; [injection H as <- <-|]);
  try contradiction.

Ltac follow_cases K :=
  simpl in K;
  repeat (destruct K as [K|K]);
  try contradiction.

(** One more field: from [, ID] the machine shifts both tokens and reduces
    twice, and the list has grown by the identifier's value at its end. *)
Lemma fields_round (b F : nat) (acc : list pyval) (c t : LexToken)
      (toks : list LexToken) (sts : list nat) (syms : list YaccSymbol) :
  In (b, F) fields_states ->
  type c = "," -> type t = "ID" ->
  after_field (fst (read toks)) ->
  steps_to (at_fields b F acc (Tok c) (t :: toks) sts syms)
           (at_fields b F (acc ++ [pyval_of (value t)])
                      (fst (read toks)) (snd (read toks)) sts syms).
Proof.
  intros Hb Hc Ht Hla.
  destruct toks as [|x toks]; simpl in *.
  - clear Hla. base_cases Hb; kinds; walk 4.
  - unfold after_field in Hla. follow_cases Hla; base_cases Hb; kinds; walk 4.
Qed.

Lemma read_more_fields (vals : list pyval) (toks tail : list LexToken) :
  more_fields toks vals -> after_field (fst (read tail)) ->
  after_field (fst (read (toks ++ tail))).
Proof.
  intros [|c t toks' vals' Hc Ht Hm] Htail; simpl.
  - exact Htail.
  - left. symmetry. exact Hc.
Qed.

(** Any number of further fields. *)
Lemma fields_loop (b F : nat) (toks : list LexToken) (vals : list pyval) :
  more_fields toks vals ->
  forall (acc : list pyval) (tail : list LexToken)
         (sts : list nat) (syms : list YaccSymbol),
    In (b, F) fields_states -> after_field (fst (read tail)) ->
    steps_to (at_fields b F acc (fst (read (toks ++ tail)))
                        (snd (read (toks ++ tail))) sts syms)
             (at_fields b F (acc ++ vals)
                        (fst (read tail)) (snd (read tail)) sts syms).
Proof.
  induction 1 as [|c t toks vals Hc Ht Hm IH];
    intros acc tail sts syms Hb Htail.
  - simpl. rewrite app_nil_r. apply steps_to_refl.
  - simpl. eapply steps_to_trans.
    + apply (fields_round b F acc c t (toks ++ tail) sts syms Hb Hc Ht).
      exact (read_more_fields vals toks tail Hm Htail).
    + replace (acc ++ pyval_of (value t) :: vals)%list
        with ((acc ++ [pyval_of (value t)]) ++ vals)%list
        by (rewrite <- app_assoc; reflexivity).
      apply IH; assumption.
Qed.

(** The first field: the identifier is shifted and reduced to a list of
    one. *)
Lemma fields_first (b F : nat) (t : LexToken) (toks : list LexToken)
      (sts : list nat) (syms : list YaccSymbol) :
  In (b, F) fields_states ->
  type t = "ID" ->
  after_field (fst (read toks)) ->
  steps_to (mkMachine (mkStream (t :: toks)) NoLookahead (b :: sts) syms)
           (at_fields b F [pyval_of (value t)]
                      (fst (read toks)) (snd (read toks)) sts syms).
Proof.
  intros Hb Ht Hla.
  destruct toks as [|x toks]; simpl in *.
  - clear Hla. base_cases Hb; kinds; walk 2.
  - unfold after_field in Hla. follow_cases Hla; base_cases Hb; kinds; walk 2.
Qed.

(** A whole field list, from a state where one can start. *)
Lemma fields_parsed (b F : nat) (toks : list LexToken) (vals : list pyval)
      (tail : list LexToken) (sts : list nat) (syms : list YaccSymbol) :
  In (b, F) fields_states -> field_list toks vals ->
  after_field (fst (read tail)) ->
  steps_to (mkMachine (mkStream (toks ++ tail)%list) NoLookahead
                      (b :: sts) syms)
           (at_fields b F vals (fst (read tail)) (snd (read tail)) sts syms).
Proof.
  intros Hb [t toks' vals' Ht Hm] Htail. simpl.
  eapply steps_to_trans.
  - apply (fields_first b F t (toks' ++ tail) sts syms Hb Ht).
    exact (read_more_fields vals' toks' tail Hm Htail).
  - apply (fields_loop b F toks' vals' Hm [pyval_of (value t)] tail sts syms
             Hb Htail).
Qed.

(** X4: a list of identifier tokens separated by ',' tokens, of any length,
    parses to one Fields node holding the identifiers' values in the order
    written, repeated names included. *)
Theorem field_list_keeps_order (toks : list LexToken) (vals : list pyval) :
  field_list toks vals -> parses_to toks (Return (Fields vals)).
Proof.
  intros Hf.
  apply (steps_to_ends _
           (at_fields 0 7 vals EndMarker [] [] [mkSym "$end" VNone 0 0])).
  - pose proof (fields_parsed 0 7 toks vals [] [] [mkSym "$end" VNone 0 0])
      as Hp.
    rewrite app_nil_r in Hp. apply Hp; simpl; auto.
  - exists 3. reflexivity.
Qed.

Lemma field_list_keeps_order_witness :
  parses_to [mkTok "ID" (TStr "a") 1 0; literal "," 1;
             mkTok "ID" (TStr "b") 1 2; literal "," 3;
             mkTok "ID" (TStr "a") 1 4]
    (Return (Fields [VStr "a"; VStr "b"; VStr "a"])).
Proof.
  apply field_list_keeps_order.
  apply (field_list_intro (mkTok "ID" (TStr "a") 1 0)); [reflexivity|].
  apply (more_fields_cons (literal "," 1) (mkTok "ID" (TStr "b") 1 2));
    [reflexivity|reflexivity|].
  apply (more_fields_cons (literal "," 3) (mkTok "ID" (TStr "a") 1 4));
    [reflexivity|reflexivity|].
  apply more_fields_nil.
Defined.

(** ** More tokens after a complete expression *)

Lemma check_accept_ok : check_accept = true.
Proof. vm_compute. reflexivity. Qed.

Lemma reduced_alike_bracket : reduced_alike "[" = true.
Proof. vm_compute. reflexivity. Qed.

Lemma reduced_alike_paren : reduced_alike ")" = true.
Proof. vm_compute. reflexivity. Qed.

Lemma reduced_alike_spec (a : string) (st n : nat) :
  reduced_alike a = true ->
  defaulted_state st = None ->
  action_of st "$end" = Some (Reduce n) ->
  action_of st a = Some (Reduce n).
Proof.
  intros Hc Hd Ha. unfold reduced_alike in Hc. rewrite forallb_forall in Hc.
  destruct (in_dec Nat.eq_dec st states) as [Hin|Hout].
  - specialize (Hc st Hin). rewrite Hd, Ha in Hc.
    destruct (action_of st a) as [[j|n'| |]|]; try discriminate Hc.
    apply Nat.eqb_eq in Hc. subst. reflexivity.
  - rewrite (action_of_out_of_range st "$end" Hout) in Ha. discriminate Ha.
Qed.

Lemma accept_state (st : nat) :
  action_of st "$end" = Some Accept -> st = 1.
Proof.
  intros Ha. pose proof check_accept_ok as Hc. unfold check_accept in Hc.
  rewrite forallb_forall in Hc.
  destruct (in_dec Nat.eq_dec st states) as [Hin|Hout].
  - specialize (Hc st Hin). apply andb_true_iff in Hc. destruct Hc as [Hc _].
    rewrite Ha in Hc. apply Nat.eqb_eq in Hc. exact Hc.
  - rewrite (action_of_out_of_range st "$end" Hout) in Ha. discriminate Ha.
Qed.

Lemma transition_target (st st' : nat) (x : string) :
  transition st x = Some st' ->
  st' <> 0 /\ (st' = 1 -> st = 0 /\ x = "jsonpath").
Proof.
  unfold transition.
  destruct (nth_error lr0_transitions st) as [row|] eqn:Hrow; [|discriminate].
  intros Hl. apply lookup_In in Hl.
  pose proof check_accept_ok as Hc. unfold check_accept in Hc.
  rewrite forallb_forall in Hc.
  assert (Hst : In st states).
  { apply In_states. rewrite <- length_lr0_transitions.
    exact (nth_error_lt _ _ _ Hrow). }
  specialize (Hc st Hst). apply andb_true_iff in Hc. destruct Hc as [_ Hc].
  rewrite forallb_forall in Hc. rewrite (row_of_nth _ _ _ Hrow) in Hc.
  specialize (Hc _ Hl). simpl in Hc.
  apply andb_true_iff in Hc. destruct Hc as [H0 H1].
  apply negb_true_iff, Nat.eqb_neq in H0. split; [exact H0|].
  intros ->. simpl in H1. apply andb_true_iff in H1. destruct H1 as [Hs Hx].
  apply Nat.eqb_eq in Hs. apply String.eqb_eq in Hx. auto.
Qed.

(** When the machine accepts, its stacks hold one expression and nothing
    else. *)
Lemma accepting_stack (ts : list LexToken) (sts : list nat)
      (syms : list YaccSymbol) :
  stack_ok ts sts syms ->
  action_of (hd 0 sts) "$end" = Some Accept ->
  exists X, sts = [1; 0] /\ syms = [X; mkSym "$end" VNone 0 0].
Proof.
  intros Hok Ha. apply accept_state in Ha.
  destruct Hok as [|s s' sts X syms Hok Htr HX]; simpl in Ha;
    [discriminate|].
  subst s'. destruct (transition_target _ _ _ Htr) as [_ H1].
  destruct (H1 eq_refl) as [-> _].
  inversion Hok as [|s0 s1 sts0 X0 syms0 Hok0 Htr0 HX0]; subst.
  - exists X. auto.
  - destruct (transition_target _ _ _ Htr0) as [H0 _]. contradiction.
Qed.

Section FollowedBy.
Variable t0 : LexToken.
Variable rest : list LexToken.
Hypothesis alike : reduced_alike (type t0) = true.

Lemma followed_stacks (lx1 lx2 : IteratorToTokenStream (list LexToken))
      (la1 la2 : lookahead_t) (sts sts' : list nat)
      (syms syms' : list YaccSymbol) :
  followed t0 rest (mkMachine lx1 la1 sts syms) (mkMachine lx2 la2 sts syms) ->
  followed t0 rest (mkMachine lx1 la1 sts' syms')
           (mkMachine lx2 la2 sts' syms').
Proof.
  intros [Hs Hy Hl Hne Hit Hp|Hs Hy Hl1 Hi1 Hl2 Hi2]; simpl in *.
  - apply followed_before; simpl; auto.
  - apply followed_after; simpl; auto.
Qed.

(** Both machines reduce alike. *)
Lemma reduce_followed (lx1 lx2 : IteratorToTokenStream (list LexToken))
      (la1 la2 : lookahead_t) (sts : list nat) (syms : list YaccSymbol)
      (n : nat) (m0 : @machine (list LexToken)) :
  followed t0 rest (mkMachine lx1 la1 sts syms) (mkMachine lx2 la2 sts syms) ->
  followed_step t0 rest m0 (reduce (mkMachine lx1 la1 sts syms) n)
                (reduce (mkMachine lx2 la2 sts syms) n).
Proof.
  intros Hrel.
  pose proof (reduce_related lx1 lx2 la1 la2 sts syms n) as Hr.
  pose proof (reduce_not_return (mkMachine lx1 la1 sts syms) n) as Hnr.
  destruct (reduce (mkMachine lx1 la1 sts syms) n) as [m1'|[v|e]]; simpl.
  - destruct Hr as (sts' & syms' & -> & ->).
    eexists. split; [reflexivity|].
    exact (followed_stacks _ _ _ _ _ _ _ _ Hrel).
  - exfalso. exact (Hnr v eq_refl).
  - exact I.
Qed.

(** With the same token as lookahead, both machines act alike. *)
Lemma apply_action_followed (state : nat)
      (lx1 lx2 : IteratorToTokenStream (list LexToken)) (t : LexToken)
      (sts : list nat) (syms : list YaccSymbol)
      (m0 : @machine (list LexToken)) :
  followed t0 rest (mkMachine lx1 (Tok t) sts syms)
           (mkMachine lx2 (Tok t) sts syms) ->
  followed_step t0 rest m0
                (apply_action state (mkMachine lx1 (Tok t) sts syms))
                (apply_action state (mkMachine lx2 (Tok t) sts syms)).
Proof.
  intros Hrel. unfold apply_action. simpl.
  destruct (action_of state (type t)) as [[j|n| |]|] eqn:Ha; simpl; auto.
  - eexists. split; [reflexivity|].
    destruct Hrel as [Hs Hy Hl Hne Hit Hp|Hs Hy Hl1 Hi1 Hl2 Hi2];
      simpl in *; [|discriminate].
    apply followed_before; simpl; auto; try discriminate.
    unfold pending in *. simpl in *. inversion Hp. assumption.
  - apply reduce_followed. exact Hrel.
  - apply action_accept_ok in Ha.
    destruct Hrel as [Hs Hy Hl Hne Hit Hp|Hs Hy Hl1 Hi1 Hl2 Hi2];
      simpl in *; [|discriminate].
    unfold pending in Hp. simpl in Hp. inversion Hp as [|x l Hx Hl']. subst.
    contradiction.
Qed.

(** At the end of its input the first machine reduces or accepts; the
    second, looking at [t0], reduces alike, and where the first accepts it
    is the resumed machine. *)
Lemma apply_action_resumed (state : nat)
      (lx1 : IteratorToTokenStream (list LexToken))
      (sts : list nat) (syms : list YaccSymbol) :
  defaulted_state state = None ->
  iterator lx1 = [] ->
  followed_step t0 rest (mkMachine lx1 EndMarker (state :: sts) syms)
    (apply_action state (mkMachine lx1 EndMarker (state :: sts) syms))
    (apply_action state
       (mkMachine (mkStream rest) (Tok t0) (state :: sts) syms)).
Proof.
  intros Hd Hi1.
  assert (Hres : step (resumed t0 rest
                         (mkMachine lx1 EndMarker (state :: sts) syms))
                 = apply_action state
                     (mkMachine (mkStream rest) (Tok t0) (state :: sts) syms)).
  { unfold resumed, step. simpl. rewrite Hd. reflexivity. }
  rewrite <- Hres. unfold apply_action at 1. simpl.
  destruct (action_of state "$end") as [[j|n| |]|] eqn:Ha1; simpl; auto.
  - destruct (action_shift_ok _ _ _ Ha1) as (_ & _ & Hne). contradiction.
  - rewrite Hres. unfold apply_action. simpl.
    rewrite (reduced_alike_spec _ _ _ alike Hd Ha1).
    apply reduce_followed. apply followed_after; simpl; auto.
  - destruct syms as [|x syms]; simpl; auto.
    split; [reflexivity|]. split; [exact Ha1|]. eauto.
Qed.

Lemma step_followed (m1 m2 : machine) :
  followed t0 rest m1 m2 -> followed_step t0 rest m1 (step m1) (step m2).
Proof.
  intros Hrel.
  destruct m1 as [lx1 la1 sts1 syms1], m2 as [lx2 la2 sts2 syms2].
  assert (Hsame : sts1 = sts2 /\ syms1 = syms2)
    by (destruct Hrel; simpl in *; auto).
  destruct Hsame as [-> ->].
  unfold step. simpl.
  destruct sts2 as [|state sts]; [exact I|].
  destruct (defaulted_state state) as [a|] eqn:Hd.
  { destruct (defaulted_is_reduce _ _ Hd) as [n ->].
    apply reduce_followed. exact Hrel. }
  destruct Hrel as [_ _ Hl Hne Hit Hp|_ _ Hl1 Hi1 Hl2 Hi2]; simpl in *.
  - subst la2. destruct la1 as [|t|]; [| |contradiction].
    + unfold fill_lookahead, token, next, list_iterator. simpl.
      destruct lx1 as [it1], lx2 as [it2]. simpl in *. subst it2.
      destruct it1 as [|x r]; simpl.
      * apply (apply_action_resumed state (mkStream []) sts syms2 Hd).
        reflexivity.
      * apply apply_action_followed. apply followed_before; simpl; auto.
        discriminate.
    + unfold fill_lookahead. simpl.
      apply apply_action_followed. apply followed_before; simpl; auto.
  - subst la1 la2. unfold fill_lookahead. simpl.
    destruct lx2 as [it2]. simpl in Hi2. subst it2.
    apply (apply_action_resumed state lx1 sts syms2 Hd Hi1).
Qed.

(** If the first machine returns a tree, the second gets to the machine
    that holds this tree alone on its stack, looks at [t0] and has [rest]
    to read. *)
Lemma run_followed (ts : list LexToken) (fuel : nat) (m1 m2 : machine)
      (v : pyval) :
  Forall (fun t => lexical t = true) ts ->
  machine_ok ts m1 ->
  followed t0 rest m1 m2 ->
  run fuel m1 = Some (Return v) ->
  exists X,
    sym_value X = v
    /\ steps_to m2 (mkMachine (mkStream rest) (Tok t0) [1; 0]
                              [X; mkSym "$end" VNone 0 0]).
Proof.
  intros Hlex. revert m1 m2.
  induction fuel as [|fuel IH]; intros m1 m2 Hok Hrel; simpl.
  - discriminate.
  - pose proof (step_followed m1 m2 Hrel) as Hsim.
    pose proof (step_preserves ts Hlex m1 Hok) as Hpres.
    destruct (step m1) as [m1'|[v'|e]]; simpl in Hsim, Hpres.
    + destruct Hsim as (m2' & Hs2 & Hrel'). intros Hrun.
      destruct (IH m1' m2' Hpres Hrel' Hrun) as (X & HX & Hsteps).
      exists X. split; [exact HX|].
      eapply steps_to_trans; [apply steps_to_step; exact Hs2|exact Hsteps].
    + intros [= ->].
      destruct Hsim as (Hs2 & Hacc & X & syms & Hsyms & HX).
      destruct Hok as (_ & _ & Hst).
      destruct (accepting_stack ts _ _ Hst Hacc) as (X' & Hsts & Hsyms').
      rewrite Hsyms in Hsyms'. injection Hsyms' as <- ->.
      exists X. split; [exact HX|].
      exists 0. intros [|k]; [reflexivity|]. simpl. rewrite Hs2.
      unfold resumed. rewrite Hsts, Hsyms. reflexivity.
    + discriminate.
Qed.
End FollowedBy.

(** A complete expression followed by '[' and more tokens: the machine gets
    to the point where the expression's tree is alone on the stack and '['
    is the lookahead. *)
Lemma expression_then_bracket (ts : list LexToken) (lb : LexToken)
      (rest : list LexToken) (v : pyval) :
  type lb = "[" ->
  Forall (fun t => lexical t = true) ts ->
  Forall not_end ts ->
  parses_to ts (Return v) ->
  exists X,
    sym_value X = v
    /\ steps_to (initial (mkStream (ts ++ lb :: rest)%list))
                (mkMachine (mkStream rest) (Tok lb) [1; 0]
                           [X; mkSym "$end" VNone 0 0]).
Proof.
  intros Hlb Hlex Hne [fuel Hrun].
  apply (run_followed lb rest) with (ts := ts) (fuel := fuel)
                                    (m1 := initial (mkStream ts)).
  - rewrite Hlb. exact reduced_alike_bracket.
  - exact Hlex.
  - apply initial_ok.
  - apply followed_before; simpl; auto. discriminate.
  - exact Hrun.
Qed.

(** ** Brackets *)

(** Makes every optional token in sight a token or nothing. *)
Ltac options :=
  repeat match goal with
         | o : option LexToken |- _ => destruct o as [?|]
         end.

(** A bracket at the start of the input. *)
Lemma bare_bracket_parsed (lb rb : LexToken) (body : list LexToken)
      (node : pyval) :
  type lb = "[" -> type rb = "]" -> bracket_body body node ->
  ends_with (initial (mkStream (lb :: body ++ [rb])%list)) (Return node).
Proof.
  intros Hlb Hrb
         [n Hn|s Hs|a b c Ha Hc Hb|a b d c1 c2 Ha Hc1 Hb Hc2 Hd|toks vals Hf].
  - exists 8. kinds. reflexivity.
  - exists 8. kinds. reflexivity.
  - exists 16. options; kinds; reflexivity.
  - exists 20. options; kinds; reflexivity.
  - apply (steps_to_ends _
             (at_fields 5 18 vals (Tok rb) [] [0]
                        [sym_of_token lb; mkSym "$end" VNone 0 0])).
    + eapply steps_to_trans.
      * apply steps_to_step. kinds. reflexivity.
      * apply (fields_parsed 5 18 toks vals [rb] [0]);
          [simpl; auto|exact Hf|simpl; rewrite Hrb; simpl; auto].
    + exists 3. kinds. reflexivity.
Qed.

(** A bracket after an expression whose tree is alone on the stack. *)
Lemma postfix_bracket_parsed (X : YaccSymbol) (lb rb : LexToken)
      (body : list LexToken) (node : pyval) :
  type lb = "[" -> type rb = "]" -> bracket_body body node ->
  ends_with (mkMachine (mkStream (body ++ [rb])%list) (Tok lb) [1; 0]
                       [X; mkSym "$end" VNone 0 0])
            (Return (Child (sym_value X) node)).
Proof.
  intros Hlb Hrb
         [n Hn|s Hs|a b c Ha Hc Hb|a b d c1 c2 Ha Hc1 Hb Hc2 Hd|toks vals Hf].
  - exists 8. kinds. reflexivity.
  - exists 8. kinds. reflexivity.
  - exists 16. options; kinds; reflexivity.
  - exists 20. options; kinds; reflexivity.
  - apply (steps_to_ends _
             (at_fields 15 30 vals (Tok rb) [] [1; 0]
                        [sym_of_token lb; X; mkSym "$end" VNone 0 0])).
    + eapply steps_to_trans.
      * apply steps_to_step. kinds. reflexivity.
      * apply (fields_parsed 15 30 toks vals [rb] [1; 0]);
          [simpl; auto|exact Hf|simpl; rewrite Hrb; simpl; auto].
    + exists 3. kinds. reflexivity.
Qed.

(** X5: between a '[' and a ']' token at the start of the input, a NUMBER
    token gives the Index of its value, a '*' token the Slice with no
    component, numbers around one or two ':' tokens the Slice of the numbers
    written (None where none is), and a field list the Fields of its
    identifiers in order. *)
Theorem bare_bracket (lb rb : LexToken) (body : list LexToken)
        (node : pyval) :
  type lb = "[" -> type rb = "]" -> bracket_body body node ->
  parses_to (lb :: body ++ [rb])%list (Return node).
Proof. exact (bare_bracket_parsed lb rb body node). Qed.

Lemma bare_bracket_witness :
  parses_to [literal "[" 0; number 1 1; literal ":" 2; literal ":" 3;
             number 2 4; literal "]" 5]
    (Return (Slice (VInt 1) VNone (VInt 2))).
Proof.
  apply (bare_bracket (literal "[" 0) (literal "]" 5)
           [number 1 1; literal ":" 2; literal ":" 3; number 2 4]);
    [reflexivity|reflexivity|].
  apply (body_slice3 (Some (number 1 1)) None (Some (number 2 4))
           (literal ":" 2) (literal ":" 3)); simpl; auto.
Defined.

(** X6: when a list of tokens parses to a tree, the same tokens followed by
    a bracket parse to the Child of that tree and of the bracket's node:
    the bracket applies to the whole expression before it, whatever
    operators that expression contains. *)
Theorem postfix_bracket_applies_to_whole_expression
        (ts : list LexToken) (v : pyval) (lb rb : LexToken)
        (body : list LexToken) (node : pyval) :
  Forall (fun t => lexical t = true) ts ->
  Forall not_end ts ->
  parses_to ts (Return v) ->
  type lb = "[" -> type rb = "]" -> bracket_body body node ->
  parses_to (ts ++ lb :: body ++ [rb])%list (Return (Child v node)).
Proof.
  intros Hlex Hne Hparse Hlb Hrb Hbody.
  destruct (expression_then_bracket ts lb (body ++ [rb]) v
              Hlb Hlex Hne Hparse) as (X & <- & Hsteps).
  exact (steps_to_ends _ _ _ Hsteps
           (postfix_bracket_parsed X lb rb body node Hlb Hrb Hbody)).
Qed.

Lemma postfix_bracket_witness :
  parses_to ([mkTok "ID" (TStr "a") 1 0; literal "." 1;
              mkTok "ID" (TStr "b") 1 2]
               ++ literal "[" 3 :: [number 0 4] ++ [literal "]" 5])%list
    (Return (Child (Child (Fields [VStr "a"]) (Fields [VStr "b"]))
                   (Index (VInt 0)))).
Proof.
  apply (postfix_bracket_applies_to_whole_expression
           [mkTok "ID" (TStr "a") 1 0; literal "." 1;
            mkTok "ID" (TStr "b") 1 2]
           (Child (Fields [VStr "a"]) (Fields [VStr "b"]))
           (literal "[" 3) (literal "]" 5) [number 0 4] (Index (VInt 0))).
  - repeat constructor.
  - repeat constructor; discriminate.
  - exists 16. vm_compute. reflexivity.
  - reflexivity.
  - reflexivity.
  - exact (body_idx (number 0 4) eq_refl).
Defined.

(** ** The parse loop ends *)

Lemma check_weights_ok : check_weights = true.
Proof. vm_compute. reflexivity. Qed.

Lemma check_epsilon_ok : check_epsilon = true.
Proof. vm_compute. reflexivity. Qed.

Lemma weight_le (x : string) : weight x <= 4.
Proof.
  unfold weight.
  destruct (lookup x weights) as [w|] eqn:E; [|lia].
  apply lookup_In in E. simpl in E.
  repeat (destruct E as [E|E]; [injection E as _ <-; lia|]).
  destruct E.
Qed.

Lemma credit_le (x : string) : credit x <= 4.
Proof. unfold credit. destruct (_ || _); lia. Qed.

Lemma list_sum_rev (l : list nat) : list_sum (rev l) = list_sum l.
Proof.
  induction l as [|a l IH]; simpl; [reflexivity|].
  rewrite list_sum_app, IH. simpl. lia.
Qed.

Lemma production_weight (n : nat) (p : Production) :
  nth_error Productions n = Some p -> n <> 0 ->
  credit (name p) = 0
  /\ weight (name p)
     < list_sum (map weight (prod p)) + match prod p with [] => 4 | _ => 0 end.
Proof.
  intros Hp Hn. destruct n as [|n]; [congruence|].
  pose proof check_weights_ok as Hc. unfold check_weights in Hc.
  rewrite forallb_forall in Hc.
  assert (Hin : In p (tl Productions)).
  { unfold Productions in *. simpl in Hp |- *. exact (nth_error_In _ _ Hp). }
  specialize (Hc p Hin). apply andb_true_iff in Hc. destruct Hc as [H0 H1].
  apply Nat.eqb_eq in H0. apply Nat.ltb_lt in H1. auto.
Qed.

(** The empty production is reduced only with '[' or ':' on top of the
    stack. *)
Lemma epsilon_credit (ts : list LexToken) (sts : list nat)
      (syms : list YaccSymbol) (n : nat) :
  stack_ok ts sts syms ->
  In (n, length (rhs n)) (items_of (hd 0 sts)) -> n <> 0 ->
  rhs n = [] ->
  exists X rest, syms = X :: rest /\ credit (sym_type X) = 4.
Proof.
  intros Hok Hin Hn Hrhs. rewrite Hrhs in Hin. simpl in Hin.
  pose proof check_epsilon_ok as Hc. unfold check_epsilon in Hc.
  apply andb_true_iff in Hc. destruct Hc as [H0 Hc].
  assert (Heps : forall j, In (n, 0) (items_of j) -> epsilon_state j = true).
  { intros j Hj. unfold epsilon_state. apply existsb_exists.
    exists (n, 0). split; [exact Hj|]. simpl. rewrite Hrhs. simpl.
    apply Nat.eqb_neq in Hn. rewrite Hn. reflexivity. }
  destruct Hok as [|s s' sts X syms Hok Htr HX]; simpl in Hin.
  - rewrite (Heps 0 Hin) in H0. discriminate H0.
  - exists X, syms. split; [reflexivity|].
    rewrite forallb_forall in Hc.
    unfold transition in Htr.
    destruct (nth_error lr0_transitions s) as [row|] eqn:Hrow; [|discriminate].
    assert (Hst : In s states).
    { apply In_states. rewrite <- length_lr0_transitions.
      exact (nth_error_lt _ _ _ Hrow). }
    specialize (Hc s Hst). rewrite forallb_forall in Hc.
    rewrite (row_of_nth _ _ _ Hrow) in Hc.
    apply lookup_In in Htr. specialize (Hc _ Htr). simpl in Hc.
    rewrite (Heps s' Hin) in Hc. simpl in Hc.
    apply Nat.eqb_eq in Hc. exact Hc.
Qed.

Section Termination.
Variable ts : list LexToken.
Hypothesis ts_lexical : Forall (fun t => lexical t = true) ts.

Lemma reduce_nearer (m : machine) (n : nat) :
  machine_ok ts m ->
  In (n, length (rhs n)) (items_of (hd 0 (statestack m))) ->
  n <> 0 -> n < length Productions ->
  nearer m (reduce m n).
Proof.
  intros (Hit & Hla & Hst) Hin Hn Hlt. unfold reduce.
  destruct (nth_error Productions n) as [p|] eqn:Hp;
    [|apply nth_error_None in Hp; lia].
  assert (Hrhs : rhs n = prod p) by (unfold rhs; rewrite Hp; reflexivity).
  destruct (production_weight n p Hp Hn) as [Hcr Hw].
  pose proof (epsilon_credit ts _ _ n Hst Hin Hn) as Heps.
  rewrite Hrhs in Hin, Heps.
  destruct (stack_spells ts _ _ _ _ Hst Hin)
    as (Hspell & _ & Hlen & _ & _).
  rewrite Hrhs, firstn_all in Hspell.
  destruct (func p _) as [v|e]; [|exact I].
  destruct (skipn (length (prod p)) (statestack m)) as [|top rest];
    [exact I|].
  destruct (goto_of top (name p)) as [st|]; [|exact I].
  unfold nearer, measure, pending, potential. simpl.
  rewrite Hcr.
  assert (Hsum : list_sum (map (fun X => weight (sym_type X)) (symstack m))
                 = list_sum (map weight (prod p))
                   + list_sum (map (fun X => weight (sym_type X))
                                   (skipn (length (prod p)) (symstack m)))).
  { rewrite <- (firstn_skipn (length (prod p)) (symstack m)) at 1.
    rewrite map_app, list_sum_app. f_equal.
    set (popped := firstn (length (prod p)) (symstack m)) in *.
    transitivity (list_sum (map weight (map sym_type (rev popped)))).
    - rewrite map_map, map_rev, list_sum_rev. reflexivity.
    - rewrite Hspell. reflexivity. }
  rewrite Hsum.
  destruct (prod p) as [|x xs] eqn:Eprod.
  - destruct (Heps eq_refl) as (X & syms & Hsyms & HcrX).
    rewrite Hsyms. simpl. rewrite HcrX. simpl in Hw. lia.
  - destruct (symstack m) as [|X syms]; simpl in *; lia.
Qed.

Lemma fill_lookahead_measure (m m' : machine) :
  fill_lookahead m = Return m' -> measure m' = measure m.
Proof.
  destruct m as [[it] la sts syms]. unfold fill_lookahead, measure, pending.
  simpl. destruct la as [|t|].
  - unfold token, next, list_iterator. simpl.
    destruct it as [|t r]; simpl; intros [= <-]; reflexivity.
  - intros [= <-]. reflexivity.
  - intros [= <-]. reflexivity.
Qed.

Lemma step_nearer (m : machine) :
  machine_ok ts m -> nearer m (step m).
Proof.
  intros Hm. unfold step.
  destruct Hm as (Hit & Hla & Hst).
  destruct (stack_ok_top _ _ _ Hst) as (state & rest & Htop).
  rewrite Htop.
  assert (Hm : machine_ok ts m) by (repeat split; assumption).
  destruct (defaulted_state state) as [[j|n| |]|] eqn:Hd.
  2: { destruct (defaulted_reduce_ok _ _ Hd) as (Hin & Hn0 & Hlt).
       apply reduce_nearer; auto. rewrite Htop. exact Hin. }
  all: destruct (fill_lookahead_ok ts m Hm)
    as (m' & Hfill & Hm' & Hnl & Hss & Hsy).
  all: pose proof (fill_lookahead_measure m m' Hfill) as Hpend.
  all: rewrite Hfill; unfold apply_action.
  all: destruct (action_of state (lookahead_type (lookahead m')))
    as [[j'|n'| |]|] eqn:Ha; try exact I.
  all: try (destruct (symstack m'); exact I).
  all: try (destruct (action_reduce_ok _ _ _ Ha) as (Hin & Hn0 & Hlt);
            unfold nearer; rewrite <- Hpend;
            apply (reduce_nearer m' n'); auto;
            rewrite Hss, Htop; exact Hin).
  all: destruct (action_shift_ok _ _ _ Ha) as (Htr & Hterm & Hend).
  all: destruct (lookahead m') as [|t|] eqn:El; simpl in *; try congruence.
  all: unfold nearer; rewrite <- Hpend; unfold measure, pending, potential.
  all: rewrite El; simpl.
  all: pose proof (weight_le (type t)); pose proof (credit_le (type t)).
  all: destruct (symstack m'); simpl; lia.
Qed.

(** From a well-formed machine the loop ends within [measure] + 1
    iterations. *)
Lemma run_ends (k : nat) (m : machine) :
  machine_ok ts m -> measure m < k -> exists r, run k m = Some r.
Proof.
  revert m. induction k as [|k IH]; intros m Hm Hk; [lia|].
  simpl.
  pose proof (step_preserves ts ts_lexical m Hm) as Hs.
  pose proof (step_nearer m Hm) as Hn.
  destruct (step m) as [m'|r]; simpl in Hs, Hn.
  - apply IH; [exact Hs|lia].
  - eauto.
Qed.
End Termination.

(** X7: the parse of a list of lexical tokens always ends, with a value or
    with an exception, within 9 n + 2 iterations of the parse loop for n
    tokens. *)
Theorem parse_token_stream_ends (ts : list LexToken) :
  Forall (fun t => lexical t = true) ts ->
  exists r, parse_token_stream (9 * length ts + 2) ts = Some r.
Proof.
  intros Hlex. unfold parse_token_stream, yacc_parse.
  apply (run_ends ts Hlex).
  - apply initial_ok.
  - unfold measure, pending, potential. simpl. lia.
Qed.

Lemma parse_token_stream_ends_witness :
  exists r,
    parse_token_stream 29
      [mkTok "ID" (TStr "a") 1 0; literal "." 1; literal "." 2]
    = Some r.
Proof.
  apply (parse_token_stream_ends
           [mkTok "ID" (TStr "a") 1 0; literal "." 1; literal "." 2]).
  repeat constructor.
Defined.

(** ** What a parse returns is a tree *)

Lemma canonical_lexical (t : LexToken) :
  canonical t = true -> lexical t = true.
Proof.
  unfold canonical, lexical. intros Hc.
  apply andb_true_iff in Hc. destruct Hc as [Hc Hty].
  apply andb_true_iff in Hc. destruct Hc as [Hend Hnt].
  destruct (value t) as [s|n]; [reflexivity|]. simpl in Hty.
  destruct (String.eqb_spec (type t) "NUMBER") as [E|E]; [reflexivity|].
  exfalso. unfold typed in Hty.
  repeat match type of Hty with
         | (if String.eqb ?a ?b then _ else _) = true =>
             let K := fresh in
             destruct (String.eqb_spec a b) as [K|_];
             [first [ discriminate Hty
                    | rewrite K in Hnt; vm_compute in Hnt; discriminate Hnt
                    | discriminate Hend
                    | contradiction ]|]
         end.
  destruct (operator_text (type t)); simpl in Hty; discriminate Hty.
Qed.

Lemma chars_are_strs (s : string) : forallb is_str (chars s) = true.
Proof. induction s as [|c s IH]; simpl; auto. Qed.

(** Splits the body of a production into its symbols. *)
Ltac symbols body H :=
  repeat (destruct body as [|[? ? ? ?] body]; simpl in H;
          try discriminate H);
  repeat match goal with
         | K : _ :: _ = _ :: _ |- _ => injection K; clear K; intros
         end;
  subst.

(** Reads what each symbol of the body is known to be. *)
Ltac read_typed :=
  repeat match goal with
         | H : Forall _ (_ :: _) |- _ => inversion H; subst; clear H
         | H : Forall _ [] |- _ => clear H
         end;
  repeat match goal with
         | H : typed_sym (mkSym _ _ _ _) |- _ =>
             unfold typed_sym in H; cbn in H
         end;
  repeat match goal with
         | H : match ?v with _ => _ end = true |- _ =>
             destruct v; try discriminate H
         | H : String.eqb _ _ = true |- _ =>
             apply String.eqb_eq in H; subst
         | H : true = true |- _ => clear H
         | H : _ && _ = true |- _ =>
             apply andb_true_iff in H; destruct H
         end.

(** An action that returns, on symbols with values of their kinds, returns
    a value of the kind of its nonterminal. *)
Lemma actions_typed :
  Forall (fun p =>
            forall (s0 : YaccSymbol) (body : list YaccSymbol) (v : pyval),
              map sym_type body = prod p ->
              Forall typed_sym body ->
              func p (s0 :: body) = Return v ->
              typed (name p) v = true)
         (tl Productions).
Proof.
  cbv [Productions rules flat_map productions_of map app tl
       rule_alts rule_lhs rule_func].
  repeat (apply Forall_cons || apply Forall_nil);
    intros s0 body v Hmap Hall Hfun; simpl in Hmap; symbols body Hmap;
    read_typed.
  all: cbv [func p_jsonpath_binop p_jsonpath_fields p_jsonpath_root
            p_jsonpath_named_operator
            p_jsonpath_idx p_jsonpath_slice p_jsonpath_fieldbrackets
            p_jsonpath_child_fieldbrackets p_jsonpath_child_idxbrackets
            p_jsonpath_child_slicebrackets p_jsonpath_parens
            p_fields_id p_fields_comma p_idx p_slice_any p_slice
            p_maybe_int p_empty p_fields_or_any
            p_item p_lineno p_lexpos nth_error bind unpack py_add
            Slice_call odd_items py_eq_str] in Hfun; cbn in Hfun.
  all: repeat match type of Hfun with
              | context [if ?c then _ else _] => destruct c
              end.
  all: try discriminate Hfun.
  all: injection Hfun as <-; cbn;
    rewrite ?forallb_app, ?chars_are_strs;
    repeat match goal with
           | H : _ = true |- _ => rewrite H
           end;
    reflexivity.
Qed.

Lemma action_typed (n : nat) (p : Production) (s0 : YaccSymbol)
      (body : list YaccSymbol) (v : pyval) :
  nth_error Productions n = Some p -> n <> 0 ->
  map sym_type body = prod p ->
  Forall typed_sym body ->
  func p (s0 :: body) = Return v ->
  typed (name p) v = true.
Proof.
  intros Hp Hn. destruct n as [|n]; [congruence|].
  pose proof actions_typed as Hall. rewrite Forall_forall in Hall.
  apply Hall. unfold Productions in *. simpl in Hp |- *.
  exact (nth_error_In _ _ Hp).
Qed.

Lemma fill_lookahead_pending (m m' : @machine (list LexToken)) :
  fill_lookahead m = Return m' ->
  pending m' = pending m /\ symstack m' = symstack m.
Proof.
  destruct m as [[it] la sts syms]. unfold fill_lookahead, pending.
  simpl. destruct la as [|t|].
  - unfold token, next, list_iterator. simpl.
    destruct it as [|t r]; simpl; intros [= <-]; auto.
  - intros [= <-]. auto.
  - intros [= <-]. auto.
Qed.

Section Typed.
Variable ts : list LexToken.
Hypothesis ts_lexical : Forall (fun t => lexical t = true) ts.

Lemma reduce_typed (m : machine) (n : nat) :
  machine_ok ts m -> typed_ok m ->
  In (n, length (rhs n)) (items_of (hd 0 (statestack m))) ->
  n <> 0 -> n < length Productions ->
  typed_step (reduce m n).
Proof.
  intros (Hit & Hla & Hst) [Hsyms Hpend] Hin Hn Hlt. unfold reduce.
  destruct (nth_error Productions n) as [p|] eqn:Hp;
    [|apply nth_error_None in Hp; lia].
  assert (Hrhs : rhs n = prod p) by (unfold rhs; rewrite Hp; reflexivity).
  rewrite Hrhs in Hin.
  destruct (stack_spells ts _ _ _ _ Hst Hin) as (Hspell & _ & _ & _ & _).
  rewrite Hrhs, firstn_all in Hspell.
  rewrite <- (firstn_skipn (length (prod p)) (symstack m)) in Hsyms.
  apply Forall_app in Hsyms. destruct Hsyms as [Hfirst Hskip].
  destruct (func p _) as [v|e] eqn:Hf; [|exact I].
  destruct (skipn (length (prod p)) (statestack m)) as [|top rest];
    [exact I|].
  destruct (goto_of top (name p)) as [st|]; [|exact I].
  split; simpl.
  - apply Forall_cons; [|exact Hskip].
    exact (action_typed n p _ _ v Hp Hn Hspell (Forall_rev Hfirst) Hf).
  - exact Hpend.
Qed.

Lemma step_typed (m : machine) :
  machine_ok ts m -> typed_ok m -> typed_step (step m).
Proof.
  intros Hm Ht. unfold step.
  destruct Hm as (Hit & Hla & Hst).
  destruct (stack_ok_top _ _ _ Hst) as (state & rest & Htop).
  rewrite Htop.
  assert (Hm : machine_ok ts m) by (repeat split; assumption).
  destruct (defaulted_state state) as [[j|n| |]|] eqn:Hd.
  2: { destruct (defaulted_reduce_ok _ _ Hd) as (Hin & Hn0 & Hlt).
       apply reduce_typed; auto. rewrite Htop. exact Hin. }
  all: destruct (fill_lookahead_ok ts m Hm)
    as (m' & Hfill & Hm' & Hnl & Hss & Hsy).
  all: destruct (fill_lookahead_pending m m' Hfill) as [Hpend _].
  all: assert (Ht' : typed_ok m')
    by (destruct Ht as [Ht1 Ht2]; split; [rewrite Hsy|rewrite Hpend];
        assumption).
  all: rewrite Hfill; unfold apply_action.
  all: destruct (action_of state (lookahead_type (lookahead m')))
    as [[j'|n'| |]|] eqn:Ha; try exact I.
  all: try (destruct (action_reduce_ok _ _ _ Ha) as (Hin & Hn0 & Hlt);
            apply (reduce_typed m' n'); auto;
            rewrite Hss, Htop; exact Hin).
  all: try (destruct (action_shift_ok _ _ _ Ha) as (Htr & Hterm & Hend);
            destruct Ht' as [Ht1 Ht2]; unfold pending in Ht2;
            destruct (lookahead m') as [|t|] eqn:El; simpl in *;
            try congruence;
            inversion Ht2 as [|x l Hx Hl]; subst;
            split; simpl; [|exact Hl];
            apply Forall_cons; [|exact Ht1];
            unfold canonical in Hx; apply andb_true_iff in Hx;
            exact (proj2 Hx)).
  all: pose proof (action_accept_ok _ _ Ha) as Hend.
  all: rewrite Hend in Ha.
  all: destruct Hm' as (_ & _ & Hst').
  all: assert (Hacc : action_of (hd 0 (statestack m')) "$end" = Some Accept)
    by (rewrite Hss, Htop; exact Ha).
  all: destruct (accepting_stack ts _ _ Hst' Hacc) as (X & Hsts & Hsyms).
  all: rewrite Hsyms; simpl.
  all: rewrite Hsts, Hsyms in Hst'.
  all: inversion Hst' as [|s s' sts0 X0 syms0 Hok0 Htr0 HX0]; subst.
  all: destruct (transition_target _ _ _ Htr0) as [_ H1].
  all: destruct (H1 eq_refl) as [_ Hjp].
  all: destruct Ht' as [Ht1 _]; rewrite Hsyms in Ht1.
  all: inversion Ht1 as [|x l Hx Hl]; subst.
  all: unfold typed_sym in Hx; rewrite Hjp in Hx; exact Hx.
Qed.

Lemma run_typed (fuel : nat) (m : machine) (v : pyval) :
  machine_ok ts m -> typed_ok m ->
  run fuel m = Some (Return v) -> is_tree v = true.
Proof.
  revert m. induction fuel as [|fuel IH]; intros m Hm Ht; simpl.
  - discriminate.
  - pose proof (step_preserves ts ts_lexical m Hm) as Hs.
    pose proof (step_typed m Hm Ht) as Hs'.
    destruct (step m) as [m'|r]; simpl in Hs, Hs'.
    + apply IH; assumption.
    + intros [= ->]. exact Hs'.
Qed.
End Typed.

(** X8: when every token is canonical (a NUMBER carries an int, the token
    of a binary operator the operator's text, any other token a str), a
    parse that returns, returns a tree: a value built from the node
    constructors, with strs as field names, an int as index and ints or
    None in a slice; never None, a str or a list. *)
Theorem parse_returns_tree (ts : list LexToken) (v : pyval) :
  Forall (fun t => canonical t = true) ts ->
  parses_to ts (Return v) ->
  is_tree v = true.
Proof.
  intros Hcan [fuel Hrun].
  assert (Hlex : Forall (fun t => lexical t = true) ts).
  { revert Hcan. apply Forall_impl. exact canonical_lexical. }
  apply (run_typed ts Hlex fuel (initial (mkStream ts)) v).
  - apply initial_ok.
  - split; simpl.
    + repeat constructor.
    + exact Hcan.
  - exact Hrun.
Qed.

Lemma parse_returns_tree_witness :
  is_tree (Where (Fields [VStr "a"]) (Fields [VStr "b"])) = true.
Proof.
  apply (parse_returns_tree
           [mkTok "ID" (TStr "a") 1 0; mkTok "WHERE" (TStr "where") 1 2;
            mkTok "ID" (TStr "b") 1 8]).
  - repeat constructor.
  - exists 16. vm_compute. reflexivity.
Defined.

(** ** An expression between parentheses *)

Lemma check_inner_ok : check_inner = true.
Proof. vm_compute. reflexivity. Qed.

Lemma action_outer (a : string) : action_of 6 a = action_of 0 a.
Proof. reflexivity. Qed.

Lemma lookup_map {A B : Type} (f : A -> B) (k : string)
      (d : list (string * A)) :
  lookup k (map (fun e => (fst e, f (snd e))) d) = option_map f (lookup k d).
Proof.
  induction d as [|[k' v] d IH]; simpl; [reflexivity|].
  destruct (String.eqb k' k); [reflexivity|exact IH].
Qed.

Lemma goto_outer (x : string) : goto_of 6 x = option_map inner (goto_of 0 x).
Proof.
  unfold goto_of.
  change (nth_error lr_goto 6)
    with (Some (map (fun e : string * nat => (fst e, inner (snd e)))
                    (row_of lr_goto 0))).
  change (nth_error lr_goto 0) with (Some (row_of lr_goto 0)).
  cbv beta iota. apply lookup_map.
Qed.

Lemma action_inner (s : nat) (a : string) (act : action) :
  a <> "$end" ->
  action_of s a = Some act -> action_of (inner s) a = Some act.
Proof.
  intros Ha Hact. unfold inner.
  destruct (Nat.eqb_spec s 1) as [->|_]; [|exact Hact].
  pose proof check_inner_ok as Hc. unfold check_inner in Hc.
  apply andb_true_iff in Hc. destruct Hc as [Hc _].
  rewrite forallb_forall in Hc.
  unfold action_of in Hact.
  destruct (nth_error lr_action 1) as [row|] eqn:Hrow; [|discriminate].
  apply lookup_In in Hact.
  rewrite (row_of_nth _ _ _ Hrow) in Hc. specialize (Hc _ Hact).
  simpl in Hc. apply orb_true_iff in Hc. destruct Hc as [Hc|Hc].
  - apply String.eqb_eq in Hc. contradiction.
  - destruct (action_of 23 a) as [[j|n| |]|]; destruct act;
      try discriminate Hc; apply Nat.eqb_eq in Hc; subst; reflexivity.
Qed.

Lemma defaulted_inner (s : nat) : defaulted_state (inner s) = defaulted_state s.
Proof.
  unfold inner. destruct (Nat.eqb_spec s 1) as [->|_]; reflexivity.
Qed.

(** A transition over a nonterminal from a state other than the initial one
    does not lead to state 1, and does not start in state 1. *)
Lemma goto_inner (s g : nat) (x : string) :
  s <> 0 -> is_nonterminal x = true ->
  goto_of s x = Some g -> transition s x = Some g ->
  goto_of (inner s) x = Some (inner g).
Proof.
  intros Hs Hx Hg Htr. unfold inner at 1.
  destruct (Nat.eqb_spec s 1) as [->|_].
  - exfalso.
    pose proof check_inner_ok as Hc. unfold check_inner in Hc.
    apply andb_true_iff in Hc. destruct Hc as [_ Hc].
    rewrite forallb_forall in Hc.
    unfold transition in Htr.
    destruct (nth_error lr0_transitions 1) as [row|] eqn:Hrow; [|discriminate].
    apply lookup_In in Htr.
    rewrite (row_of_nth _ _ _ Hrow) in Hc. specialize (Hc _ Htr).
    simpl in Hc. rewrite Hx in Hc. discriminate Hc.
  - destruct (transition_target _ _ _ Htr) as [_ H1].
    unfold inner. destruct (Nat.eqb_spec g 1) as [->|_]; [|exact Hg].
    destruct (H1 eq_refl) as [E _]. contradiction.
Qed.

(** A shift does not lead to state 1. *)
Lemma shift_inner (s j : nat) (a : string) :
  action_of s a = Some (Shift j) -> inner j = j.
Proof.
  intros Ha. destruct (action_shift_ok _ _ _ Ha) as (Htr & Hterm & _).
  unfold inner. destruct (Nat.eqb_spec j 1) as [->|_]; [|reflexivity].
  destruct (transition_target _ _ _ Htr) as [_ H1].
  destruct (H1 eq_refl) as [_ ->]. discriminate Hterm.
Qed.

(** The stacks of a well-formed machine: state 0 and the end marker at the
    bottom, and no state 0 above. *)
Lemma stack_shape (ts : list LexToken) (sts0 : list nat)
      (syms0 : list YaccSymbol) :
  stack_ok ts sts0 syms0 ->
  exists sts syms,
    sts0 = (sts ++ [0])%list
    /\ syms0 = (syms ++ [mkSym "$end" VNone 0 0])%list
    /\ length sts = length syms
    /\ Forall (fun s => s <> 0) sts.
Proof.
  induction 1 as [|s s' sts X syms Hok IH Htr HX].
  - exists [], []. repeat split; auto.
  - destruct IH as (sts1 & syms1 & E1 & E2 & Hlen & Hnz).
    exists (s' :: sts1), (X :: syms1). rewrite E1, E2. simpl.
    repeat split; auto.
    apply Forall_cons; [|exact Hnz].
    exact (proj1 (transition_target _ _ _ Htr)).
Qed.

Lemma firstn_app_le {A : Type} (k : nat) (l l' : list A) :
  k <= length l -> firstn k (l ++ l') = firstn k l.
Proof.
  intros Hk. rewrite firstn_app.
  replace (k - length l) with 0 by lia. simpl. apply app_nil_r.
Qed.

Lemma skipn_app_le {A : Type} (k : nat) (l l' : list A) :
  k <= length l -> skipn k (l ++ l') = (skipn k l ++ l')%list.
Proof.
  intros Hk. rewrite skipn_app.
  replace (k - length l) with 0 by lia. reflexivity.
Qed.

(** One iteration of the loop, by the top state. *)
Lemma step_top {I : Type} `{Iterator I LexToken} (m : @machine I) :
  statestack m <> [] ->
  step m
  = match defaulted_state (hd 0 (statestack m)) with
    | Some (Reduce n) => reduce m n
    | _ =>
        match fill_lookahead m with
        | Raise e => Done (Raise e)
        | Return m' => apply_action (hd 0 (statestack m)) m'
        end
    end.
Proof.
  unfold step. destruct (statestack m); [congruence|reflexivity].
Qed.

(** In a state that is not defaulted, a machine without lookahead does what
    the machine that has read it does. *)
Lemma step_read_end (lx : IteratorToTokenStream (list LexToken))
      (sts : list nat) (syms : list YaccSymbol) :
  iterator lx = [] -> defaulted_state (hd 0 sts) = None ->
  step (mkMachine lx NoLookahead sts syms)
  = step (mkMachine (mkStream []) EndMarker sts syms).
Proof.
  intros Hit Hd. destruct lx as [it]. simpl in Hit. subst it.
  unfold step. simpl. destruct sts as [|s r]; [reflexivity|].
  simpl in Hd. rewrite Hd. reflexivity.
Qed.

Lemma step_read_token (lx : IteratorToTokenStream (list LexToken))
      (t : LexToken) (toks : list LexToken)
      (sts : list nat) (syms : list YaccSymbol) :
  iterator lx = t :: toks -> defaulted_state (hd 0 sts) = None ->
  step (mkMachine lx NoLookahead sts syms)
  = step (mkMachine (mkStream toks) (Tok t) sts syms).
Proof.
  intros Hit Hd. destruct lx as [it]. simpl in Hit. subst it.
  unfold step. simpl. destruct sts as [|s r]; [reflexivity|].
  simpl in Hd. rewrite Hd. reflexivity.
Qed.

Section EnclosedBy.
Variable ts : list LexToken.
Variable rp : LexToken.
Variable rest : list LexToken.
Variable sts0 : list nat.
Variable syms0 : list YaccSymbol.
Hypothesis type_rp : type rp = ")".

(** The top states of the two machines. *)
Lemma top_defaulted (sts : list nat) :
  defaulted_state (hd 0 (map inner sts ++ 6 :: sts0))
  = defaulted_state (hd 0 (sts ++ [0])).
Proof. destruct sts as [|s r]; simpl; [reflexivity|apply defaulted_inner]. Qed.

Lemma top_action (sts : list nat) (a : string) (act : action) :
  a <> "$end" ->
  action_of (hd 0 (sts ++ [0])) a = Some act ->
  action_of (hd 0 (map inner sts ++ 6 :: sts0)) a = Some act.
Proof.
  intros Ha. destruct sts as [|s r]; simpl.
  - rewrite action_outer. auto.
  - apply action_inner. exact Ha.
Qed.

Lemma top_reduce_at_end (sts : list nat) (n : nat) :
  defaulted_state (hd 0 (sts ++ [0])) = None ->
  action_of (hd 0 (sts ++ [0])) "$end" = Some (Reduce n) ->
  action_of (hd 0 (map inner sts ++ 6 :: sts0)) ")" = Some (Reduce n).
Proof.
  destruct sts as [|s r]; simpl.
  - intros _ Ha. discriminate Ha.
  - intros Hd Ha. unfold inner.
    destruct (Nat.eqb_spec s 1) as [->|_]; [discriminate Ha|].
    exact (reduced_alike_spec ")" s n reduced_alike_paren Hd Ha).
Qed.

(** Both machines reduce alike. *)
Lemma reduce_enclosed (lx1 lx2 : IteratorToTokenStream (list LexToken))
      (la1 la2 : lookahead_t) (sts : list nat) (syms : list YaccSymbol)
      (n : nat) :
  stack_ok ts (sts ++ [0]) (syms ++ [mkSym "$end" VNone 0 0]) ->
  In (n, length (rhs n)) (items_of (hd 0 (sts ++ [0]))) ->
  n <> 0 ->
  match reduce (mkMachine lx1 la1 (sts ++ [0])
                          (syms ++ [mkSym "$end" VNone 0 0])) n with
  | Continue m1' =>
      exists sts' syms',
        m1' = mkMachine lx1 la1 (sts' ++ [0])
                        (syms' ++ [mkSym "$end" VNone 0 0])
        /\ reduce (mkMachine lx2 la2 (map inner sts ++ 6 :: sts0)
                             (syms ++ syms0)) n
           = Continue (mkMachine lx2 la2 (map inner sts' ++ 6 :: sts0)
                                 (syms' ++ syms0))
  | Done (Return _) => False
  | Done (Raise _) => True
  end.
Proof.
  intros Hst Hin Hn. unfold reduce. simpl.
  destruct (nth_error Productions n) as [p|] eqn:Hp; [|exact I].
  assert (Hrhs : rhs n = prod p) by (unfold rhs; rewrite Hp; reflexivity).
  assert (Hlhs : lhs n = name p) by (unfold lhs; rewrite Hp; reflexivity).
  rewrite Hrhs in Hin.
  destruct (stack_spells ts _ _ _ _ Hst Hin)
    as (_ & _ & _ & Hrest & Hinit).
  set (k := length (prod p)) in *.
  assert (Hlen : length sts = length syms).
  { apply stack_ok_length in Hst. rewrite !length_app in Hst. simpl in Hst.
    lia. }
  assert (Hk : k <= length sts).
  { destruct (Nat.le_gt_cases k (length sts)) as [Hle|Hgt]; [exact Hle|].
    exfalso. destruct (stack_ok_top ts _ _ Hrest) as (s & r & E).
    rewrite skipn_all2 in E; [discriminate E|].
    rewrite length_app. simpl. lia. }
  rewrite (firstn_app_le k syms); [|lia].
  rewrite (firstn_app_le k syms syms0); [|lia].
  rewrite (skipn_app_le k syms); [|lia].
  rewrite (skipn_app_le k syms syms0); [|lia].
  rewrite (skipn_app_le k sts); [|lia].
  rewrite (skipn_app_le k (map inner sts)); [|rewrite length_map; lia].
  rewrite skipn_map.
  rewrite (skipn_app_le k sts) in Hrest, Hinit; [|lia|lia].
  rewrite (skipn_app_le k syms) in Hrest; [|lia].
  destruct (func p _) as [v|e]; [|exact I].
  destruct (skipn k sts) as [|s r] eqn:Esk; simpl in *.
  - rewrite goto_outer.
    destruct (goto_of 0 (name p)) as [g|]; [|exact I]. simpl.
    exists [g], (mkSym (name p) v 0 0 :: skipn k syms). split; reflexivity.
  - destruct (stack_shape ts _ _ Hrest) as (sts1 & syms1 & E1 & _ & _ & Hnz).
    change (s :: (r ++ [0])%list) with ((s :: r) ++ [0])%list in E1.
    apply app_inj_tail in E1. destruct E1 as [<- _].
    inversion Hnz as [|s' r' Hs Hr]; subst.
    destruct (goto_ok _ _ Hinit Hn) as (j & Hgoto & Htr).
    rewrite Hlhs in Hgoto, Htr. rewrite Hgoto.
    rewrite (goto_inner s j (name p) Hs
               (production_nonterminal _ _ Hp Hn) Hgoto Htr).
    exists (j :: s :: r), (mkSym (name p) v 0 0 :: skipn k syms).
    split; reflexivity.
Qed.

Lemma enclosed_stacks (lx1 lx2 : IteratorToTokenStream (list LexToken))
      (la1 la2 : lookahead_t) (S1 S2 : list nat) (Y1 Y2 : list YaccSymbol)
      (sts' : list nat) (syms' : list YaccSymbol) :
  enclosed rp rest sts0 syms0 (mkMachine lx1 la1 S1 Y1)
           (mkMachine lx2 la2 S2 Y2) ->
  enclosed rp rest sts0 syms0
           (mkMachine lx1 la1 (sts' ++ [0])
                      (syms' ++ [mkSym "$end" VNone 0 0]))
           (mkMachine lx2 la2 (map inner sts' ++ 6 :: sts0)
                      (syms' ++ syms0)).
Proof.
  assert (Hw : forall l1 l2 a1 a2,
             wraps sts0 syms0
                   (mkMachine l1 a1 (sts' ++ [0])
                              (syms' ++ [mkSym "$end" VNone 0 0]))
                   (mkMachine l2 a2 (map inner sts' ++ 6 :: sts0)
                              (syms' ++ syms0))).
  { intros. exists sts', syms'. simpl. auto. }
  intros [_ Hl Hne Hit Hp|_ Hl1 Hi1 Hl2 Hi2]; simpl in *.
  - apply enclosed_before; simpl; auto.
  - apply enclosed_after; simpl; auto.
Qed.

Lemma reduce_enclosed_step
      (lx1 lx2 : IteratorToTokenStream (list LexToken))
      (la1 la2 : lookahead_t) (sts : list nat) (syms : list YaccSymbol)
      (n : nat) :
  stack_ok ts (sts ++ [0]) (syms ++ [mkSym "$end" VNone 0 0]) ->
  In (n, length (rhs n)) (items_of (hd 0 (sts ++ [0]))) ->
  n <> 0 ->
  enclosed rp rest sts0 syms0
           (mkMachine lx1 la1 (sts ++ [0])
                      (syms ++ [mkSym "$end" VNone 0 0]))
           (mkMachine lx2 la2 (map inner sts ++ 6 :: sts0)
                      (syms ++ syms0)) ->
  enclosed_step rp rest sts0 syms0
    (reduce (mkMachine lx1 la1 (sts ++ [0])
                       (syms ++ [mkSym "$end" VNone 0 0])) n)
    (reduce (mkMachine lx2 la2 (map inner sts ++ 6 :: sts0)
                       (syms ++ syms0)) n).
Proof.
  intros Hst Hin Hn Henc.
  pose proof (reduce_enclosed lx1 lx2 la1 la2 sts syms n Hst Hin Hn) as Hr.
  destruct (reduce (mkMachine lx1 la1 _ _) n) as [m1'|[v|e]]; simpl.
  - destruct Hr as (sts' & syms' & -> & ->).
    eexists. split; [reflexivity|].
    exact (enclosed_stacks _ _ _ _ _ _ _ _ sts' syms' Henc).
  - contradiction.
  - exact I.
Qed.

(** With the same token as lookahead, both machines act alike. *)
Lemma step_enclosed_token
      (lx1 lx2 : IteratorToTokenStream (list LexToken)) (t : LexToken)
      (sts : list nat) (syms : list YaccSymbol) :
  stack_ok ts (sts ++ [0]) (syms ++ [mkSym "$end" VNone 0 0]) ->
  defaulted_state (hd 0 (sts ++ [0])) = None ->
  iterator lx2 = (iterator lx1 ++ rp :: rest)%list ->
  Forall not_end (t :: iterator lx1) ->
  enclosed_step rp rest sts0 syms0
    (step (mkMachine lx1 (Tok t) (sts ++ [0])
                     (syms ++ [mkSym "$end" VNone 0 0])))
    (step (mkMachine lx2 (Tok t) (map inner sts ++ 6 :: sts0)
                     (syms ++ syms0))).
Proof.
  intros Hst Hd Hit Hp.
  assert (Henc : enclosed rp rest sts0 syms0
                   (mkMachine lx1 (Tok t) (sts ++ [0])
                              (syms ++ [mkSym "$end" VNone 0 0]))
                   (mkMachine lx2 (Tok t) (map inner sts ++ 6 :: sts0)
                              (syms ++ syms0))).
  { apply enclosed_before; simpl; auto; [|discriminate].
    exists sts, syms. auto. }
  rewrite !step_top; simpl;
    [|destruct sts; discriminate|destruct sts; discriminate].
  rewrite top_defaulted, Hd. unfold fill_lookahead, apply_action. simpl.
  inversion Hp as [|x l Hx Hl]; subst.
  destruct (action_of (hd 0 (sts ++ [0])) (type t)) as [[j|n| |]|] eqn:Ha;
    try exact I.
  - rewrite (top_action sts (type t) _ Hx Ha). simpl.
    eexists. split; [reflexivity|].
    apply enclosed_before; simpl; auto; [|discriminate].
    exists (j :: sts), (sym_of_token t :: syms). simpl.
    rewrite (shift_inner _ _ _ Ha). auto.
  - rewrite (top_action sts (type t) _ Hx Ha).
    destruct (action_reduce_ok _ _ _ Ha) as (Hin & Hn0 & _).
    apply reduce_enclosed_step; assumption.
  - apply action_accept_ok in Ha. contradiction.
Qed.

(** At the end of its input the first machine reduces or accepts; the
    second, looking at [rp], reduces alike, and where the first accepts it
    is the closing machine. *)
Lemma step_enclosed_end
      (lx1 : IteratorToTokenStream (list LexToken))
      (sts : list nat) (syms : list YaccSymbol) :
  stack_ok ts (sts ++ [0]) (syms ++ [mkSym "$end" VNone 0 0]) ->
  defaulted_state (hd 0 (sts ++ [0])) = None ->
  iterator lx1 = [] ->
  enclosed_step rp rest sts0 syms0
    (step (mkMachine lx1 EndMarker (sts ++ [0])
                     (syms ++ [mkSym "$end" VNone 0 0])))
    (step (mkMachine (mkStream rest) (Tok rp)
                     (map inner sts ++ 6 :: sts0) (syms ++ syms0))).
Proof.
  intros Hst Hd Hit.
  rewrite (step_top (mkMachine lx1 _ _ _)); simpl;
    [|destruct sts; discriminate].
  rewrite Hd. unfold fill_lookahead, apply_action at 1. simpl.
  destruct (action_of (hd 0 (sts ++ [0])) "$end") as [[j|n| |]|] eqn:Ha;
    try exact I.
  - destruct (action_shift_ok _ _ _ Ha) as (_ & _ & Hne). contradiction.
  - rewrite step_top; simpl; [|destruct sts; discriminate].
    rewrite top_defaulted, Hd. unfold fill_lookahead, apply_action. simpl.
    rewrite type_rp, (top_reduce_at_end sts n Hd Ha).
    destruct (action_reduce_ok _ _ _ Ha) as (Hin & Hn0 & _).
    apply reduce_enclosed_step; try assumption.
    apply enclosed_after; simpl; auto.
    exists sts, syms. auto.
  - destruct (accepting_stack ts _ _ Hst Ha) as (X & Hsts & Hsyms).
    change [1; 0] with ([1] ++ [0])%list in Hsts.
    change [X; mkSym "$end" VNone 0 0]
      with ([X] ++ [mkSym "$end" VNone 0 0])%list in Hsyms.
    apply app_inj_tail in Hsts. destruct Hsts as [-> _].
    apply app_inj_tail in Hsyms. destruct Hsyms as [-> _].
    simpl. exists X. split; reflexivity.
Qed.

Lemma step_enclosed (m1 m2 : machine) :
  machine_ok ts m1 ->
  enclosed rp rest sts0 syms0 m1 m2 ->
  enclosed_step rp rest sts0 syms0 (step m1) (step m2).
Proof.
  intros (_ & _ & Hst) Henc.
  destruct m1 as [lx1 la1 S1 Y1], m2 as [lx2 la2 S2 Y2].
  assert (Hw : wraps sts0 syms0 (mkMachine lx1 la1 S1 Y1)
                     (mkMachine lx2 la2 S2 Y2))
    by (destruct Henc; assumption).
  destruct Hw as (sts & syms & E1 & E2 & E3 & E4). simpl in *. subst.
  destruct (defaulted_state (hd 0 (sts ++ [0]))) as [a|] eqn:Hd.
  { rewrite !step_top; simpl;
      [|destruct sts; discriminate|destruct sts; discriminate].
    rewrite top_defaulted, Hd.
    destruct (defaulted_is_reduce _ _ Hd) as [n ->].
    destruct (defaulted_reduce_ok _ _ Hd) as (Hin & Hn0 & _).
    apply reduce_enclosed_step; assumption. }
  assert (Hd2 : defaulted_state (hd 0 (map inner sts ++ 6 :: sts0)) = None)
    by (rewrite top_defaulted; exact Hd).
  destruct Henc as [_ Hl Hne Hit Hp|_ Hl1 Hi1 Hl2 Hi2]; simpl in *.
  - subst la2. destruct la1 as [|t|]; [| |contradiction].
    + unfold pending in Hp. simpl in Hp.
      destruct (iterator lx1) as [|x r] eqn:Ei.
      * rewrite (step_read_end lx1 _ _ Ei Hd).
        rewrite (step_read_token lx2 rp rest _ _ Hit Hd2).
        apply step_enclosed_end; auto.
      * rewrite (step_read_token lx1 x r _ _ Ei Hd).
        rewrite (step_read_token lx2 x (r ++ rp :: rest) _ _ Hit Hd2).
        apply step_enclosed_token; auto.
    + apply step_enclosed_token; auto.
  - subst la1 la2. destruct lx2 as [it2]. simpl in Hi2. subst it2.
    apply step_enclosed_end; auto.
Qed.

(** If the first machine returns a tree, the second gets to the machine
    that holds this tree above the '(' and looks at [rp]. *)
Lemma run_enclosed (ts_lexical : Forall (fun t => lexical t = true) ts)
      (fuel : nat) (m1 m2 : machine) (v : pyval) :
  machine_ok ts m1 ->
  enclosed rp rest sts0 syms0 m1 m2 ->
  run fuel m1 = Some (Return v) ->
  exists X,
    sym_value X = v /\ steps_to m2 (closing rp rest sts0 syms0 X).
Proof.
  revert m1 m2.
  induction fuel as [|fuel IH]; intros m1 m2 Hok Hrel; simpl.
  - discriminate.
  - pose proof (step_enclosed m1 m2 Hok Hrel) as Hsim.
    pose proof (step_preserves ts ts_lexical m1 Hok) as Hpres.
    destruct (step m1) as [m1'|[v'|e]]; simpl in Hsim, Hpres.
    + destruct Hsim as (m2' & Hs2 & Hrel'). intros Hrun.
      destruct (IH m1' m2' Hpres Hrel' Hrun) as (X & HX & Hsteps).
      exists X. split; [exact HX|].
      eapply steps_to_trans; [apply steps_to_step; exact Hs2|exact Hsteps].
    + intros [= ->]. destruct Hsim as (X & HX & Hs2).
      exists X. split; [exact HX|].
      exists 0. intros [|k]; [reflexivity|]. simpl. rewrite Hs2. reflexivity.
    + discriminate.
Qed.
End EnclosedBy.

(** An expression after a '(' that stands where an expression can start:
    the machine gets to the point where the expression's tree is above the
    '(' and the token after the expression is the lookahead. *)
Lemma expression_enclosed (ts : list LexToken) (rp : LexToken)
      (rest : list LexToken) (sts0 : list nat) (syms0 : list YaccSymbol)
      (v : pyval) :
  type rp = ")" ->
  Forall (fun t => lexical t = true) ts ->
  Forall not_end ts ->
  parses_to ts (Return v) ->
  exists X,
    sym_value X = v
    /\ steps_to (mkMachine (mkStream (ts ++ rp :: rest)%list) NoLookahead
                           (6 :: sts0) syms0)
                (closing rp rest sts0 syms0 X).
Proof.
  intros Hrp Hlex Hne [fuel Hrun].
  apply (run_enclosed ts rp rest sts0 syms0 Hrp Hlex fuel
           (initial (mkStream ts))).
  - apply initial_ok.
  - apply enclosed_before; simpl; auto; [|discriminate].
    exists [], []. simpl. auto.
  - exact Hrun.
Qed.

(** X9: parentheses around a whole expression change nothing: when a
    list of tokens parses to a tree, the same tokens between a '(' and a
    ')' token parse to the same tree. *)
Theorem parentheses_keep_the_tree
        (ts : list LexToken) (v : pyval) (lp rp : LexToken) :
  Forall (fun t => lexical t = true) ts ->
  Forall not_end ts ->
  parses_to ts (Return v) ->
  type lp = "(" -> type rp = ")" ->
  parses_to (lp :: ts ++ [rp])%list (Return v).
Proof.
  intros Hlex Hne Hparse Hlp Hrp.
  destruct (expression_enclosed ts rp [] [0]
              [sym_of_token lp; mkSym "$end" VNone 0 0] v
              Hrp Hlex Hne Hparse) as (X & <- & Hsteps).
  eapply steps_to_ends.
  - apply steps_to_step. kinds. reflexivity.
  - eapply steps_to_ends; [exact Hsteps|].
    exists 3. kinds. reflexivity.
Qed.

Lemma parentheses_witness :
  parses_to (literal "(" 0
               :: [mkTok "ID" (TStr "a") 1 1; literal "|" 2;
                   mkTok "ID" (TStr "b") 1 3] ++ [literal ")" 4])%list
    (Return (Union (Fields [VStr "a"]) (Fields [VStr "b"]))).
Proof.
  apply (parentheses_keep_the_tree
           [mkTok "ID" (TStr "a") 1 1; literal "|" 2;
            mkTok "ID" (TStr "b") 1 3]
           (Union (Fields [VStr "a"]) (Fields [VStr "b"]))
           (literal "(" 0) (literal ")" 4)).
  - repeat constructor.
  - repeat constructor; discriminate.
  - exists 16. vm_compute. reflexivity.
  - reflexivity.
  - reflexivity.
Defined.

(** ** Expressions as chains *)

Lemma collapse_erase (lvl : nat) (frames : list frame) (v : pyval) :
  collapse lvl (map erase frames) v
  = (map erase (fst (collapse_frames lvl frames v)),
     snd (collapse_frames lvl frames v)).
Proof.
  revert v. induction frames as [|[[l o] t] frames IH]; intros v; simpl.
  - reflexivity.
  - destruct (Nat.leb lvl (op_level o)); [apply IH|reflexivity].
Qed.

Lemma collapse_frames_ok (lvl : nat) (frames : list frame) (v : pyval) :
  Forall frame_ok frames ->
  Forall frame_ok (fst (collapse_frames lvl frames v)).
Proof.
  revert v. induction frames as [|[[l o] t] frames IH]; intros v Hok; simpl.
  - constructor.
  - destruct (Nat.leb lvl (op_level o)); [|exact Hok].
    apply IH. inversion Hok. assumption.
Qed.

(** What is left waiting is below the level that collapsed the rest. *)
Lemma collapse_frames_below (lvl : nat) (frames : list frame) (v : pyval) :
  below lvl (fst (collapse_frames lvl frames v)).
Proof.
  revert v. induction frames as [|[[l o] t] frames IH]; intros v; simpl.
  - exact I.
  - destruct (Nat.leb lvl (op_level o)) eqn:E; [apply IH|exact E].
Qed.

Lemma collapse_frames_zero (frames : list frame) (v : pyval) :
  fst (collapse_frames 0 frames v) = [].
Proof.
  revert v. induction frames as [|[[l o] t] frames IH]; intros v; simpl.
  - reflexivity.
  - apply IH.
Qed.

Lemma level_of_terminal (o : binop) : level_of (op_terminal o) = op_level o.
Proof. destruct o; reflexivity. Qed.

Lemma operator_follows (o : binop) : In (op_terminal o) operand_followers.
Proof. destruct o; simpl; auto 10. Qed.

Lemma after_operand_field (la : lookahead_t) :
  after_operand la -> after_field la.
Proof.
  destruct la as [|x|]; simpl; auto; intuition.
Qed.

(** Opens frames and what is known of them, then makes the kind of every
    token a term. *)
Ltac frames_cases :=
  repeat match goal with
         | f : frame |- _ => destruct f as [[? ?] ?]
         | H : frame_ok _ |- _ => destruct H
         | H : Forall frame_ok (_ :: _) |- _ => inversion H; subst; clear H
         end;
  kinds.

(** One case for each operator in sight, at the start or after one. *)
Ltac operators :=
  repeat match goal with
         | c : option binop |- _ => destruct c as [?|]
         | o : binop |- _ => destruct o
         end.

(** The waiting operator on top is closed: one reduction. *)
Lemma close_frame (f : frame) (frames : list frame) (v : pyval)
      (la : lookahead_t) (toks : list LexToken) :
  Forall frame_ok (f :: frames) ->
  after_operand la ->
  Nat.leb (lookahead_level la) (op_level (snd (fst f))) = true ->
  steps_to (at_operand (f :: frames) v la toks)
           (at_operand frames (op_node (snd (fst f)) (fst (fst f)) v)
                       la toks).
Proof.
  intros Hok Hla Hlvl.
  destruct la as [|x|]; simpl in Hla; [contradiction| |].
  - simpl in Hlvl. unfold after_operand in Hla.
    follow_cases Hla; rewrite <- Hla in Hlvl;
      (destruct frames as [|g frames]; frames_cases; operators;
       vm_compute in Hlvl; try discriminate Hlvl; walk 1).
  - clear Hlvl.
    destruct frames as [|g frames]; frames_cases; operators; walk 1.
Qed.

(** Every waiting operator of the lookahead's level or higher is closed. *)
Lemma collapse_steps (la : lookahead_t) (toks : list LexToken)
      (frames : list frame) :
  after_operand la ->
  forall v : pyval,
    Forall frame_ok frames ->
    steps_to (at_operand frames v la toks)
             (at_operand (fst (collapse_frames (lookahead_level la) frames v))
                         (snd (collapse_frames (lookahead_level la) frames v))
                         la toks).
Proof.
  intros Hla. induction frames as [|f frames IH]; intros v Hok; simpl.
  - apply steps_to_refl.
  - destruct (Nat.leb (lookahead_level la) (op_level (snd (fst f)))) eqn:E.
    + eapply steps_to_trans.
      * exact (close_frame f frames v la toks Hok Hla E).
      * apply IH. inversion Hok. assumption.
    + apply steps_to_refl.
Qed.

(** The operator is shifted. *)
Lemma shift_operator (frames : list frame) (v : pyval) (o : binop)
      (t_o : LexToken) (toks : list LexToken) :
  Forall frame_ok frames ->
  type t_o = op_terminal o ->
  below (op_level o) frames ->
  steps_to (at_operand frames v (Tok t_o) toks)
           (mkMachine (mkStream toks) NoLookahead
                      (op_state o :: top_state frames :: states_below frames)
                      (sym_of_token t_o :: mkSym "jsonpath" v 0 0
                         :: symbols_below frames)).
Proof.
  intros Hok Hty Hbelow.
  destruct frames as [|g frames]; simpl in Hbelow;
    frames_cases; operators; vm_compute in Hbelow;
    try discriminate Hbelow; walk 1.
Qed.

(** *** Operands *)

(** A field list where an operand can start becomes a tree. *)
Lemma fields_reduced (c : option binop) (vals : list pyval)
      (toks : list LexToken) (sts : list nat) (syms : list YaccSymbol) :
  after_operand (fst (read toks)) ->
  steps_to (at_fields (base c) 7 vals (fst (read toks)) (snd (read toks))
                      sts syms)
           (mkMachine (mkStream (snd (read toks))) (fst (read toks))
                      (above c :: base c :: sts)
                      (mkSym "jsonpath" (Fields vals) 0 0 :: syms)).
Proof.
  intros Hla. destruct toks as [|y toks]; simpl in *.
  - operators; walk 2.
  - unfold after_operand in Hla. follow_cases Hla; operators; kinds; walk 2.
Qed.

(** The token that opens a bracket or a parenthesis is shifted. *)
Lemma shift_bracket (c : option binop) (lb : LexToken)
      (toks : list LexToken) (sts : list nat) (syms : list YaccSymbol) :
  type lb = "[" ->
  steps_to (mkMachine (mkStream (lb :: toks)) NoLookahead (base c :: sts) syms)
           (mkMachine (mkStream toks) NoLookahead (5 :: base c :: sts)
                      (sym_of_token lb :: syms)).
Proof. intros Hlb. operators; kinds; walk 1. Qed.

Lemma shift_parenthesis (c : option binop) (lp : LexToken)
      (toks : list LexToken) (sts : list nat) (syms : list YaccSymbol) :
  type lp = "(" ->
  steps_to (mkMachine (mkStream (lp :: toks)) NoLookahead (base c :: sts) syms)
           (mkMachine (mkStream toks) NoLookahead (6 :: base c :: sts)
                      (sym_of_token lp :: syms)).
Proof. intros Hlp. operators; kinds; walk 1. Qed.

(** What stands in a bracket is shifted and reduced, and ']' is shifted. *)
Lemma body_inside (B : nat) (body : list LexToken) (node : pyval)
      (rb : LexToken) (tail : list LexToken)
      (sts : list nat) (syms : list YaccSymbol) :
  B = 5 \/ B = 15 -> type rb = "]" -> bracket_body body node ->
  exists kind val,
    bracket_value kind val node
    /\ steps_to (mkMachine (mkStream (body ++ rb :: tail)%list) NoLookahead
                           (B :: sts) syms)
                (mkMachine (mkStream tail) NoLookahead
                           (closed B kind :: entered B kind :: B :: sts)
                           (sym_of_token rb :: mkSym kind val 0 0 :: syms)).
Proof.
  intros HB Hrb
         [n Hn|s Hs|a b c Ha Hc Hb|a b d c1 c2 Ha Hc1 Hb Hc2 Hd|toks vals Hf].
  - exists "idx", (Index (pyval_of (value n))). split; [left; auto|].
    destruct HB as [->| ->]; kinds; walk 3.
  - exists "slice", (Slice VNone VNone VNone). split; [right; left; auto|].
    destruct HB as [->| ->]; kinds; walk 3.
  - exists "slice", (Slice (maybe_value a) (maybe_value b) VNone).
    split; [right; left; auto|].
    destruct HB as [->| ->]; options; kinds; walk 7.
  - exists "slice", (Slice (maybe_value a) (maybe_value b) (maybe_value d)).
    split; [right; left; auto|].
    destruct HB as [->| ->]; options; kinds; walk 10.
  - exists "fields", (VList vals). split; [right; right; eauto|].
    assert (Hla : after_field (fst (read (rb :: tail))))
      by (simpl; rewrite Hrb; simpl; auto).
    destruct HB as [->| ->].
    + eapply steps_to_trans.
      * apply (fields_parsed 5 18 toks vals (rb :: tail) sts syms);
          [simpl; auto|exact Hf|exact Hla].
      * kinds. walk 1.
    + eapply steps_to_trans.
      * apply (fields_parsed 15 30 toks vals (rb :: tail) sts syms);
          [simpl; auto|exact Hf|exact Hla].
      * kinds. walk 1.
Qed.

(** Opens what is known of the value in a bracket. *)
Ltac bracket_cases H :=
  destruct H as [[-> ->]|[[-> ->]|[-> (? & -> & ->)]]].

(** A bracket that stands as an operand becomes its node. *)
Lemma bracket_closed (c : option binop) (kind : string) (val node : pyval)
      (lb rb : LexToken) (toks : list LexToken)
      (sts : list nat) (syms : list YaccSymbol) :
  bracket_value kind val node ->
  type lb = "[" -> type rb = "]" ->
  after_operand (fst (read toks)) ->
  steps_to (mkMachine (mkStream toks) NoLookahead
                      (closed 5 kind :: entered 5 kind :: 5 :: base c :: sts)
                      (sym_of_token rb :: mkSym kind val 0 0
                         :: sym_of_token lb :: syms))
           (mkMachine (mkStream (snd (read toks))) (fst (read toks))
                      (above c :: base c :: sts)
                      (mkSym "jsonpath" node 0 0 :: syms)).
Proof.
  intros Hv Hlb Hrb Hla. destruct toks as [|y toks]; simpl in *.
  - bracket_cases Hv; operators; kinds; walk 1.
  - unfold after_operand in Hla.
    follow_cases Hla; bracket_cases Hv; operators; kinds; walk 1.
Qed.

(** A bracket after an expression makes it the left part of a Child. *)
Lemma postfix_closed (v : pyval) (kind : string) (val node : pyval)
      (lb rb : LexToken) (toks : list LexToken) :
  bracket_value kind val node ->
  type lb = "[" -> type rb = "]" ->
  after_operand (fst (read toks)) ->
  steps_to (mkMachine (mkStream toks) NoLookahead
                      [closed 15 kind; entered 15 kind; 15; 1; 0]
                      [sym_of_token rb; mkSym kind val 0 0; sym_of_token lb;
                       mkSym "jsonpath" v 0 0; mkSym "$end" VNone 0 0])
           (at_operand [] (Child v node) (fst (read toks)) (snd (read toks))).
Proof.
  intros Hv Hlb Hrb Hla. destruct toks as [|y toks]; simpl in *.
  - bracket_cases Hv; kinds; walk 1.
  - unfold after_operand in Hla.
    follow_cases Hla; bracket_cases Hv; kinds; walk 1.
Qed.

(** The ')' after an expression is shifted, and the parentheses are
    reduced to the expression's tree. *)
Lemma parens_closed (c : option binop) (X : YaccSymbol) (lp rp : LexToken)
      (toks : list LexToken) (sts : list nat) (syms : list YaccSymbol) :
  type rp = ")" ->
  after_operand (fst (read toks)) ->
  steps_to (closing rp toks (base c :: sts) (sym_of_token lp :: syms) X)
           (mkMachine (mkStream (snd (read toks))) (fst (read toks))
                      (above c :: base c :: sts)
                      (mkSym "jsonpath" (sym_value X) 0 0 :: syms)).
Proof.
  intros Hrp Hla. unfold closing. destruct X as [xt xv xl xp].
  destruct toks as [|y toks]; simpl in *.
  - operators; kinds; walk 2.
  - unfold after_operand in Hla. follow_cases Hla; operators; kinds; walk 2.
Qed.

(** An operand, at the start or after an operator, is shifted and reduced
    to its tree. *)
Lemma operand_parsed (c : option binop) (xs : list LexToken) (x : pyval)
      (toks : list LexToken) (sts : list nat) (syms : list YaccSymbol) :
  operand xs x ->
  after_operand (fst (read toks)) ->
  steps_to (mkMachine (mkStream (xs ++ toks)%list) NoLookahead
                      (base c :: sts) syms)
           (mkMachine (mkStream (snd (read toks))) (fst (read toks))
                      (above c :: base c :: sts)
                      (mkSym "jsonpath" x 0 0 :: syms)).
Proof.
  intros Hx Hla.
  destruct Hx as [fs vals Hf|t Ht Hv|t Ht|t Ht Hv|t Ht Hv
                 |lb rb body node Hlb Hrb Hbody
                 |lp rp ts v Hlp Hrp Hlex Hne Hparse].
  - eapply steps_to_trans.
    + apply (fields_parsed (base c) 7 fs vals toks sts syms);
        [destruct c as [[]|]; simpl; auto 10|exact Hf|
         exact (after_operand_field _ Hla)].
    + exact (fields_reduced c vals toks sts syms Hla).
  - destruct toks as [|y toks]; simpl in *;
      [|unfold after_operand in Hla; follow_cases Hla];
      operators; kinds; walk 3.
  - destruct toks as [|y toks]; simpl in *;
      [|unfold after_operand in Hla; follow_cases Hla];
      operators; kinds; walk 2.
  - destruct toks as [|y toks]; simpl in *;
      [|unfold after_operand in Hla; follow_cases Hla];
      operators; kinds; walk 2.
  - destruct toks as [|y toks]; simpl in *;
      [|unfold after_operand in Hla; follow_cases Hla];
      operators; kinds; walk 2.
  - simpl. rewrite <- app_assoc. simpl.
    destruct (body_inside 5 body node rb toks (base c :: sts)
                (sym_of_token lb :: syms) (or_introl eq_refl) Hrb Hbody)
      as (kind & val & Hv & Hsteps).
    eapply steps_to_trans; [exact (shift_bracket c lb _ sts syms Hlb)|].
    eapply steps_to_trans; [exact Hsteps|].
    exact (bracket_closed c kind val node lb rb toks sts syms Hv Hlb Hrb Hla).
  - simpl. rewrite <- app_assoc. simpl.
    destruct (expression_enclosed ts rp toks (base c :: sts)
                (sym_of_token lp :: syms) v Hrp Hlex Hne Hparse)
      as (X & <- & Hsteps).
    eapply steps_to_trans; [exact (shift_parenthesis c lp _ sts syms Hlp)|].
    eapply steps_to_trans; [exact Hsteps|].
    exact (parens_closed c X lp rp toks sts syms Hrp Hla).
Qed.

(** A bracket after an operand: every waiting operator is closed first,
    then the bracket makes a Child of the whole. *)
Lemma postfix_parsed (v : pyval) (lb rb : LexToken) (body : list LexToken)
      (node : pyval) (toks : list LexToken) :
  type lb = "[" -> type rb = "]" -> bracket_body body node ->
  after_operand (fst (read toks)) ->
  steps_to (at_operand [] v (Tok lb) (body ++ rb :: toks)%list)
           (at_operand [] (Child v node) (fst (read toks)) (snd (read toks))).
Proof.
  intros Hlb Hrb Hbody Hla.
  destruct (body_inside 15 body node rb toks [1; 0]
              [sym_of_token lb; mkSym "jsonpath" v 0 0;
               mkSym "$end" VNone 0 0] (or_intror eq_refl) Hrb Hbody)
    as (kind & val & Hv & Hsteps).
  eapply steps_to_trans; [|eapply steps_to_trans; [exact Hsteps|]].
  - kinds. walk 1.
  - exact (postfix_closed v kind val node lb rb toks Hv Hlb Hrb Hla).
Qed.

Lemma read_links (toks : list LexToken) (items : list link) :
  links toks items -> after_operand (fst (read toks)).
Proof.
  intros [|o t_o xs x toks' items' Hty Hv Hx Hc
         |lb rb body node toks' items' Hlb Hrb Hbody Hc]; simpl.
  - exact I.
  - rewrite Hty. apply operator_follows.
  - rewrite Hlb. simpl. auto.
Qed.

(** The links of a chain, from the machine that has reduced an operand. *)
Lemma links_parsed (toks : list LexToken) (items : list link) :
  links toks items ->
  forall (frames : list frame) (v : pyval),
    Forall frame_ok frames ->
    ends_with (at_operand frames v (fst (read toks)) (snd (read toks)))
              (Return (climb (map erase frames) v items)).
Proof.
  induction 1 as [|o t_o xs x toks items Hty Hv Hx Hc IH
                 |lb rb body node toks items Hlb Hrb Hbody Hc IH];
    intros frames v Hok; simpl.
  - eapply steps_to_ends.
    + apply (collapse_steps EndMarker [] frames I v Hok).
    + simpl. rewrite collapse_frames_zero, collapse_erase. simpl.
      apply ends_with_step. reflexivity.
  - assert (Hla : after_operand (Tok t_o))
      by (simpl; rewrite Hty; apply operator_follows).
    pose proof (collapse_steps (Tok t_o) (xs ++ toks) frames Hla v Hok)
      as Hsteps.
    simpl in Hsteps. rewrite Hty, level_of_terminal in Hsteps.
    rewrite collapse_erase.
    pose proof (collapse_frames_ok (op_level o) frames v Hok) as Hok'.
    pose proof (collapse_frames_below (op_level o) frames v) as Hbelow.
    destruct (collapse_frames (op_level o) frames v) as [frames' v'].
    simpl in *.
    eapply steps_to_ends; [exact Hsteps|].
    eapply steps_to_ends;
      [exact (shift_operator frames' v' o t_o (xs ++ toks) Hok' Hty Hbelow)|].
    eapply steps_to_ends.
    + exact (operand_parsed (Some o) xs x toks _ _ Hx (read_links _ _ Hc)).
    + apply (IH ((v', o, t_o) :: frames') x).
      apply Forall_cons; [split; assumption|exact Hok'].
  - assert (Hla : after_operand (Tok lb))
      by (simpl; rewrite Hlb; simpl; auto).
    pose proof (collapse_steps (Tok lb) (body ++ rb :: toks) frames Hla v Hok)
      as Hsteps.
    simpl in Hsteps. rewrite Hlb in Hsteps.
    change (level_of "[") with 0 in Hsteps.
    rewrite collapse_frames_zero in Hsteps.
    rewrite collapse_erase. simpl.
    eapply steps_to_ends; [exact Hsteps|].
    eapply steps_to_ends.
    + exact (postfix_parsed _ lb rb body node toks Hlb Hrb Hbody
               (read_links _ _ Hc)).
    + exact (IH [] _ (Forall_nil _)).
Qed.

(** A whole chain, from the start. *)
Lemma chain_parses (xs : list LexToken) (x : pyval) (toks : list LexToken)
      (items : list link) :
  operand xs x -> links toks items ->
  parses_to (xs ++ toks)%list (Return (climb [] x items)).
Proof.
  intros Hx Hc.
  eapply steps_to_ends.
  - exact (operand_parsed None xs x toks [] [mkSym "$end" VNone 0 0] Hx
             (read_links _ _ Hc)).
  - exact (links_parsed toks items Hc [] x (Forall_nil _)).
Qed.

(** With one operator throughout, grouping by precedence nests to the
    left. *)
Lemma climb_same (o : binop) (rights : list pyval) (l x : pyval) :
  climb [(l, o)] x (map (Binary o) rights)
  = fold_left (op_node o) rights (op_node o l x).
Proof.
  revert l x. induction rights as [|y rights IH]; intros l x; simpl.
  - reflexivity.
  - rewrite Nat.leb_refl. apply IH.
Qed.

(** X10: an expression written as an operand followed by links (a binary
    operator with its right operand, or a bracket), of any length, parses
    to the tree that grouping by precedence gives: an operator takes as its
    left operand everything before it that is joined by operators of its
    level or higher, and a bracket takes everything before it.  An operand
    is a field list, '*', '$', [this], [parent], a bracket, or any
    expression that parses, between parentheses. *)
Theorem expression_by_precedence
        (xs : list LexToken) (x : pyval) (toks : list LexToken)
        (items : list link) :
  operand xs x -> links toks items ->
  parses_to (xs ++ toks)%list (Return (climb [] x items)).
Proof. exact (chain_parses xs x toks items). Qed.

Lemma expression_by_precedence_witness :
  parses_to [literal "$" 0; literal "." 1; mkTok "ID" (TStr "a") 1 2;
             literal "|" 3; mkTok "ID" (TStr "b") 1 4;
             literal "[" 5; number 0 6; literal "]" 7;
             literal "." 8; mkTok "ID" (TStr "c") 1 9]
    (Return (Child (Child (Child Root (Union (Fields [VStr "a"])
                                             (Fields [VStr "b"])))
                          (Index (VInt 0)))
                   (Fields [VStr "c"]))).
Proof.
  apply (expression_by_precedence [literal "$" 0] Root
           [literal "." 1; mkTok "ID" (TStr "a") 1 2;
            literal "|" 3; mkTok "ID" (TStr "b") 1 4;
            literal "[" 5; number 0 6; literal "]" 7;
            literal "." 8; mkTok "ID" (TStr "c") 1 9]
           [Binary OpChild (Fields [VStr "a"]);
            Binary OpUnion (Fields [VStr "b"]);
            Postfix (Index (VInt 0));
            Binary OpChild (Fields [VStr "c"])]).
  - apply operand_root. reflexivity.
  - apply (links_binary OpChild (literal "." 1)
             [mkTok "ID" (TStr "a") 1 2] (Fields [VStr "a"]));
      [reflexivity|reflexivity| |].
    { apply operand_fields.
      exact (field_list_intro (mkTok "ID" (TStr "a") 1 2) [] [] eq_refl
               more_fields_nil). }
    apply (links_binary OpUnion (literal "|" 3)
             [mkTok "ID" (TStr "b") 1 4] (Fields [VStr "b"]));
      [reflexivity|reflexivity| |].
    { apply operand_fields.
      exact (field_list_intro (mkTok "ID" (TStr "b") 1 4) [] [] eq_refl
               more_fields_nil). }
    apply (links_postfix (literal "[" 5) (literal "]" 7) [number 0 6]
             (Index (VInt 0)));
      [reflexivity|reflexivity|exact (body_idx (number 0 6) eq_refl)|].
    apply (links_binary OpChild (literal "." 8)
             [mkTok "ID" (TStr "c") 1 9] (Fields [VStr "c"]) [] []);
      [reflexivity|reflexivity| |apply links_nil].
    apply operand_fields.
    exact (field_list_intro (mkTok "ID" (TStr "c") 1 9) [] [] eq_refl
             more_fields_nil).
Defined.

(** X11: operands joined by one and the same binary operator, however
    many, nest to the left: "a.b.c.d" is Child(Child(Child(a, b), c), d). *)
Theorem same_operator_nests_left
        (o : binop) (xs : list LexToken) (x : pyval) (toks : list LexToken)
        (rights : list pyval) :
  operand xs x -> links toks (map (Binary o) rights) ->
  parses_to (xs ++ toks)%list (Return (fold_left (op_node o) rights x)).
Proof.
  intros Hx Hc.
  pose proof (chain_parses xs x toks _ Hx Hc) as Hp.
  destruct rights as [|y rights]; [exact Hp|].
  simpl in Hp. rewrite climb_same in Hp. exact Hp.
Qed.

Lemma same_operator_witness :
  parses_to [mkTok "ID" (TStr "a") 1 0;
             literal "." 1; mkTok "ID" (TStr "b") 1 2;
             literal "." 3; mkTok "ID" (TStr "c") 1 4;
             literal "." 5; mkTok "ID" (TStr "d") 1 6]
    (Return (Child (Child (Child (Fields [VStr "a"]) (Fields [VStr "b"]))
                          (Fields [VStr "c"]))
                   (Fields [VStr "d"]))).
Proof.
  apply (same_operator_nests_left OpChild [mkTok "ID" (TStr "a") 1 0]
           (Fields [VStr "a"])
           [literal "." 1; mkTok "ID" (TStr "b") 1 2;
            literal "." 3; mkTok "ID" (TStr "c") 1 4;
            literal "." 5; mkTok "ID" (TStr "d") 1 6]
           [Fields [VStr "b"]; Fields [VStr "c"]; Fields [VStr "d"]]).
  - apply operand_fields.
    exact (field_list_intro (mkTok "ID" (TStr "a") 1 0) [] [] eq_refl
             more_fields_nil).
  - apply (links_binary OpChild (literal "." 1)
             [mkTok "ID" (TStr "b") 1 2] (Fields [VStr "b"]));
      [reflexivity|reflexivity| |].
    { apply operand_fields.
      exact (field_list_intro (mkTok "ID" (TStr "b") 1 2) [] [] eq_refl
               more_fields_nil). }
    apply (links_binary OpChild (literal "." 3)
             [mkTok "ID" (TStr "c") 1 4] (Fields [VStr "c"]));
      [reflexivity|reflexivity| |].
    { apply operand_fields.
      exact (field_list_intro (mkTok "ID" (TStr "c") 1 4) [] [] eq_refl
               more_fields_nil). }
    apply (links_binary OpChild (literal "." 5)
             [mkTok "ID" (TStr "d") 1 6] (Fields [VStr "d"]) [] []);
      [reflexivity|reflexivity| |apply links_nil].
    apply operand_fields.
    exact (field_list_intro (mkTok "ID" (TStr "d") 1 6) [] [] eq_refl
             more_fields_nil).
Defined.

(** ** Tokens at other positions *)

Lemma alike_refl {A : Type} (r : result A) : alike r r.
Proof. destruct r; simpl; [reflexivity|left; reflexivity]. Qed.

Lemma p_item_same (l l' : list YaccSymbol) (n : nat) :
  Forall2 same_symbol l l' -> p_item l n = p_item l' n.
Proof.
  intros H. revert n. unfold p_item.
  induction H as [|X Y l l' [_ Hv] H IH]; intros [|n]; simpl; auto.
  rewrite Hv. reflexivity.
Qed.

Lemma odd_items_same (l l' : list YaccSymbol) :
  Forall2 same_symbol l l' -> odd_items l = odd_items l'.
Proof.
  intros H.
  assert (Hboth : odd_items l = odd_items l'
                  /\ forall X Y, odd_items (X :: l) = odd_items (Y :: l')).
  { induction H as [|a b l l' [_ Hv] H [IH1 IH2]].
    - split; reflexivity.
    - split; [apply IH2|].
      intros X Y. simpl. rewrite Hv, IH1. reflexivity. }
  exact (proj1 Hboth).
Qed.

Lemma p_lineno_alike (l l' : list YaccSymbol) (n : nat) :
  Forall2 same_symbol l l' ->
  (exists a b, p_lineno l n = Return a /\ p_lineno l' n = Return b)
  \/ (exists e, p_lineno l n = Raise e /\ p_lineno l' n = Raise e).
Proof.
  intros H. revert n. unfold p_lineno.
  induction H as [|X Y l l' _ H IH]; intros [|n]; simpl; eauto.
Qed.

Lemma p_lexpos_alike (l l' : list YaccSymbol) (n : nat) :
  Forall2 same_symbol l l' ->
  (exists a b, p_lexpos l n = Return a /\ p_lexpos l' n = Return b)
  \/ (exists e, p_lexpos l n = Raise e /\ p_lexpos l' n = Raise e).
Proof.
  intros H. revert n. unfold p_lexpos.
  induction H as [|X Y l l' _ H IH]; intros [|n]; simpl; eauto.
Qed.

(** No action reads a position for the value it returns; the positions an
    action reads go into the message of its error. *)
Lemma actions_alike :
  Forall (fun p =>
            forall l l' : list YaccSymbol,
              Forall2 same_symbol l l' -> alike (func p l) (func p l'))
         Productions.
Proof.
  cbv [Productions rules flat_map productions_of map app
       rule_alts rule_lhs rule_func].
  repeat (apply Forall_cons || apply Forall_nil);
    intros l l' H; cbv [func];
    pose proof (p_item_same l l' 1 H) as H1;
    pose proof (p_item_same l l' 2 H) as H2;
    pose proof (p_item_same l l' 3 H) as H3;
    pose proof (odd_items_same l l' H) as Ho.
  all: cbv [p_jsonpath_binop p_jsonpath_fields p_jsonpath_root
            p_jsonpath_named_operator
            p_jsonpath_idx p_jsonpath_slice p_jsonpath_fieldbrackets
            p_jsonpath_child_fieldbrackets p_jsonpath_child_idxbrackets
            p_jsonpath_child_slicebrackets p_jsonpath_parens
            p_fields_id p_fields_comma p_idx p_slice_any p_slice
            p_maybe_int p_empty p_fields_or_any].
  all: rewrite <- ?H1, <- ?H2, <- ?H3, <- ?Ho.
  all: try apply alike_refl.
  destruct (p_item l 1) as [name|e]; simpl; [|left; reflexivity].
  destruct (py_eq_str name "this"); [reflexivity|].
  destruct (py_eq_str name "parent"); [reflexivity|].
  destruct (p_lineno_alike l l' 1 H) as [(a & b & -> & ->)|(e & -> & ->)];
    simpl; [|left; reflexivity].
  destruct (p_lexpos_alike l l' 1 H) as [(c & d & -> & ->)|(e & -> & ->)];
    simpl; [|left; reflexivity].
  right. right. exists (str_of_pyval name), a, c, b, d.
  split; reflexivity.
Qed.

Lemma action_alike (n : nat) (p : Production) (l l' : list YaccSymbol) :
  nth_error Productions n = Some p ->
  Forall2 same_symbol l l' -> alike (func p l) (func p l').
Proof.
  intros Hp. pose proof actions_alike as Hall.
  rewrite Forall_forall in Hall. exact (Hall p (nth_error_In _ _ Hp) l l').
Qed.

Lemma Forall2_rev {A B : Type} (R : A -> B -> Prop) (l : list A)
      (l' : list B) :
  Forall2 R l l' -> Forall2 R (rev l) (rev l').
Proof.
  induction 1 as [|a b l l' Hab H IH]; simpl; [constructor|].
  apply Forall2_app; [exact IH|]. constructor; [exact Hab|constructor].
Qed.

Lemma Forall2_firstn {A B : Type} (R : A -> B -> Prop) (k : nat)
      (l : list A) (l' : list B) :
  Forall2 R l l' -> Forall2 R (firstn k l) (firstn k l').
Proof.
  intros H. revert k.
  induction H as [|a b l l' Hab H IH]; intros [|k]; simpl; constructor; auto.
Qed.

Lemma Forall2_skipn {A B : Type} (R : A -> B -> Prop) (k : nat)
      (l : list A) (l' : list B) :
  Forall2 R l l' -> Forall2 R (skipn k l) (skipn k l').
Proof.
  intros H. revert k.
  induction H as [|a b l l' Hab H IH]; intros [|k]; simpl; auto;
    constructor; auto.
Qed.

Lemma reduce_repositioned (m1 m2 : machine) (n : nat) :
  repositioned m1 m2 -> repositioned_step (reduce m1 n) (reduce m2 n).
Proof.
  intros (Hit & Hla & Hst & Hsy). unfold reduce. rewrite <- Hst.
  destruct (nth_error Productions n) as [p|] eqn:Hp;
    [|left; reflexivity].
  assert (Harg : Forall2 same_symbol
                   (mkSym (name p) VNone 0 0
                      :: rev (firstn (length (prod p)) (symstack m1)))
                   (mkSym (name p) VNone 0 0
                      :: rev (firstn (length (prod p)) (symstack m2)))).
  { constructor; [split; reflexivity|].
    apply Forall2_rev, Forall2_firstn, Hsy. }
  pose proof (action_alike n p _ _ Hp Harg) as Hact.
  destruct (func p _) as [v|e]; destruct (func p _) as [v'|e'];
    simpl in Hact; try contradiction; [|exact Hact].
  subst v'.
  destruct (skipn (length (prod p)) (statestack m1)) as [|top rest];
    [left; reflexivity|].
  destruct (goto_of top (name p)) as [st|]; [|left; reflexivity].
  repeat split; simpl; auto.
  constructor; [split; reflexivity|]. apply Forall2_skipn, Hsy.
Qed.

Lemma fill_lookahead_repositioned (m1 m2 : machine) :
  repositioned m1 m2 ->
  exists m1' m2',
    fill_lookahead m1 = Return m1' /\ fill_lookahead m2 = Return m2'
    /\ repositioned m1' m2'.
Proof.
  destruct m1 as [[it1] la1 sts1 syms1], m2 as [[it2] la2 sts2 syms2].
  intros (Hit & Hla & Hst & Hsy). simpl in *.
  unfold fill_lookahead. simpl.
  destruct la1 as [|a|], la2 as [|b|]; simpl in Hla; try contradiction.
  - unfold token, next, list_iterator. simpl.
    destruct Hit as [|a b l l' Hab Hl]; simpl;
      eexists; eexists; (split; [reflexivity|]); (split; [reflexivity|]);
      unfold repositioned; simpl; auto.
  - eexists; eexists; (split; [reflexivity|]); (split; [reflexivity|]).
    unfold repositioned; simpl; auto.
  - eexists; eexists; (split; [reflexivity|]); (split; [reflexivity|]).
    unfold repositioned; simpl; auto.
Qed.

Lemma same_lookahead_type (la1 la2 : lookahead_t) :
  same_lookahead la1 la2 ->
  lookahead_type la1 = lookahead_type la2
  /\ same_symbol (lookahead_sym la1) (lookahead_sym la2).
Proof.
  destruct la1 as [|a|], la2 as [|b|]; simpl; try contradiction;
    try (intros _; split; [reflexivity|split; reflexivity]).
  intros [Hty Hv]. split; [exact Hty|].
  split; simpl; [exact Hty|rewrite Hv; reflexivity].
Qed.

Lemma apply_action_repositioned (state : nat) (m1 m2 : machine) :
  repositioned m1 m2 ->
  repositioned_step (apply_action state m1) (apply_action state m2).
Proof.
  intros Hrel. pose proof Hrel as (Hit & Hla & Hst & Hsy).
  destruct (same_lookahead_type _ _ Hla) as [Hty Hsym].
  unfold apply_action. rewrite <- Hty.
  assert (Herr : same_error (p_error (errtoken (lookahead m1)))
                            (p_error (errtoken (lookahead m2)))).
  { destruct (lookahead m1) as [|a|], (lookahead m2) as [|b|];
      simpl in Hla; try contradiction; try (left; reflexivity).
    destruct Hla as [Hk Hv]. simpl. rewrite <- Hk.
    destruct (String.eqb (type a) "$end"); [left; reflexivity|].
    right. left.
    exists (lineno a), (lexpos a), (lineno b), (lexpos b),
      (str_of_tokval (value a)), (type a).
    split; [reflexivity|].
    simpl. unfold unexpected_token_message. rewrite Hv, Hk. reflexivity. }
  destruct (action_of state (lookahead_type (lookahead m1)))
    as [[j|n| |]|]; try exact Herr.
  - unfold repositioned. simpl. rewrite Hst.
    split; [exact Hit|]. split; [exact I|]. split; [reflexivity|].
    constructor; assumption.
  - apply reduce_repositioned. exact Hrel.
  - destruct Hsy as [|X Y l l' [_ HX] Hl]; simpl; auto.
    left. reflexivity.
Qed.

Lemma step_repositioned (m1 m2 : machine) :
  repositioned m1 m2 -> repositioned_step (step m1) (step m2).
Proof.
  intros Hrel. pose proof Hrel as (Hit & Hla & Hst & Hsy).
  unfold step. rewrite <- Hst.
  destruct (statestack m1) as [|state rest] eqn:Est;
    [left; reflexivity|].
  destruct (fill_lookahead_repositioned m1 m2 Hrel)
    as (m1' & m2' & E1 & E2 & Hrel').
  destruct (defaulted_state state) as [[j|n| |]|] eqn:Hd;
    try (rewrite E1, E2; apply apply_action_repositioned; exact Hrel').
  apply reduce_repositioned. exact Hrel.
Qed.

Lemma run_repositioned (fuel : nat) (m1 m2 : machine) (r1 : result pyval) :
  repositioned m1 m2 ->
  run fuel m1 = Some r1 ->
  exists r2, run fuel m2 = Some r2 /\ alike r1 r2.
Proof.
  revert m1 m2. induction fuel as [|fuel IH]; intros m1 m2 Hrel; simpl.
  - discriminate.
  - pose proof (step_repositioned m1 m2 Hrel) as Hs.
    destruct (step m1) as [m1'|r]; destruct (step m2) as [m2'|r2];
      simpl in Hs; try contradiction.
    + apply IH, Hs.
    + intros [= ->]. eauto.
Qed.

(** X12: line numbers and positions decide neither whether a parse
    succeeds, nor the tree it returns, nor the error it raises but for the
    line and position that the message of the error names.  For tokens of
    the same kinds and values at any line numbers and positions: if the
    ones parse to a tree, so do the others, to the same tree; and if the
    parse of the ones raises an error, the parse of the others raises the
    same error, or the "Parse error at line:pos near token value (kind)"
    or "Unknown named operator `name` at line:pos" message with the same
    value, kind or name and another line and position. *)
Theorem tree_is_independent_of_positions (ts ts' : list LexToken) :
  Forall2 same_token ts ts' ->
  (forall v : pyval, parses_to ts (Return v) -> parses_to ts' (Return v))
  /\ (forall e : exn,
        parses_to ts (Raise e) ->
        exists e', parses_to ts' (Raise e') /\ same_error e e').
Proof.
  intros Hts.
  assert (Hrel : repositioned (initial (mkStream ts)) (initial (mkStream ts'))).
  { repeat split; simpl; auto.
    constructor; [split; reflexivity|constructor]. }
  split.
  - intros v [fuel Hrun].
    destruct (run_repositioned fuel _ _ _ Hrel Hrun) as ([v'|e'] & Hrun' & Ha);
      simpl in Ha; [|contradiction].
    subst v'. exists fuel. exact Hrun'.
  - intros e [fuel Hrun].
    destruct (run_repositioned fuel _ _ _ Hrel Hrun) as ([v'|e'] & Hrun' & Ha);
      simpl in Ha; [contradiction|].
    exists e'. split; [exists fuel; exact Hrun'|exact Ha].
Qed.

Lemma tree_is_independent_of_positions_witness :
  parses_to [mkTok "ID" (TStr "a") 7 40; mkTok "." (TStr ".") 7 45;
             mkTok "ID" (TStr "b") 8 3]
    (Return (Child (Fields [VStr "a"]) (Fields [VStr "b"])))
  /\ exists e',
       parses_to [mkTok "$" (TStr "$") 7 40; mkTok "$" (TStr "$") 8 3]
         (Raise e')
       /\ same_error
            (JsonPathParserError "Parse error at 1:2 near token $ ($)") e'.
Proof.
  split.
  - refine (proj1 (tree_is_independent_of_positions
                     [mkTok "ID" (TStr "a") 1 0; literal "." 1;
                      mkTok "ID" (TStr "b") 1 2] _ _) _ _).
    + repeat constructor.
    + exists 16. vm_compute. reflexivity.
  - refine (proj2 (tree_is_independent_of_positions
                     [literal "$" 0; literal "$" 2] _ _) _ _).
    + repeat constructor.
    + exists 8. vm_compute. reflexivity.
Defined.
